(** * DroneControl: the attitude command / telemetry gateway of [comm.py]

    A shallow embedding of class [DroneComm] (src/DroneControl/comm.py).

    - Python floats are IEEE-754 binary64 values: the kernel's primitive
      [float], whose operations are specified by [SpecFloat] through the
      [FloatAxioms] of the library.  Literals such as [0.0011] denote the
      binary64 value nearest to the decimal, as they do in Python.
    - Python exceptions are values of [exn]; a computation that may raise
      returns a [result].
    - The PWM generator (Adafruit_PCA9685), the console and the telemetry
      links (pyMultiwii) form the [World]; a method is a function from the
      world to an outcome and the world it leaves behind, so the effects of
      a call that raises half-way are kept.
    - pyMultiwii is not part of the repository: its constructor and the
      methods [comm.py] calls are fields of the class [Platform], which
      also fixes the rounding rule of the interpreter.

    The definitions come first: values, the class constants, the methods
    of [DroneComm], readers of the trace, and a simulated flight
    controller to run the methods on.  The theorems follow: the order of
    floats and [validate_pwidth], the rounding of the binary64 operations
    and the monotonicity of the tick conversion, the command path and its
    range invariant, telemetry, and shutdown; then further properties of
    the same code, [control_example] included. *)

From Stdlib Require Import ZArith List String Ascii Bool Lia Floats.
Import ListNotations.

Set Warnings "-inexact-float".

Local Open Scope Z_scope.

(** ** Python values and exceptions *)

Inductive exn : Type :=
| ZeroDivisionError        (* float division by zero *)
| ValueError               (* cannot convert float NaN to integer *)
| OverflowError            (* float infinity to integer, int too large for a float *)
| AttributeError           (* 'NoneType' object has no attribute ... *)
| KeyError (key : string)  (* dict lookup of a missing key *)
| IOError (msg : string).  (* raised by an external driver *)

Inductive result (A : Type) : Type :=
| Ok (a : A)
| Raise (e : exn).

Arguments Ok {A} a.
Arguments Raise {A} e.

Definition bind_result {A B} (r : result A) (k : A -> result B) : result B :=
  match r with
  | Ok a => k a
  | Raise e => Raise e
  end.

(** A Python number as the constructor's trim arguments receive it. *)
Inductive number : Type :=
| PyInt (n : Z)
| PyFloat (x : float).

(** [float(n)] for a Python int: the nearest binary64 value, ties to even;
    an int beyond the range of a float raises [OverflowError]. *)
Definition float_of_int (n : Z) : result float :=
  match binary_normalize prec emax n 0 false with
  | S754_infinity _ => Raise OverflowError
  | sf => Ok (SF2Prim sf)
  end.

Definition to_float (v : number) : result float :=
  match v with
  | PyInt n => float_of_int n
  | PyFloat x => Ok x
  end.

(** [a / b] on floats (true division): Python raises on a zero divisor,
    of either sign, before the hardware division is attempted. *)
Definition truediv (a b : float) : result float :=
  if PrimFloat.eqb b 0%float then Raise ZeroDivisionError
  else Ok (PrimFloat.div a b).

(** The interpreter's rule for [round] on a tie: Python 2 rounds half away
    from zero, Python 3 rounds half to even.  The module is written for
    both ([from __future__ import division], [print(...)]). *)
Inductive tie_rule : Type := HalfAwayFromZero | HalfToEven.

(** The integer nearest to [n / d] for [0 <= n] and [0 < d]; a tie goes
    by the rule. *)
Definition nearest (tie : tie_rule) (n d : Z) : Z :=
  let q := n / d in
  match 2 * (n mod d) ?= d with
  | Lt => q
  | Gt => q + 1
  | Eq => match tie with
          | HalfAwayFromZero => q + 1
          | HalfToEven => if Z.even q then q else q + 1
          end
  end.

(** Nearest integer to [m * 2^e], [m] a positive mantissa. *)
Definition round_mag (tie : tie_rule) (m : positive) (e : Z) : Z :=
  match e with
  | Zneg k => nearest tie (Zpos m) (2 ^ Zpos k)
  | _ => Zpos m * 2 ^ e
  end.

(** [int(round(x))]: NaN raises [ValueError], an infinity [OverflowError]. *)
Definition int_round (tie : tie_rule) (x : float) : result Z :=
  match Prim2SF x with
  | S754_zero _ => Ok 0
  | S754_infinity _ => Raise OverflowError
  | S754_nan => Raise ValueError
  | S754_finite s m e => Ok (if s then - round_mag tie m e else round_mag tie m e)
  end.

(** ** Class constants of [DroneComm] *)

Definition MIN_WIDTH : float := 0.0011%float.
Definition MID_WIDTH : float := 0.0015%float.
Definition MAX_WIDTH : float := 0.0019%float.

Definition TICKS : Z := 4096.

Definition ROLL_CHANNEL : Z := 3.
Definition PITCH_CHANNEL : Z := 2.
Definition YAW_CHANNEL : Z := 1.

Definition DEFAULT_K_PERIOD : float := (0.023 / 0.022)%float.

(** ** The pure part of the command path *)

(** [validate_pwidth]: the clamped width and the in-range flag.
    [width > MAX_WIDTH] is the comparison [MAX_WIDTH < width]. *)
Definition validate_pwidth (width : float) : float * bool :=
  if PrimFloat.ltb MAX_WIDTH width then (MAX_WIDTH, false)
  else if PrimFloat.ltb width MIN_WIDTH then (MIN_WIDTH, false)
  else (width, true).

(** The conversion inside [set_pwidth]:
    [width = width / self.period * self.TICKS; pulse = int(round(width))]. *)
Definition to_ticks (tie : tie_rule) (period width : float) : result Z :=
  bind_result (truediv width period) (fun q =>
  bind_result (float_of_int TICKS) (fun t =>
  int_round tie (PrimFloat.mul q t))).

(** [MIN_WIDTH <= w <= MAX_WIDTH] on floats; false on NaN. *)
Definition in_range (w : float) : bool :=
  PrimFloat.leb MIN_WIDTH w && PrimFloat.leb w MAX_WIDTH.

(** ** Rounding in binary64, for the proofs

    The operations of [SpecFloat] round through [binary_round_aux].  The
    definitions below say what it computes: [loc_of] is the position of a
    fraction between two integers, [rne] the nearest integer with ties to
    even, and [RN a b] the binary64 value nearest to [a / b], both counted
    in units of 2^-1074, the smallest subnormal. *)

Definition rne (n d : Z) : Z := nearest HalfToEven n d.

Definition loc_of (n d : Z) : location :=
  if n mod d =? 0 then loc_Exact else loc_Inexact (2 * (n mod d) ?= d).

Definition fexp64 : Z -> Z := fexp prec emax.

(** The exponent, over -1074, of the binade [a / b] is rounded in. *)
Definition grid (a b : Z) : Z := Z.max 0 (Z.log2 (a / b) + 1 - 53).

Definition RN (a b : Z) : Z := rne a (b * 2 ^ grid a b) * 2 ^ grid a b.

(** [n / d * 2^e] in units of 2^-1074, as a fraction. *)
Definition units (n d e : Z) : Z * Z :=
  if -1074 <=? e then (n * 2 ^ (e + 1074), d) else (n, d * 2 ^ (-1074 - e)).

(** Zero or finite. *)
Definition is_number (x : spec_float) : bool :=
  match x with
  | S754_zero _ | S754_finite _ _ _ => true
  | _ => false
  end.

(** The magnitude of a number in units of 2^-1074 and its sign bit. *)
Definition mag_of (x : spec_float) : Z :=
  match x with
  | S754_finite _ m e => Zpos m * 2 ^ (e + 1074)
  | _ => 0
  end.

Definition neg_of (x : spec_float) : bool :=
  match x with
  | S754_zero s | S754_infinity s | S754_finite s _ _ => s
  | S754_nan => false
  end.

Definition sv (x : spec_float) : Z :=
  if neg_of x then - mag_of x else mag_of x.

(** The magnitude of [int(round(x))]. *)
Definition rmag (t : tie_rule) (r : spec_float) : Z :=
  match r with
  | S754_finite _ m e => round_mag t m e
  | _ => 0
  end.

(** The exponent of a finite value is that of a subnormal at least. *)
Definition on_grid (x : spec_float) : Prop :=
  match x with
  | S754_finite _ _ e => -1074 <= e
  | _ => True
  end.

(** [r] is [x * c / d] rounded to binary64, sign kept. *)
Definition rounds_to (c d : Z) (x r : spec_float) : Prop :=
  neg_of r = neg_of x /\
  exists a b, 0 <= a /\ 0 < b /\ a * d = mag_of x * c * b /\ mag_of r = RN a b.

(** ** The world outside the interpreter *)

(** What the process does to its surroundings, in the order it happens.
    [set_pwm] is the driver call [self.pwm.set_pwm(channel, on, off)]; it
    also records [width], the argument of the [set_pwidth] call that issued
    it (the driver never sees it: it is kept to state the range claims). *)
Inductive event : Type :=
| PCA9685                                            (* Adafruit_PCA9685.PCA9685() *)
| set_pwm_freq (hz : float)                          (* self.pwm.set_pwm_freq(hz) *)
| set_pwm (channel : Z) (width : float) (on off : Z)
| print (line : string)                              (* print(line) *)
| MultiWii_new (port : string) (h : nat)             (* MultiWii(port), stored at h *)
| getData (h : nat)                                  (* board.getData(MultiWii.ATTITUDE) *)
| closeSerial (h : nat).                             (* board.closeSerial() *)

(** The instance attributes of a [DroneComm]; [board] is [None] or a
    reference to a [MultiWii] object.  [self.pwm] is the one PWM generator
    of the world and has no attribute of its own here. *)
Record DroneComm : Type := {
  period : float;
  roll_pwm_trim : float;
  pitch_pwm_trim : float;
  yaw_pwm_trim : float;
  board : option nat
}.

Definition newline : string := String (ascii_of_nat 10) EmptyString.

(** What the module runs on.  [tie] is the rounding rule of the
    interpreter.  The other fields are pyMultiwii: the state of a
    [MultiWii] object, its constructor (it opens the serial port and may
    raise), [getData(MultiWii.ATTITUDE)] (it refreshes [attitude] and may
    raise), the dictionary [attitude] and [closeSerial]. *)
Class Platform : Type := {
  tie : tie_rule;
  MultiWii : Type;
  MultiWii_init : string -> result MultiWii;
  MultiWii_getData : MultiWii -> result MultiWii;
  MultiWii_attitude : MultiWii -> string -> option float;
  MultiWii_closeSerial : MultiWii -> MultiWii
}.

Section Gateway.

Context {P : Platform}.

(** The trace of effects so far, oldest first, and the [MultiWii] objects
    created so far; a reference is an index into [links]. *)
Record World : Type := {
  trace : list event;
  links : list MultiWii
}.

(** A method body: it runs in a world, returns or raises, and leaves a
    world behind in both cases. *)
Definition M (A : Type) : Type := World -> result A * World.

Definition ret {A} (a : A) : M A := fun w => (Ok a, w).

Definition lift {A} (r : result A) : M A := fun w => (r, w).

Definition bind {A B} (m : M A) (k : A -> M B) : M B :=
  fun w =>
    match m w with
    | (Ok a, w') => k a w'
    | (Raise e, w') => (Raise e, w')
    end.

Notation "x <- m ;; k" := (bind m (fun x => k))
  (at level 61, m at next level, right associativity).
Notation "m ;; k" := (bind m (fun _ => k))
  (at level 61, right associativity).

Definition emit (ev : event) : M unit :=
  fun w => (Ok tt, {| trace := trace w ++ [ev]; links := links w |}).

(** [for x in l: body(x)] *)
Fixpoint for_each {A} (l : list A) (body : A -> M unit) : M unit :=
  match l with
  | [] => ret tt
  | x :: l' => body x ;; for_each l' body
  end.

Definition range (n : nat) : list Z := map Z.of_nat (seq 0 n).

(** *** The telemetry link *)

(** [MultiWii(port)]: a new object, referenced by the next free index. *)
Definition new_MultiWii (port : string) : M nat :=
  fun w =>
    match MultiWii_init port with
    | Raise e => (Raise e, w)
    | Ok l =>
        let h := List.length (links w) in
        (Ok h, {| trace := trace w ++ [MultiWii_new port h];
                  links := links w ++ [l] |})
    end.

Fixpoint update {A} (l : list A) (h : nat) (a : A) : list A :=
  match l, h with
  | [], _ => []
  | _ :: l', O => a :: l'
  | x :: l', S h' => x :: update l' h' a
  end.

(** [self.board.<method>]: on [None] the attribute lookup raises.  A
    reference always points into [links] (objects are never freed); the
    last case is there to make the function total. *)
Definition the_board (self : DroneComm) : M (nat * MultiWii) :=
  fun w =>
    match board self with
    | None => (Raise AttributeError, w)
    | Some h =>
        match nth_error (links w) h with
        | Some l => (Ok (h, l), w)
        | None => (Raise AttributeError, w)
        end
    end.

(** [self.board.getData(MultiWii.ATTITUDE)] *)
Definition board_getData (self : DroneComm) : M unit :=
  hl <- the_board self ;;
  fun w =>
    match MultiWii_getData (snd hl) with
    | Raise e => (Raise e, {| trace := trace w ++ [getData (fst hl)];
                              links := links w |})
    | Ok l' => (Ok tt, {| trace := trace w ++ [getData (fst hl)];
                          links := update (links w) (fst hl) l' |})
    end.

(** [self.board.attitude[key]] *)
Definition board_attitude (self : DroneComm) (key : string) : M float :=
  hl <- the_board self ;;
  match MultiWii_attitude (snd hl) key with
  | Some v => ret v
  | None => lift (Raise (KeyError key))
  end.

(** [self.board.closeSerial()] *)
Definition board_closeSerial (self : DroneComm) : M unit :=
  hl <- the_board self ;;
  fun w =>
    (Ok tt, {| trace := trace w ++ [closeSerial (fst hl)];
               links := update (links w) (fst hl) (MultiWii_closeSerial (snd hl)) |}).

(** *** The methods of [DroneComm] *)

Definition set_pwidth (self : DroneComm) (channel : Z) (width : float) : M unit :=
  pulse <- lift (to_ticks tie (period self) width) ;;
  emit (set_pwm channel width 0 pulse).

Definition reset_channels (self : DroneComm) : M unit :=
  for_each (range 6) (fun i => set_pwidth self i MID_WIDTH) ;;
  set_pwidth self ROLL_CHANNEL (MID_WIDTH + roll_pwm_trim self)%float ;;
  set_pwidth self PITCH_CHANNEL (MID_WIDTH + pitch_pwm_trim self)%float ;;
  set_pwidth self YAW_CHANNEL (MID_WIDTH + yaw_pwm_trim self)%float.

(** [trim * 1E-6] for a trim given as a Python number. *)
Definition trim_seconds (trim : number) : result float :=
  bind_result (to_float trim) (fun t => Ok (t * 1E-6)%float).

Definition __init__ (period : float) (k_period : option float)
    (roll_pwm_trim pitch_pwm_trim yaw_pwm_trim : number)
    (port : option string) : M DroneComm :=
  roll <- lift (trim_seconds roll_pwm_trim) ;;
  pitch <- lift (trim_seconds pitch_pwm_trim) ;;
  yaw <- lift (trim_seconds yaw_pwm_trim) ;;
  let k_period := match k_period with
                  | None => DEFAULT_K_PERIOD
                  | Some k => k
                  end in
  emit PCA9685 ;;
  hz <- lift (truediv 1 (k_period * period)) ;;
  emit (set_pwm_freq hz) ;;
  board <- match port with
           | None => ret None
           | Some p => h <- new_MultiWii p ;; ret (Some h)
           end ;;
  let self := {| period := period;
                 roll_pwm_trim := roll;
                 pitch_pwm_trim := pitch;
                 yaw_pwm_trim := yaw;
                 board := board |} in
  reset_channels self ;;
  ret self.

Definition set_roll_pwidth (self : DroneComm) (width : float) : M unit :=
  let width := (width + roll_pwm_trim self)%float in
  let '(width, valid) := validate_pwidth width in
  set_pwidth self ROLL_CHANNEL width ;;
  if negb valid then emit (print "WARNING: Roll out of range!"%string) else ret tt.

Definition set_pitch_pwidth (self : DroneComm) (width : float) : M unit :=
  let width := (width + pitch_pwm_trim self)%float in
  let '(width, valid) := validate_pwidth width in
  set_pwidth self PITCH_CHANNEL width ;;
  if negb valid then emit (print "WARNING: Pitch out of range!"%string) else ret tt.

Definition set_yaw_pwidth (self : DroneComm) (width : float) : M unit :=
  let width := (width + yaw_pwm_trim self)%float in
  let '(width, valid) := validate_pwidth width in
  set_pwidth self YAW_CHANNEL width ;;
  if negb valid then emit (print "WARNING: Yaw out of range!"%string) else ret tt.

(** [get_data]: the value of the field, or [None] after the else branch. *)
Definition get_data (self : DroneComm) (arg : string) : M (option float) :=
  board_getData self ;;
  if (arg =? "angx")%string || (arg =? "angy")%string || (arg =? "heading")%string
  then v <- board_attitude self arg ;; ret (Some v)
  else emit (print ("Invalid argument" ++ newline)%string) ;;
       board_closeSerial self ;;
       ret None.

Definition get_roll (self : DroneComm) : M float :=
  board_getData self ;; board_attitude self "angx"%string.

Definition get_pitch (self : DroneComm) : M float :=
  board_getData self ;; board_attitude self "angy"%string.

Definition get_yaw (self : DroneComm) : M float :=
  board_getData self ;; board_attitude self "heading"%string.

(** [exit]: the instance afterwards, [self.board] rebound.  Every raise
    of the body precedes the assignment, so an outcome [Raise] leaves the
    instance as it was. *)
Definition exit (self : DroneComm) : M DroneComm :=
  reset_channels self ;;
  h <- new_MultiWii "/dev/ttyUSB0"%string ;;
  let self := {| period := period self;
                 roll_pwm_trim := roll_pwm_trim self;
                 pitch_pwm_trim := pitch_pwm_trim self;
                 yaw_pwm_trim := yaw_pwm_trim self;
                 board := Some h |} in
  board_closeSerial self ;;
  ret self.

(** [time.sleep(seconds)]: the world keeps the order of the effects, not
    their times, so a pause leaves it as it is. *)
Definition sleep (seconds : number) : M unit := ret tt.

(** [self.<name>(arg)] for a name that neither [__init__] nor the class
    body binds: the attribute lookup raises before anything is called. *)
Definition no_attribute (name : string) (arg : float) : M unit :=
  lift (Raise AttributeError).

(** [control_example] calls [set_yaw], [set_pitch] and [set_roll]; the
    class defines [set_yaw_pwidth], [set_pitch_pwidth] and
    [set_roll_pwidth], and no method of the shorter names. *)
Definition control_example (self : DroneComm) : M unit :=
  reset_channels self ;;
  sleep (PyInt 1) ;;
  no_attribute "set_yaw"%string MAX_WIDTH ;;
  no_attribute "set_pitch"%string MAX_WIDTH ;;
  no_attribute "set_roll"%string MAX_WIDTH ;;
  sleep (PyInt 2) ;;
  no_attribute "set_yaw"%string MIN_WIDTH ;;
  no_attribute "set_pitch"%string MIN_WIDTH ;;
  no_attribute "set_roll"%string MIN_WIDTH ;;
  sleep (PyInt 2) ;;
  reset_channels self.

(** *** Sequences of calls on one instance *)

Inductive call : Type :=
| call_set_pwidth (channel : Z) (width : float)
| call_set_roll_pwidth (width : float)
| call_set_pitch_pwidth (width : float)
| call_set_yaw_pwidth (width : float)
| call_reset_channels
| call_get_data (arg : string)
| call_get_roll
| call_get_pitch
| call_get_yaw
| call_exit.

(** One call; the instance afterwards is [self] unless [exit] rebinds. *)
Definition do_call (self : DroneComm) (c : call) (w : World) : DroneComm * World :=
  match c with
  | call_set_pwidth channel width => (self, snd (set_pwidth self channel width w))
  | call_set_roll_pwidth width => (self, snd (set_roll_pwidth self width w))
  | call_set_pitch_pwidth width => (self, snd (set_pitch_pwidth self width w))
  | call_set_yaw_pwidth width => (self, snd (set_yaw_pwidth self width w))
  | call_reset_channels => (self, snd (reset_channels self w))
  | call_get_data arg => (self, snd (get_data self arg w))
  | call_get_roll => (self, snd (get_roll self w))
  | call_get_pitch => (self, snd (get_pitch self w))
  | call_get_yaw => (self, snd (get_yaw self w))
  | call_exit =>
      match exit self w with
      | (Ok self', w') => (self', w')
      | (Raise _, w') => (self, w')
      end
  end.


(** A caller that goes on after every call, also one that raised (the
    caller caught the exception): the most a client can do to the world. *)
Fixpoint do_calls (self : DroneComm) (cs : list call) (w : World) : DroneComm * World :=
  match cs with
  | [] => (self, w)
  | c :: cs' => let '(self', w') := do_call self c w in do_calls self' cs' w'
  end.

(** Construction followed by calls; a constructor that raises leaves no
    instance to call. *)
Definition session (period : float) (k_period : option float)
    (roll_pwm_trim pitch_pwm_trim yaw_pwm_trim : number) (port : option string)
    (cs : list call) (w : World) : World :=
  match __init__ period k_period roll_pwm_trim pitch_pwm_trim yaw_pwm_trim port w with
  | (Ok self, w') => snd (do_calls self cs w')
  | (Raise _, w') => w'
  end.

(** [m] keeps [I]: whatever the outcome, a world in [I] is left in [I]. *)
Definition keeps {A} (I : World -> Prop) (m : M A) : Prop :=
  forall w, I w -> I (snd (m w)).

End Gateway.

(** ** Reading a trace *)

(** Every pulse width that reached the driver lies in the accepted range. *)
Definition widths_in_range (tr : list event) : bool :=
  forallb (fun ev => match ev with
                     | set_pwm _ width _ _ => in_range width
                     | _ => true
                     end) tr.

(** The width and the off tick last programmed on [channel]. *)
Definition note_write (channel : Z) (acc : option (float * Z)) (ev : event)
    : option (float * Z) :=
  match ev with
  | set_pwm c width _ off => if c =? channel then Some (width, off) else acc
  | _ => acc
  end.

Definition programmed (channel : Z) (tr : list event) : option (float * Z) :=
  fold_left (note_write channel) tr None.

(** The nine driver calls of a [reset_channels] that runs to its end, for
    the off ticks of the neutral width and of the three trimmed widths. *)
Definition reset_writes (self : DroneComm) (pm pr pp py : Z) : list event :=
  [set_pwm 0 MID_WIDTH 0 pm; set_pwm 1 MID_WIDTH 0 pm; set_pwm 2 MID_WIDTH 0 pm;
   set_pwm 3 MID_WIDTH 0 pm; set_pwm 4 MID_WIDTH 0 pm; set_pwm 5 MID_WIDTH 0 pm;
   set_pwm ROLL_CHANNEL (MID_WIDTH + roll_pwm_trim self) 0 pr;
   set_pwm PITCH_CHANNEL (MID_WIDTH + pitch_pwm_trim self) 0 pp;
   set_pwm YAW_CHANNEL (MID_WIDTH + yaw_pwm_trim self) 0 py].

(** Whether [closeSerial] was ever called on the object at [h]. *)
Definition closed (h : nat) (tr : list event) : bool :=
  existsb (fun ev => match ev with
                     | closeSerial h' => Nat.eqb h' h
                     | _ => false
                     end) tr.

Definition ranged {P : Platform} (w : World) : Prop :=
  widths_in_range (trace w) = true.

(** The events that are not driver writes. *)
Definition silent (ev : event) : bool :=
  match ev with
  | set_pwm _ _ _ _ => false
  | _ => true
  end.

(** The trims of a constructor call keep the neutral position in range. *)
Definition trim_ok (trim : number) : bool :=
  match trim_seconds trim with
  | Ok t => in_range (MID_WIDTH + t)%float
  | Raise _ => true
  end.

(** The trims of an instance keep the neutral position in range. *)
Definition trims_in_range (self : DroneComm) : bool :=
  in_range (MID_WIDTH + roll_pwm_trim self)%float &&
  in_range (MID_WIDTH + pitch_pwm_trim self)%float &&
  in_range (MID_WIDTH + yaw_pwm_trim self)%float.

(** A direct [set_pwidth] call is given a width in range. *)
Definition clamped_call (c : call) : bool :=
  match c with
  | call_set_pwidth _ width => in_range width
  | _ => true
  end.

(** The driver writes of a trace, in order. *)
Definition writes (tr : list event) : list event :=
  filter (fun ev => negb (silent ev)) tr.

(** The events on telemetry links. *)
Definition on_link (ev : event) : bool :=
  match ev with
  | MultiWii_new _ _ | getData _ | closeSerial _ => true
  | _ => false
  end.

Definition link_events (tr : list event) : list event := filter on_link tr.

(** The driver writes of the world are [W]. *)
Definition unwritten {P : Platform} (W : list event) (w : World) : Prop :=
  writes (trace w) = W.

(** From [w] to [w'] the link objects and the events on links are the
    same. *)
Definition untouched {P : Platform} (w w' : World) : Prop :=
  links w' = links w /\ link_events (trace w') = link_events (trace w).

(** [h] is an object of the world, and [c] tells whether [closeSerial] was
    ever called on it. *)
Definition kept_open {P : Platform} (h : nat) (c : bool) (w : World) : Prop :=
  closed h (trace w) = c /\ (h < List.length (links w))%nat.

(** A [get_data] call is given one of the three keys. *)
Definition well_asked (c : call) : bool :=
  match c with
  | call_get_data arg =>
      (arg =? "angx")%string || (arg =? "angy")%string || (arg =? "heading")%string
  | _ => true
  end.

(** ** A simulated flight controller

    A stand-in for pyMultiwii, to run the module on: a link remembers its
    port and whether its serial port is open; [getData] on an open link
    reports a fixed attitude, and on a closed one leaves the attitude as
    it was (pyMultiwii catches the serial error). *)
Module Sim.

Record link : Type := {
  port : string;
  is_open : bool;
  angx : float;
  angy : float;
  heading : float
}.

Definition init (p : string) : result link :=
  Ok {| port := p; is_open := true; angx := 0; angy := 0; heading := 0 |}.

Definition fetch (l : link) : result link :=
  if is_open l
  then Ok {| port := port l; is_open := true;
             angx := 1.5; angy := (-2); heading := 90 |}
  else Ok l.

Definition attitude (l : link) (key : string) : option float :=
  if (key =? "angx")%string then Some (angx l)
  else if (key =? "angy")%string then Some (angy l)
  else if (key =? "heading")%string then Some (heading l)
  else None.

Definition close (l : link) : link :=
  {| port := port l; is_open := false;
     angx := angx l; angy := angy l; heading := heading l |}.

Definition platform (t : tie_rule) : Platform :=
  {| tie := t;
     MultiWii := link;
     MultiWii_init := init;
     MultiWii_getData := fetch;
     MultiWii_attitude := attitude;
     MultiWii_closeSerial := close |}.

(** Python 2, as the repository's scripts are written. *)
Definition py2 : Platform := platform HalfAwayFromZero.

Definition boot : World (P := py2) := {| trace := []; links := [] |}.

(** The world after a default construction on /dev/ttyUSB0. *)
Definition flying : World (P := py2) :=
  snd (__init__ 0.022 None (PyInt 0) (PyInt 0) (PyInt 0)
         (Some "/dev/ttyUSB0"%string) boot).


(** An instance with roll trimmed by 150 us and pitch by -50 us. *)
Definition demo : DroneComm :=
  {| period := 0.022;
     roll_pwm_trim := 0.00015;
     pitch_pwm_trim := (-0.00005);
     yaw_pwm_trim := 0;
     board := Some 0%nat |}.

End Sim.

(** ** Order of binary64 values *)

Lemma SFcompare_swap (x y : spec_float) :
  SFcompare y x = option_map CompOpp (SFcompare x y).
Proof.
  destruct x as [sx|sx| |sx mx ex], y as [sy|sy| |sy my ey]; simpl;
    try reflexivity;
    try (destruct sx; reflexivity);
    try (destruct sy; reflexivity);
    try (destruct sx, sy; reflexivity).
  destruct sx, sy; simpl; try reflexivity;
    rewrite (Z.compare_antisym ex ey);
    destruct (ex ?= ey); simpl; try reflexivity;
    try rewrite CompOpp_involutive;
    f_equal;
    first [ exact (Pos.compare_cont_antisym my mx Eq)
          | symmetry; exact (Pos.compare_cont_antisym mx my Eq) ].
Qed.

Lemma leb_ltb_false (a b : float) :
  PrimFloat.leb a b = true -> PrimFloat.ltb b a = false.
Proof.
  rewrite leb_spec, ltb_spec. unfold SFleb, SFltb.
  rewrite (SFcompare_swap (Prim2SF a) (Prim2SF b)).
  destruct (SFcompare (Prim2SF a) (Prim2SF b)) as [[ | | ]|]; simpl; congruence.
Qed.

Lemma SFcompare_total (x y : spec_float) :
  x <> S754_nan -> y <> S754_nan -> exists c, SFcompare x y = Some c.
Proof.
  destruct x, y; simpl; intros; try congruence; eexists; reflexivity.
Qed.

Lemma not_ltb_leb (a b : float) :
  Prim2SF a <> S754_nan -> Prim2SF b <> S754_nan ->
  PrimFloat.ltb a b = false -> PrimFloat.leb b a = true.
Proof.
  rewrite leb_spec, ltb_spec. unfold SFleb, SFltb.
  rewrite (SFcompare_swap (Prim2SF a) (Prim2SF b)).
  intros Ha Hb.
  destruct (SFcompare_total _ _ Ha Hb) as [c ->].
  destruct c; simpl; congruence.
Qed.

Lemma Prim2SF_MIN_WIDTH :
  Prim2SF MIN_WIDTH = S754_finite false 5072854620270127 (-62).
Proof. vm_compute. reflexivity. Qed.

Lemma Prim2SF_MAX_WIDTH :
  Prim2SF MAX_WIDTH = S754_finite false 8762203435012037 (-62).
Proof. vm_compute. reflexivity. Qed.

Lemma compare_cont_Eq (p q : positive) :
  PosDef.Pos.compare_cont Eq p q = Pos.compare p q.
Proof. reflexivity. Qed.

Lemma ltb_MIN_MAX (w : float) :
  PrimFloat.ltb w MIN_WIDTH = true -> PrimFloat.ltb MAX_WIDTH w = false.
Proof.
  rewrite !ltb_spec. unfold SFltb.
  rewrite Prim2SF_MIN_WIDTH, Prim2SF_MAX_WIDTH.
  destruct (Prim2SF w) as [s|s| |s m e]; cbn [SFcompare]; try congruence.
  - destruct s; congruence.
  - destruct s; try congruence.
    rewrite (Z.compare_antisym e (-62)).
    destruct (e ?= -62) eqn:He; cbn [CompOpp]; try congruence.
    rewrite (compare_cont_Eq m 5072854620270127).
    rewrite (compare_cont_Eq 8762203435012037 m).
    destruct (Pos.compare m 5072854620270127) eqn:H1; try congruence.
    intros _.
    destruct (Pos.compare 8762203435012037 m) eqn:H2; try reflexivity.
    apply (proj1 (Pos.compare_lt_iff _ _)) in H1.
    apply (proj1 (Pos.compare_lt_iff _ _)) in H2.
    apply Pos2Z.pos_lt_pos in H1, H2. lia.
Qed.

Lemma validate_pwidth_in_range (w : float) :
  Prim2SF w <> S754_nan -> in_range (fst (validate_pwidth w)) = true.
Proof.
  intros Hw. unfold validate_pwidth.
  destruct (PrimFloat.ltb MAX_WIDTH w) eqn:Hmax; [reflexivity|].
  destruct (PrimFloat.ltb w MIN_WIDTH) eqn:Hmin; [reflexivity|].
  simpl. unfold in_range.
  rewrite (not_ltb_leb w MIN_WIDTH), (not_ltb_leb MAX_WIDTH w); auto;
    vm_compute; discriminate.
Qed.

Lemma validate_pwidth_nan (w : float) :
  Prim2SF w = S754_nan -> validate_pwidth w = (w, true).
Proof.
  intros Hw. unfold validate_pwidth. rewrite !ltb_spec, Hw. reflexivity.
Qed.

Lemma float_of_int_TICKS : float_of_int TICKS = Ok 4096%float.
Proof. vm_compute. reflexivity. Qed.

Lemma to_ticks_nan (t : tie_rule) (p w : float) :
  Prim2SF w = S754_nan -> exists e, to_ticks t p w = Raise e.
Proof.
  intros Hw. unfold to_ticks, truediv.
  destruct (PrimFloat.eqb p 0); [eexists; reflexivity|].
  cbn [bind_result].
  rewrite float_of_int_TICKS. cbn [bind_result].
  unfold int_round. rewrite mul_spec, div_spec, Hw.
  eexists; reflexivity.
Qed.

(** ** The pure command path *)

Lemma validate_pwidth_inside (width : float) :
  PrimFloat.leb MIN_WIDTH width = true ->
  PrimFloat.leb width MAX_WIDTH = true ->
  validate_pwidth width = (width, true).
Proof.
  intros Hlo Hhi. unfold validate_pwidth.
  rewrite (leb_ltb_false _ _ Hhi), (leb_ltb_false _ _ Hlo). reflexivity.
Qed.

Lemma validate_pwidth_above (width : float) :
  PrimFloat.ltb MAX_WIDTH width = true ->
  validate_pwidth width = (MAX_WIDTH, false).
Proof. unfold validate_pwidth. intros ->. reflexivity. Qed.

Lemma validate_pwidth_below (width : float) :
  PrimFloat.ltb width MIN_WIDTH = true ->
  validate_pwidth width = (MIN_WIDTH, false).
Proof.
  intros Hlo. unfold validate_pwidth.
  rewrite (ltb_MIN_MAX _ Hlo), Hlo. reflexivity.
Qed.

(** C4: [validate_pwidth] is the identity with flag [True] on the closed
    interval [MIN_WIDTH, MAX_WIDTH]; above [MAX_WIDTH] it returns
    [(MAX_WIDTH, False)] and below [MIN_WIDTH] it returns
    [(MIN_WIDTH, False)]. *)
Theorem validate_pwidth_clamps (width : float) :
  (PrimFloat.leb MIN_WIDTH width = true ->
   PrimFloat.leb width MAX_WIDTH = true ->
   validate_pwidth width = (width, true)) /\
  (PrimFloat.ltb MAX_WIDTH width = true ->
   validate_pwidth width = (MAX_WIDTH, false)) /\
  (PrimFloat.ltb width MIN_WIDTH = true ->
   validate_pwidth width = (MIN_WIDTH, false)).
Proof.
  split; [|split].
  - apply validate_pwidth_inside.
  - apply validate_pwidth_above.
  - apply validate_pwidth_below.
Qed.

Lemma validate_pwidth_clamps_witness :
  validate_pwidth 0.0015 = (0.0015%float, true) /\
  validate_pwidth 0.0011 = (0.0011%float, true) /\
  validate_pwidth 0.0019 = (0.0019%float, true) /\
  validate_pwidth 0.0025 = (MAX_WIDTH, false) /\
  validate_pwidth 0.0005 = (MIN_WIDTH, false).
Proof.
  split; [|split; [|split; [|split]]].
  - apply (proj1 (validate_pwidth_clamps 0.0015)); vm_compute; reflexivity.
  - apply (proj1 (validate_pwidth_clamps 0.0011)); vm_compute; reflexivity.
  - apply (proj1 (validate_pwidth_clamps 0.0019)); vm_compute; reflexivity.
  - apply (proj1 (proj2 (validate_pwidth_clamps 0.0025))); vm_compute; reflexivity.
  - apply (proj2 (proj2 (validate_pwidth_clamps 0.0005))); vm_compute; reflexivity.
Defined.

(** ** Rounding of binary64 operations

    What [to_ticks] needs from the arithmetic: dividing by a positive
    period and multiplying by 4096 keep the order of their arguments, and
    so does [int(round(.))].  [SpecFloat] defines the operations by an
    algorithm ([binary_round_aux] on a truncated mantissa and the position
    of the rest); the lemmas below show that the algorithm returns [RN] of
    the exact result, and that [RN] is monotone. *)

(** *** Digits *)

Lemma digits2_pos_size (p : positive) : digits2_pos p = Pos.size p.
Proof. induction p; cbn; congruence. Qed.

Lemma Zdigits2_log2 (p : positive) : Zdigits2 (Zpos p) = Z.log2 (Zpos p) + 1.
Proof.
  cbn [Zdigits2]. rewrite digits2_pos_size.
  destruct p; cbn [Z.log2 Pos.size]; lia.
Qed.

Lemma Zdigits2_bounds (p : positive) :
  2 ^ (Zdigits2 (Zpos p) - 1) <= Zpos p < 2 ^ Zdigits2 (Zpos p).
Proof.
  rewrite Zdigits2_log2.
  pose proof (Z.log2_spec (Zpos p) ltac:(lia)) as H.
  replace (Z.log2 (Zpos p) + 1 - 1) with (Z.log2 (Zpos p)) by lia.
  replace (Z.log2 (Zpos p) + 1) with (Z.succ (Z.log2 (Zpos p))) by lia.
  exact H.
Qed.

Lemma Zdigits2_unique (m k : Z) :
  0 < k -> 2 ^ (k - 1) <= m < 2 ^ k -> Zdigits2 m = k.
Proof.
  intros Hk Hm.
  assert (0 < m) by (assert (0 < 2 ^ (k - 1)) by (apply Z.pow_pos_nonneg; lia); lia).
  destruct m as [|p|p]; try lia.
  rewrite Zdigits2_log2.
  rewrite (Z.log2_unique (Zpos p) (k - 1)); try lia.
  replace (Z.succ (k - 1)) with k by lia. exact Hm.
Qed.

Lemma Zdigits2_nonneg (m : Z) : 0 <= Zdigits2 m.
Proof. destruct m; cbn; lia. Qed.

(** *** Shifting a mantissa right keeps the position of the fraction *)

Lemma rne_round_nearest_even (n d : Z) :
  0 < d -> round_nearest_even (n / d) (loc_of n d) = rne n d.
Proof.
  intros Hd. unfold loc_of, rne, nearest.
  destruct (Z.eqb_spec (n mod d) 0) as [E|E].
  - rewrite E. cbn [round_nearest_even].
    replace (2 * 0 ?= d) with Lt by (symmetry; apply Z.compare_lt_iff; lia).
    reflexivity.
  - cbn [round_nearest_even]. destruct (2 * (n mod d) ?= d); reflexivity.
Qed.

Lemma div_mod_2 (n d : Z) :
  0 < d ->
  n / (d * 2) = (n / d) / 2 /\
  n mod (d * 2) = d * ((n / d) mod 2) + n mod d.
Proof.
  intros Hd.
  pose proof (Z.div_mod n d ltac:(lia)) as Hn.
  pose proof (Z.mod_pos_bound n d Hd) as Hr.
  pose proof (Z.div_mod (n / d) 2 ltac:(lia)) as Hm.
  pose proof (Z.mod_pos_bound (n / d) 2 ltac:(lia)) as Hb.
  assert (Hrem : 0 <= d * ((n / d) mod 2) + n mod d < d * 2) by nia.
  assert (Heq : n = d * 2 * ((n / d) / 2) + (d * ((n / d) mod 2) + n mod d)) by nia.
  split.
  - symmetry. apply (Z.div_unique_pos n (d * 2) _ _ Hrem Heq).
  - symmetry. apply (Z.mod_unique_pos n (d * 2) _ _ Hrem Heq).
Qed.

(** One shift: the record for [n / d] becomes the record for [n / (2 d)]. *)
Lemma shr_1_spec (n d : Z) :
  0 <= n -> 0 < d ->
  shr_1 (shr_record_of_loc (n / d) (loc_of n d)) =
    shr_record_of_loc (n / (d * 2)) (loc_of n (d * 2)).
Proof.
  intros Hn Hd.
  destruct (div_mod_2 n d Hd) as [Hq Hr].
  pose proof (Z.mod_pos_bound n d Hd) as Hrd.
  pose proof (Z.div_pos n d Hn Hd) as Hm.
  unfold loc_of at 2. rewrite Hq, Hr.
  unfold loc_of.
  set (m := n / d) in *. set (r := n mod d) in *.
  destruct m as [|[p|p|]|p]; try lia.
  - (* m = 0 *)
    change (0 / 2) with 0. change (0 mod 2) with 0. rewrite Z.mul_0_r, Z.add_0_l.
    destruct (Z.eqb_spec r 0) as [E|E].
    + cbn. reflexivity.
    + replace (2 * r ?= d * 2) with Lt by (symmetry; apply Z.compare_lt_iff; lia).
      destruct (2 * r ?= d); reflexivity.
  - (* m = 2p+1 *)
    replace (Zpos p~1 / 2) with (Zpos p) by (apply (Z.div_unique _ _ _ 1); lia).
    replace (Zpos p~1 mod 2) with 1 by (apply (Z.mod_unique _ _ (Zpos p) 1); lia).
    replace (d * 1 + r =? 0) with false by (symmetry; apply Z.eqb_neq; lia).
    destruct (Z.eqb_spec r 0) as [E|E].
    + rewrite E. replace (2 * (d * 1 + 0) ?= d * 2) with Eq
        by (symmetry; apply Z.compare_eq_iff; lia).
      reflexivity.
    + replace (2 * (d * 1 + r) ?= d * 2) with Gt
        by (symmetry; apply Z.compare_gt_iff; lia).
      destruct (2 * r ?= d); reflexivity.
  - (* m = 2p *)
    replace (Zpos p~0 / 2) with (Zpos p) by (apply (Z.div_unique _ _ _ 0); lia).
    replace (Zpos p~0 mod 2) with 0 by (apply (Z.mod_unique _ _ (Zpos p) 0); lia).
    rewrite Z.mul_0_r, Z.add_0_l.
    destruct (Z.eqb_spec r 0) as [E|E].
    + reflexivity.
    + replace (2 * r ?= d * 2) with Lt by (symmetry; apply Z.compare_lt_iff; lia).
      destruct (2 * r ?= d); reflexivity.
  - (* m = 1 *)
    change (1 / 2) with 0. change (1 mod 2) with 1.
    replace (d * 1 + r =? 0) with false by (symmetry; apply Z.eqb_neq; lia).
    destruct (Z.eqb_spec r 0) as [E|E].
    + rewrite E. replace (2 * (d * 1 + 0) ?= d * 2) with Eq
        by (symmetry; apply Z.compare_eq_iff; lia).
      reflexivity.
    + replace (2 * (d * 1 + r) ?= d * 2) with Gt
        by (symmetry; apply Z.compare_gt_iff; lia).
      destruct (2 * r ?= d); reflexivity.
Qed.

Lemma pow2_xO (p : positive) : 2 ^ Zpos p~0 = 2 ^ Zpos p * 2 ^ Zpos p.
Proof.
  replace (Zpos p~0) with (Zpos p + Zpos p) by lia.
  apply Z.pow_add_r; lia.
Qed.

Lemma pow2_xI (p : positive) : 2 ^ Zpos p~1 = 2 * (2 ^ Zpos p * 2 ^ Zpos p).
Proof.
  replace (Zpos p~1) with (1 + (Zpos p + Zpos p)) by lia.
  rewrite Z.pow_add_r, Z.pow_1_r, Z.pow_add_r by lia. reflexivity.
Qed.

(** [p] shifts: the record for [n / (d * 2^p)]. *)
Lemma iter_shr_1_spec (p : positive) (n d : Z) :
  0 <= n -> 0 < d ->
  iter_pos shr_1 p (shr_record_of_loc (n / d) (loc_of n d)) =
    shr_record_of_loc (n / (d * 2 ^ Zpos p)) (loc_of n (d * 2 ^ Zpos p)).
Proof.
  intros Hn. revert d. induction p as [p IH|p IH|]; intros d Hd; cbn [iter_pos].
  - rewrite shr_1_spec by assumption.
    rewrite IH by lia.
    assert (0 < 2 ^ Zpos p) by (apply Z.pow_pos_nonneg; lia).
    rewrite IH by nia.
    replace (d * 2 * 2 ^ Zpos p * 2 ^ Zpos p) with (d * 2 ^ Zpos p~1); [reflexivity|].
    rewrite pow2_xI. ring.
  - assert (0 < 2 ^ Zpos p) by (apply Z.pow_pos_nonneg; lia).
    rewrite IH by lia. rewrite IH by nia.
    replace (d * 2 ^ Zpos p * 2 ^ Zpos p) with (d * 2 ^ Zpos p~0); [reflexivity|].
    rewrite pow2_xO. ring.
  - rewrite shr_1_spec by assumption. rewrite Z.pow_1_r. reflexivity.
Qed.

(** *** The nearest integer to a fraction *)

Lemma even_succ_false (r : Z) : Z.even r = true -> Z.even (r + 1) = true -> False.
Proof. rewrite Z.even_add. intros ->. discriminate. Qed.

(** [nearest] is within one half of the fraction; it sits half above only
    on a tie broken to even, half below only on a tie broken upwards. *)
Lemma nearest_spec (t : tie_rule) (n d : Z) :
  0 < d ->
  (2 * nearest t n d - 1) * d <= 2 * n <= (2 * nearest t n d + 1) * d /\
  (2 * n = (2 * nearest t n d + 1) * d ->
   t = HalfToEven /\ Z.even (nearest t n d) = true) /\
  (2 * n = (2 * nearest t n d - 1) * d ->
   t = HalfAwayFromZero \/ Z.even (nearest t n d) = true).
Proof.
  intros Hd. unfold nearest.
  pose proof (Z.div_mod n d ltac:(lia)) as Hn.
  pose proof (Z.mod_pos_bound n d Hd) as Hr.
  set (q := n / d) in *. set (r := n mod d) in *.
  destruct (Z.compare_spec (2 * r) d) as [E|E|E].
  - destruct t.
    + split; [split; nia|]. split; intros Htie; [exfalso; nia|].
      left. reflexivity.
    + destruct (Z.even q) eqn:Hq.
      * split; [split; nia|]. split; intros Htie; [|exfalso; nia].
        split; [reflexivity|exact Hq].
      * assert (Z.even (q + 1) = true) by (rewrite Z.even_add, Hq; reflexivity).
        split; [split; nia|]. split; intros Htie; [exfalso; nia|].
        right. assumption.
  - split; [split; nia|]. split; intros Htie; exfalso; nia.
  - split; [split; nia|]. split; intros Htie; exfalso; nia.
Qed.

(** [nearest] is monotone in the fraction, whatever the denominators. *)
Lemma nearest_mono (t : tie_rule) (n1 d1 n2 d2 : Z) :
  0 < d1 -> 0 < d2 -> n1 * d2 <= n2 * d1 -> nearest t n1 d1 <= nearest t n2 d2.
Proof.
  intros Hd1 Hd2 Hle.
  destruct (nearest_spec t n1 d1 Hd1) as ((Hlo1 & _) & _ & Hdn1).
  destruct (nearest_spec t n2 d2 Hd2) as ((_ & Hhi2) & Hup2 & _).
  set (r1 := nearest t n1 d1) in *. set (r2 := nearest t n2 d2) in *.
  destruct (Z_le_gt_dec r1 r2) as [|Hgt]; [assumption|exfalso].
  assert (H1 : (2 * r1 - 1) * (d1 * d2) <= 2 * n1 * d2) by nia.
  assert (H2 : 2 * n2 * d1 <= (2 * r2 + 1) * (d1 * d2)) by nia.
  assert (Hdd : 0 < d1 * d2) by nia.
  assert (Hr : r1 = r2 + 1) by nia.
  assert (E1 : 2 * n1 = (2 * r1 - 1) * d1) by nia.
  assert (E2 : 2 * n2 = (2 * r2 + 1) * d2) by nia.
  destruct (Hup2 E2) as [Ht Hev2].
  destruct (Hdn1 E1) as [Ht'|Hev1]; [congruence|].
  apply (even_succ_false r2); [exact Hev2|rewrite <- Hr; exact Hev1].
Qed.

Lemma nearest_nonneg (t : tie_rule) (n d : Z) : 0 <= n -> 0 < d -> 0 <= nearest t n d.
Proof.
  intros Hn Hd. destruct (nearest_spec t n d Hd) as ((_ & Hhi) & _). nia.
Qed.

Lemma nearest_le (t : tie_rule) (n d K : Z) :
  0 < d -> n <= K * d -> nearest t n d <= K.
Proof.
  intros Hd Hn. destruct (nearest_spec t n d Hd) as ((Hlo & _) & Hup & Hdn).
  destruct (Z_le_gt_dec (nearest t n d) K) as [|Hgt]; [assumption|exfalso].
  assert (E : 2 * n = (2 * nearest t n d - 1) * d) by nia.
  assert (EK : nearest t n d = K + 1) by nia.
  unfold nearest in EK, E.
  pose proof (Z.div_mod n d ltac:(lia)) as Hdm.
  pose proof (Z.mod_pos_bound n d Hd) as Hr.
  set (q := n / d) in *. set (r := n mod d) in *.
  destruct (Z.compare_spec (2 * r) d); [destruct t; [|destruct (Z.even q)]| |]; nia.
Qed.

Lemma nearest_ge (t : tie_rule) (n d K : Z) :
  0 < d -> K * d <= n -> K <= nearest t n d.
Proof.
  intros Hd Hn. unfold nearest.
  pose proof (Z.div_mod n d ltac:(lia)) as Hdm.
  pose proof (Z.mod_pos_bound n d Hd) as Hr.
  set (q := n / d) in *. set (r := n mod d) in *.
  destruct (Z.compare_spec (2 * r) d); [destruct t; [|destruct (Z.even q)]| |]; nia.
Qed.

Lemma rne_le (n d K : Z) : 0 < d -> n <= K * d -> rne n d <= K.
Proof. apply nearest_le. Qed.

Lemma rne_ge (n d K : Z) : 0 < d -> K * d <= n -> K <= rne n d.
Proof. apply nearest_ge. Qed.

Lemma rne_mono (n1 d1 n2 d2 : Z) :
  0 < d1 -> 0 < d2 -> n1 * d2 <= n2 * d1 -> rne n1 d1 <= rne n2 d2.
Proof. apply nearest_mono. Qed.

Lemma rne_scale (n d c : Z) : 0 < d -> 0 < c -> rne (n * c) (d * c) = rne n d.
Proof.
  intros Hd Hc. apply Z.le_antisymm; apply rne_mono; nia.
Qed.

Lemma rne_0 (d : Z) : 0 < d -> rne 0 d = 0.
Proof.
  intros Hd. apply Z.le_antisymm; [apply rne_le|apply rne_ge]; lia.
Qed.


(** *** [RN] is monotone *)

Lemma div_le_cross (a1 b1 a2 b2 : Z) :
  0 < b1 -> 0 < b2 -> a1 * b2 <= a2 * b1 -> a1 / b1 <= a2 / b2.
Proof.
  intros H1 H2 Hle.
  apply Z.div_le_lower_bound; [assumption|].
  pose proof (Z.mul_div_le a1 b1 H1).
  assert (b1 * (b2 * (a1 / b1)) <= b1 * a2) by nia.
  nia.
Qed.

Lemma grid_nonneg (a b : Z) : 0 <= grid a b.
Proof. unfold grid. lia. Qed.

Lemma grid_mono (a1 b1 a2 b2 : Z) :
  0 < b1 -> 0 < b2 -> a1 * b2 <= a2 * b1 -> grid a1 b1 <= grid a2 b2.
Proof.
  intros H1 H2 Hle. unfold grid.
  pose proof (Z.log2_le_mono _ _ (div_le_cross _ _ _ _ H1 H2 Hle)). lia.
Qed.

(** A fraction lies below the end of its binade ... *)
Lemma grid_upper (a b : Z) :
  0 <= a -> 0 < b -> a < 2 ^ (grid a b + 53) * b.
Proof.
  intros Ha Hb.
  assert (Hu : 0 <= a / b) by (apply Z.div_pos; lia).
  assert (Hlt : a / b < 2 ^ (grid a b + 53)).
  { destruct (Z.eq_dec (a / b) 0) as [E|E].
    - rewrite E. apply Z.pow_pos_nonneg; [lia|]. pose proof (grid_nonneg a b). lia.
    - pose proof (Z.log2_spec (a / b) ltac:(lia)) as [_ Hs].
      eapply Z.lt_le_trans; [exact Hs|].
      apply Z.pow_le_mono_r; [lia|]. unfold grid. lia. }
  pose proof (Z.div_mod a b ltac:(lia)).
  pose proof (Z.mod_pos_bound a b Hb). nia.
Qed.

(** ... and, above the subnormal range, at or after its start. *)
Lemma grid_lower (a b : Z) :
  0 <= a -> 0 < b -> 0 < grid a b -> 2 ^ (grid a b + 52) * b <= a.
Proof.
  intros Ha Hb Hg.
  assert (Hlog : grid a b = Z.log2 (a / b) + 1 - 53) by (unfold grid in *; lia).
  assert (Hu : 0 < a / b).
  { destruct (Z.le_gt_cases (a / b) 0) as [Hle|]; [|assumption].
    pose proof (Z.log2_nonpos _ Hle). lia. }
  pose proof (Z.log2_spec (a / b) Hu) as [Hs _].
  replace (grid a b + 52) with (Z.log2 (a / b)) by lia.
  pose proof (Z.mul_div_le a b Hb). nia.
Qed.

(** Two fractions in one binade are rounded on one grid; in different
    binades the start of the upper binade, which is on both grids, lies
    between the results. *)
Lemma RN_mono (a1 b1 a2 b2 : Z) :
  0 <= a1 -> 0 < b1 -> 0 <= a2 -> 0 < b2 ->
  a1 * b2 <= a2 * b1 -> RN a1 b1 <= RN a2 b2.
Proof.
  intros Ha1 Hb1 Ha2 Hb2 Hle. unfold RN.
  pose proof (grid_mono _ _ _ _ Hb1 Hb2 Hle) as Hg.
  pose proof (grid_nonneg a1 b1) as Hg1.
  set (g1 := grid a1 b1) in *. set (g2 := grid a2 b2) in *.
  assert (Hp1 : 0 < 2 ^ g1) by (apply Z.pow_pos_nonneg; lia).
  assert (Hp2 : 0 < 2 ^ g2) by (apply Z.pow_pos_nonneg; lia).
  destruct (Z.eq_dec g1 g2) as [E|E].
  - rewrite <- E. apply Z.mul_le_mono_nonneg_r; [lia|].
    apply rne_mono; nia.
  - (* the start of the binade of the second separates the results *)
    assert (Hup : rne a1 (b1 * 2 ^ g1) <= 2 ^ 53).
    { apply rne_le; [nia|].
      pose proof (grid_upper a1 b1 Ha1 Hb1) as H. fold g1 in H.
      rewrite Z.pow_add_r in H by lia. nia. }
    assert (Hlo : 2 ^ 52 <= rne a2 (b2 * 2 ^ g2)).
    { apply rne_ge; [nia|].
      pose proof (grid_lower a2 b2 Ha2 Hb2 ltac:(fold g2; lia)) as H. fold g2 in H.
      rewrite Z.pow_add_r in H by lia. nia. }
    assert (Hstep : 2 ^ 53 * 2 ^ g1 <= 2 ^ 52 * 2 ^ g2).
    { rewrite <- !Z.pow_add_r by lia. apply Z.pow_le_mono_r; lia. }
    nia.
Qed.

Lemma RN_0 (b : Z) : 0 < b -> RN 0 b = 0.
Proof.
  intros Hb. unfold RN, grid. rewrite Z.div_0_l by lia. cbn [Z.log2].
  replace (Z.max 0 (0 + 1 - 53)) with 0 by lia.
  rewrite Z.pow_0_r, rne_0 by lia. reflexivity.
Qed.

(** *** [binary_round_aux] computes [RN] *)


Lemma fexp64_eq (x : Z) : fexp64 x = Z.max (x - 53) (-1074).
Proof. reflexivity. Qed.

Lemma pow2_pos (x : Z) : 0 <= x -> 0 < 2 ^ x.
Proof. intros. apply Z.pow_pos_nonneg; lia. Qed.

Lemma shr_m_of_loc (m : Z) (l : location) : shr_m (shr_record_of_loc m l) = m.
Proof. destruct l as [|[]]; reflexivity. Qed.

Lemma loc_of_shr_record_of_loc (m : Z) (l : location) :
  loc_of_shr_record (shr_record_of_loc m l) = l.
Proof. destruct l as [|[]]; reflexivity. Qed.

Lemma shr_fexp_spec (n d e : Z) :
  0 <= n -> 0 < d ->
  e <= fexp64 (Zdigits2 (n / d) + e) ->
  let k := fexp64 (Zdigits2 (n / d) + e) - e in
  shr_fexp prec emax (n / d) e (loc_of n d) =
    (shr_record_of_loc (n / (d * 2 ^ k)) (loc_of n (d * 2 ^ k)), e + k).
Proof.
  intros Hn Hd Hk k. unfold shr_fexp, shr.
  change (fexp prec emax (Zdigits2 (n / d) + e) - e) with k.
  assert (Hk0 : 0 <= k) by (unfold k; lia).
  destruct k as [|p|p]; try lia.
  - rewrite Z.pow_0_r, Z.mul_1_r, Z.add_0_r. reflexivity.
  - rewrite iter_shr_1_spec by assumption. reflexivity.
Qed.


Lemma units_pos (n d e : Z) :
  0 <= n -> 0 < d -> 0 <= fst (units n d e) /\ 0 < snd (units n d e).
Proof.
  intros Hn Hd. unfold units. destruct (Z.leb_spec (-1074) e); cbn [fst snd].
  - pose proof (pow2_pos (e + 1074) ltac:(lia)). nia.
  - pose proof (pow2_pos (-1074 - e) ltac:(lia)). nia.
Qed.

Lemma units_rne (n d e E : Z) :
  0 <= n -> 0 < d -> e <= E -> -1074 <= E ->
  rne (fst (units n d e)) (snd (units n d e) * 2 ^ (E + 1074)) = rne n (d * 2 ^ (E - e)).
Proof.
  intros Hn Hd HE Hmin. unfold units.
  destruct (Z.leb_spec (-1074) e); cbn [fst snd].
  - replace (E + 1074) with ((E - e) + (e + 1074)) by lia.
    rewrite (Z.pow_add_r 2 (E - e) (e + 1074)) by lia.
    rewrite Z.mul_assoc. apply rne_scale.
    + pose proof (pow2_pos (E - e) ltac:(lia)). nia.
    + apply pow2_pos. lia.
  - rewrite <- Z.mul_assoc, <- (Z.pow_add_r 2 (-1074 - e) (E + 1074)) by lia.
    replace (-1074 - e + (E + 1074)) with (E - e) by lia. reflexivity.
Qed.

Lemma units_floor_0 (n d e j : Z) :
  0 <= n -> 0 < d -> n < 2 ^ j * d -> 0 <= j -> j + e + 1074 <= 0 ->
  fst (units n d e) / snd (units n d e) = 0.
Proof.
  intros Hn Hd Hlt Hj Hje. unfold units.
  destruct (Z.leb_spec (-1074) e); cbn [fst snd].
  - assert (Ej : j = 0) by lia. assert (Ee : e = -1074) by lia. subst j e.
    rewrite Z.pow_0_r in Hlt. change (-1074 + 1074) with 0. rewrite Z.pow_0_r.
    apply Z.div_small. lia.
  - apply Z.div_small. split; [assumption|].
    assert (2 ^ j <= 2 ^ (-1074 - e)) by (apply Z.pow_le_mono_r; lia).
    nia.
Qed.

Lemma units_floor_bounds (n d e j : Z) :
  0 <= n -> 0 < d -> 2 ^ (j - 1) * d <= n < 2 ^ j * d -> 0 < j ->
  0 < j + e + 1074 ->
  2 ^ (j + e + 1074 - 1) <= fst (units n d e) / snd (units n d e) < 2 ^ (j + e + 1074).
Proof.
  intros Hn Hd [Hlo Hhi] Hj Hje. unfold units.
  destruct (Z.leb_spec (-1074) e); cbn [fst snd].
  - pose proof (pow2_pos (e + 1074) ltac:(lia)) as Hc.
    split.
    + apply Z.div_le_lower_bound; [assumption|].
      replace (j + e + 1074 - 1) with ((j - 1) + (e + 1074)) by lia.
      rewrite (Z.pow_add_r 2 (j - 1) (e + 1074)) by lia. nia.
    + apply Z.div_lt_upper_bound; [assumption|].
      replace (j + e + 1074) with (j + (e + 1074)) by lia.
      rewrite (Z.pow_add_r 2 j (e + 1074)) by lia. nia.
  - pose proof (pow2_pos (-1074 - e) ltac:(lia)) as Hc.
    split.
    + apply Z.div_le_lower_bound; [nia|].
      replace (j - 1) with ((j + e + 1074 - 1) + (-1074 - e)) in Hlo by lia.
      rewrite (Z.pow_add_r 2 (j + e + 1074 - 1) (-1074 - e)) in Hlo by lia. nia.
    + apply Z.div_lt_upper_bound; [nia|].
      replace (2 ^ j) with (2 ^ ((j + e + 1074) + (-1074 - e))) in Hhi by (f_equal; lia).
      rewrite (Z.pow_add_r 2 (j + e + 1074) (-1074 - e)) in Hhi by lia. nia.
Qed.

(** The digits of the floor bracket the fraction. *)
Lemma floor_digits_bounds (n d : Z) :
  0 <= n -> 0 < d ->
  n < 2 ^ Zdigits2 (n / d) * d /\
  (0 < n / d -> 2 ^ (Zdigits2 (n / d) - 1) * d <= n).
Proof.
  intros Hn Hd.
  pose proof (Z.div_mod n d ltac:(lia)) as Hdm.
  pose proof (Z.mod_pos_bound n d Hd) as Hr.
  pose proof (Z.div_pos n d Hn Hd) as Hm.
  destruct (n / d) as [|p|p] eqn:Em; try lia.
  - cbn [Zdigits2]. rewrite Z.pow_0_r. split; lia.
  - pose proof (Zdigits2_bounds p) as [Hlo Hhi]. split; [nia|]. intros _. nia.
Qed.

(** The exponent [binary_round_aux] rounds at is the grid of the value. *)
Lemma units_grid (n d e : Z) :
  0 <= n -> 0 < d ->
  e <= fexp64 (Zdigits2 (n / d) + e) ->
  grid (fst (units n d e)) (snd (units n d e)) =
    fexp64 (Zdigits2 (n / d) + e) + 1074.
Proof.
  intros Hn Hd Hk. rewrite fexp64_eq in *.
  destruct (floor_digits_bounds n d Hn Hd) as [Hhi Hlo].
  pose proof (Zdigits2_nonneg (n / d)) as Hdig.
  pose proof (Z.div_pos n d Hn Hd) as Hm.
  set (dm := Zdigits2 (n / d)) in *.
  unfold grid.
  destruct (Z_le_gt_dec (dm + e + 1074) 0) as [Hj|Hj].
  - rewrite (units_floor_0 n d e dm) by lia. cbn [Z.log2]. lia.
  - assert (Hpos : 0 < n / d).
    { destruct (Z.eq_dec (n / d) 0) as [E0|]; [|lia].
      unfold dm in *. rewrite E0 in *. cbn [Zdigits2] in *. lia. }
    assert (0 < dm).
    { unfold dm. destruct (n / d); cbn; lia. }
    pose proof (units_floor_bounds n d e dm Hn Hd (conj (Hlo Hpos) Hhi) ltac:(lia) ltac:(lia))
      as Hb.
    rewrite (Z.log2_unique _ (dm + e + 1074 - 1)); [lia|lia|].
    replace (Z.succ (dm + e + 1074 - 1)) with (dm + e + 1074) by lia. exact Hb.
Qed.

Lemma Zdigits2_le_53 (N : Z) : 0 <= N -> N < 2 ^ 53 -> Zdigits2 N <= 53.
Proof.
  intros H0 H1. destruct N as [|p|p]; try lia; [cbn; lia|].
  pose proof (Zdigits2_bounds p) as [Hlo _].
  destruct (Z_le_gt_dec (Zdigits2 (Zpos p)) 53) as [|Hgt]; [assumption|exfalso].
  assert (2 ^ 53 <= 2 ^ (Zdigits2 (Zpos p) - 1)) by (apply Z.pow_le_mono_r; lia).
  lia.
Qed.

(** The second normalisation of [binary_round_aux]: a rounded mantissa
    that reached 2^53 is halved, any other is kept. *)
Lemma renormalise (N E : Z) :
  0 <= N <= 2 ^ 53 -> -1074 <= E -> (N < 2 ^ 52 -> E = -1074) ->
  exists k2,
    0 <= k2 /\
    fexp64 (Zdigits2 N + E) - E = k2 /\
    (N / (1 * 2 ^ k2)) * 2 ^ (E + k2 + 1074) = N * 2 ^ (E + 1074).
Proof.
  intros [H0 H53] HE Hsub. rewrite fexp64_eq.
  destruct (Z.eq_dec N (2 ^ 53)) as [Etop|Ntop].
  - exists 1. subst N.
    replace (Zdigits2 (2 ^ 53)) with 54 by reflexivity.
    split; [lia|]. split; [lia|].
    replace (E + 1 + 1074) with (1 + (E + 1074)) by lia.
    rewrite (Z.pow_add_r 2 1 (E + 1074)) by lia.
    change (2 ^ 53 / (1 * 2 ^ 1)) with (2 ^ 52). change (2 ^ 1) with 2.
    change (2 ^ 53) with (2 ^ 52 * 2). ring.
  - exists 0.
    pose proof (Zdigits2_le_53 N H0 ltac:(lia)) as Hd.
    assert (Hk : Z.max (Zdigits2 N + E - 53) (-1074) - E = 0).
    { destruct (Z_lt_ge_dec N (2 ^ 52)) as [Hlt|Hge].
      - rewrite (Hsub Hlt). lia.
      - assert (Hdig : Zdigits2 N = 53) by (apply Zdigits2_unique; lia).
        rewrite Hdig. lia. }
    split; [lia|]. split; [exact Hk|].
    rewrite Z.pow_0_r, Z.mul_1_r, Z.div_1_r, Z.add_0_r. reflexivity.
Qed.

Lemma loc_of_1 (N : Z) : loc_of N 1 = loc_Exact.
Proof. unfold loc_of. rewrite Z.mod_1_r. reflexivity. Qed.

(** Given the floor of [n / d] and the position of [n / d] above it, at an
    exponent [e] that leaves enough digits, [binary_round_aux] returns
    [RN] of [n / d * 2^e] (or overflows to an infinity), with the sign it
    was given; it never returns NaN. *)
Lemma binary_round_aux_RN (sx : bool) (n d e : Z) :
  0 <= n -> 0 < d ->
  e <= fexp64 (Zdigits2 (n / d) + e) ->
  match binary_round_aux prec emax sx (n / d) e (loc_of n d) with
  | S754_zero s => s = sx /\ RN (fst (units n d e)) (snd (units n d e)) = 0
  | S754_finite s m e' =>
      s = sx /\ -1074 <= e' /\
      Zpos m * 2 ^ (e' + 1074) = RN (fst (units n d e)) (snd (units n d e))
  | S754_infinity s => s = sx
  | S754_nan => False
  end.
Proof.
  intros Hn Hd Hk.
  (* the value to round, and the exponent it is rounded at *)
  assert (HRN : RN (fst (units n d e)) (snd (units n d e)) =
                rne n (d * 2 ^ (fexp64 (Zdigits2 (n / d) + e) - e)) *
                2 ^ (fexp64 (Zdigits2 (n / d) + e) + 1074)).
  { unfold RN. rewrite (units_grid n d e Hn Hd Hk).
    rewrite (units_rne n d e _ Hn Hd Hk) by (rewrite fexp64_eq; lia).
    reflexivity. }
  rewrite HRN. clear HRN.
  unfold binary_round_aux.
  pose proof (shr_fexp_spec n d e Hn Hd Hk) as Hshr. cbv zeta in Hshr.
  rewrite Hshr. clear Hshr.
  rewrite shr_m_of_loc, loc_of_shr_record_of_loc.
  destruct (floor_digits_bounds n d Hn Hd) as [Hhi Hlo].
  pose proof (Zdigits2_nonneg (n / d)) as Hdig.
  pose proof (Z.div_pos n d Hn Hd) as Hm.
  assert (HE : e + (fexp64 (Zdigits2 (n / d) + e) - e) = fexp64 (Zdigits2 (n / d) + e))
    by lia.
  rewrite HE. clear HE.
  set (dm := Zdigits2 (n / d)) in *.
  set (E := fexp64 (dm + e)) in *.
  assert (HEmin : -1074 <= E) by (unfold E; rewrite fexp64_eq; lia).
  assert (Hpk : 0 < 2 ^ (E - e)) by (apply pow2_pos; lia).
  assert (Hdk : 0 < d * 2 ^ (E - e)) by nia.
  rewrite (rne_round_nearest_even n _ Hdk).
  set (N := rne n (d * 2 ^ (E - e))) in *.
  assert (HN0 : 0 <= N) by (apply rne_ge; lia).
  assert (HN53 : N <= 2 ^ 53).
  { apply rne_le; [assumption|].
    assert (2 ^ dm <= 2 ^ 53 * 2 ^ (E - e)).
    { rewrite <- Z.pow_add_r by lia. apply Z.pow_le_mono_r; [lia|].
      unfold E. rewrite fexp64_eq. lia. }
    nia. }
  assert (HNsub : N < 2 ^ 52 -> E = -1074).
  { intros Hlt. destruct (Z.eq_dec E (-1074)) as [|Hne]; [assumption|exfalso].
    assert (HEn : E = dm + e - 53) by (unfold E in *; rewrite fexp64_eq in *; lia).
    assert (Hdm : 0 < dm) by lia.
    assert (Hpos : 0 < n / d).
    { destruct (n / d) eqn:Em; try lia. unfold dm in Hdm. cbn in Hdm. lia. }
    specialize (Hlo Hpos).
    assert (2 ^ 52 <= N); [|lia].
    apply rne_ge; [assumption|].
    replace (dm - 1) with (52 + (E - e)) in Hlo by lia.
    rewrite (Z.pow_add_r 2 52 (E - e)) in Hlo by lia. nia. }
  destruct (renormalise N E (conj HN0 HN53) HEmin HNsub) as (k2 & Hk2 & Hfk & Hval).
  pose proof (shr_fexp_spec N 1 E HN0 ltac:(lia)) as Hshr. cbv zeta in Hshr.
  rewrite Z.div_1_r, loc_of_1, Hfk in Hshr.
  rewrite Hshr by lia. clear Hshr.
  rewrite shr_m_of_loc. rewrite <- Hval.
  assert (Hp2 : 0 < 2 ^ (E + k2 + 1074)) by (apply pow2_pos; lia).
  assert (HN' : 0 <= N / (1 * 2 ^ k2)).
  { apply Z.div_pos; [assumption|]. pose proof (pow2_pos k2 Hk2). lia. }
  destruct (N / (1 * 2 ^ k2)) as [|m'|m'] eqn:Em'; try lia.
  - split; [reflexivity|lia].
  - destruct (E + k2 <=? emax - prec); [|reflexivity].
    split; [reflexivity|]. split; [lia|reflexivity].
Qed.

(** *** Division and multiplication round correctly *)

Lemma new_location_spec (d r : Z) :
  0 < d -> 0 <= r < d ->
  new_location d r = if r =? 0 then loc_Exact else loc_Inexact (2 * r ?= d).
Proof.
  intros Hd Hr. unfold new_location, new_location_even, new_location_odd.
  destruct (Z.even d) eqn:Hev; [reflexivity|].
  destruct (Z.eqb_spec r 0) as [E|E]; [reflexivity|]. f_equal.
  assert (Hodd : Z.odd d = true) by (rewrite <- Z.negb_even, Hev; reflexivity).
  apply Z.odd_spec in Hodd. destruct Hodd as [c Hc].
  destruct (Z.compare_spec (2 * r + 1) d), (Z.compare_spec (2 * r) d);
    try reflexivity; lia.
Qed.

Lemma valid_finite (s : bool) (m : positive) (e : Z) :
  valid_binary (S754_finite s m e) = true ->
  -1074 <= e /\ Zdigits2 (Zpos m) <= 53 /\ (-1074 < e -> Zdigits2 (Zpos m) = 53).
Proof.
  cbn [valid_binary]. unfold bounded, canonical_mantissa.
  rewrite andb_true_iff, Z.eqb_eq. intros [Hc _].
  change (fexp prec emax) with fexp64 in Hc. rewrite fexp64_eq in Hc.
  cbn [Zdigits2]. lia.
Qed.

Lemma Zdigits2_ge (q k : Z) : 0 < k -> 2 ^ (k - 1) <= q -> k <= Zdigits2 q.
Proof.
  intros Hk Hq.
  assert (0 < q) by (pose proof (pow2_pos (k - 1) ltac:(lia)); lia).
  destruct q as [|p|p]; try lia.
  pose proof (Zdigits2_bounds p) as [_ Hhi].
  destruct (Z_le_gt_dec k (Zdigits2 (Zpos p))) as [|Hgt]; [assumption|exfalso].
  assert (2 ^ Zdigits2 (Zpos p) <= 2 ^ (k - 1)).
  { apply Z.pow_le_mono_r; [lia|]. lia. }
  lia.
Qed.

(** The quotient mantissa that [SFdiv_core_binary] hands to the rounding
    has enough digits for its exponent. *)
Lemma div_core_precision (m1 m2 : positive) (e1 e2 : Z) :
  Zdigits2 (Zpos m1) <= 53 ->
  let e' := Z.min (fexp64 (Zdigits2 (Zpos m1) + e1 - (Zdigits2 (Zpos m2) + e2))) (e1 - e2) in
  let s := e1 - e2 - e' in
  0 <= s /\
  e' <= fexp64 (Zdigits2 (Zpos m1 * 2 ^ s / Zpos m2) + e').
Proof.
  intros Hd1 e' s.
  pose proof (Zdigits2_bounds m1) as [Hlo1 _].
  pose proof (Zdigits2_bounds m2) as [_ Hhi2].
  assert (Hd1' : 0 < Zdigits2 (Zpos m1)) by (cbn; lia).
  assert (Hd2' : 0 < Zdigits2 (Zpos m2)) by (cbn; lia).
  set (d1 := Zdigits2 (Zpos m1)) in *. set (d2 := Zdigits2 (Zpos m2)) in *.
  assert (Hs : 0 <= s) by (unfold s, e'; lia).
  split; [exact Hs|].
  destruct (Z_le_gt_dec e' (-1074)) as [Hle|Hgt].
  - rewrite fexp64_eq. lia.
  - assert (He' : e' = d1 + e1 - (d2 + e2) - 53).
    { unfold e' in *. rewrite fexp64_eq in *. lia. }
    assert (Es : s = 53 - d1 + d2) by (unfold s; lia).
    assert (Hq : 2 ^ 52 <= Zpos m1 * 2 ^ s / Zpos m2).
    { apply Z.div_le_lower_bound; [lia|].
      assert (Hpow : 2 ^ (d1 - 1) * 2 ^ s = 2 ^ 52 * 2 ^ d2).
      { rewrite <- !Z.pow_add_r by lia. f_equal. lia. }
      pose proof (pow2_pos s Hs). nia. }
    pose proof (Zdigits2_ge _ 53 ltac:(lia) Hq).
    rewrite fexp64_eq. lia.
Qed.

Lemma shiftl_or_0 (m s : Z) :
  0 <= s ->
  match s with
  | Zpos _ => Z.shiftl m s
  | Z0 => m
  | Zneg _ => 0
  end = m * 2 ^ s.
Proof.
  intros Hs. destruct s as [|p|p]; try lia.
  apply Z.shiftl_mul_pow2. lia.
Qed.

Lemma div_eucl_div_mod (a b : Z) : Z.div_eucl a b = (a / b, a mod b).
Proof. unfold Z.div, Z.modulo. destruct (Z.div_eucl a b). reflexivity. Qed.

Lemma mag_of_nonneg (x : spec_float) : 0 <= mag_of x.
Proof.
  destruct x; cbn [mag_of]; lia.
Qed.

Lemma RN_nonneg (a b : Z) : 0 <= a -> 0 < b -> 0 <= RN a b.
Proof.
  intros Ha Hb. unfold RN. pose proof (grid_nonneg a b).
  pose proof (pow2_pos (grid a b) ltac:(lia)).
  assert (0 <= rne a (b * 2 ^ grid a b)) by (apply rne_ge; nia).
  nia.
Qed.

(** Division of a finite value by a finite value: never NaN, and a
    numeric result is the quotient rounded. *)
Lemma SF64div_finite (sx sy : bool) (mx my : positive) (ex ey : Z) :
  Zdigits2 (Zpos mx) <= 53 -> -1074 <= ex -> -1074 <= ey ->
  let x := S754_finite sx mx ex in
  let y := S754_finite sy my ey in
  SF64div x y <> S754_nan /\
  neg_of (SF64div x y) = xorb sx sy /\
  on_grid (SF64div x y) /\
  (is_number (SF64div x y) = true ->
   exists a b, 0 <= a /\ 0 < b /\
     a * mag_of y = mag_of x * 2 ^ 1074 * b /\
     mag_of (SF64div x y) = RN a b).
Proof.
  intros Hdx Hex Hey x y. unfold x, y, SF64div, SFdiv, SFdiv_core_binary.
  destruct (div_core_precision mx my ex ey Hdx) as [Hs Hprec].
  cbv zeta in Hs, Hprec. change (fexp prec emax) with fexp64.
  set (e' := Z.min (fexp64 (Zdigits2 (Zpos mx) + ex - (Zdigits2 (Zpos my) + ey))) (ex - ey)) in *.
  set (s := ex - ey - e') in *.
  rewrite (shiftl_or_0 (Zpos mx) s Hs).
  set (n := Zpos mx * 2 ^ s) in *.
  assert (Hn : 0 <= n) by (pose proof (pow2_pos s Hs); unfold n; nia).
  rewrite div_eucl_div_mod.
  rewrite (new_location_spec (Zpos my) (n mod Zpos my))
    by (try lia; apply Z.mod_pos_bound; lia).
  change (if n mod Zpos my =? 0 then loc_Exact
          else loc_Inexact (2 * (n mod Zpos my) ?= Zpos my)) with (loc_of n (Zpos my)).
  pose proof (binary_round_aux_RN (xorb sx sy) n (Zpos my) e' Hn ltac:(lia) Hprec) as HR.
  destruct (units_pos n (Zpos my) e' Hn ltac:(lia)) as [Ha Hb].
  assert (Hcross : fst (units n (Zpos my) e') * (Zpos my * 2 ^ (ey + 1074)) =
                   Zpos mx * 2 ^ (ex + 1074) * 2 ^ 1074 * snd (units n (Zpos my) e')).
  { unfold units, n. destruct (Z.leb_spec (-1074) e'); cbn [fst snd].
    - assert (Hp : 2 ^ s * 2 ^ (e' + 1074) * 2 ^ (ey + 1074) = 2 ^ (ex + 1074) * 2 ^ 1074).
      { rewrite <- !Z.pow_add_r by lia. f_equal. unfold s. lia. }
      nia.
    - assert (Hp : 2 ^ s * 2 ^ (ey + 1074) = 2 ^ (ex + 1074) * 2 ^ 1074 * 2 ^ (-1074 - e')).
      { rewrite <- !Z.pow_add_r by lia. f_equal. unfold s. lia. }
      nia. }
  destruct (binary_round_aux prec emax (xorb sx sy) (n / Zpos my) e' (loc_of n (Zpos my)))
    as [s0|s0| |s0 m0 e0]; cbn [neg_of on_grid is_number mag_of].
  - destruct HR as [-> HR]. split; [discriminate|]. split; [reflexivity|].
    split; [exact I|]. intros _.
    exists (fst (units n (Zpos my) e')), (snd (units n (Zpos my) e')).
    split; [exact Ha|]. split; [exact Hb|]. split; [exact Hcross|].
    symmetry. exact HR.
  - split; [discriminate|]. split; [exact HR|]. split; [exact I|]. discriminate.
  - contradiction.
  - destruct HR as (-> & He0 & HR). split; [discriminate|]. split; [reflexivity|].
    split; [exact He0|]. intros _.
    exists (fst (units n (Zpos my) e')), (snd (units n (Zpos my) e')).
    split; [exact Ha|]. split; [exact Hb|]. split; [exact Hcross|]. exact HR.
Qed.

Lemma Prim2SF_4096 : Prim2SF 4096 = S754_finite false 4503599627370496 (-40).
Proof. vm_compute. reflexivity. Qed.

Lemma two_52 : Zpos 4503599627370496 = 2 ^ 52.
Proof. reflexivity. Qed.

(** Multiplication of a finite value by 4096. *)
Lemma SF64mul_4096 (sx : bool) (mx : positive) (ex : Z) :
  -1074 <= ex ->
  let x := S754_finite sx mx ex in
  let r := SF64mul x (S754_finite false 4503599627370496 (-40)) in
  r <> S754_nan /\
  neg_of r = sx /\
  on_grid r /\
  (is_number r = true ->
   exists a b, 0 <= a /\ 0 < b /\
     a * 1 = mag_of x * 4096 * b /\
     mag_of r = RN a b).
Proof.
  intros Hex x r. unfold r, x, SF64mul, SFmul. clear r x.
  rewrite xorb_false_r, Pos2Z.inj_mul, two_52.
  set (n := Zpos mx * 2 ^ 52).
  assert (Hn : 0 <= n) by (unfold n; lia).
  assert (Hn52 : 2 ^ 52 <= n) by (unfold n; lia).
  assert (Hprec : ex + -40 <= fexp64 (Zdigits2 (n / 1) + (ex + -40))).
  { rewrite Z.div_1_r, fexp64_eq.
    pose proof (Zdigits2_ge n 53 ltac:(lia) Hn52). lia. }
  pose proof (binary_round_aux_RN sx n 1 (ex + -40) Hn ltac:(lia) Hprec) as HR.
  rewrite Z.div_1_r, loc_of_1 in HR.
  destruct (units_pos n 1 (ex + -40) Hn ltac:(lia)) as [Ha Hb].
  assert (Hcross : fst (units n 1 (ex + -40)) * 1 =
                   Zpos mx * 2 ^ (ex + 1074) * 4096 * snd (units n 1 (ex + -40))).
  { unfold units, n. destruct (Z.leb_spec (-1074) (ex + -40)); cbn [fst snd].
    - assert (Hp : 2 ^ 52 * 2 ^ (ex + -40 + 1074) = 2 ^ (ex + 1074) * 2 ^ 12).
      { rewrite <- !Z.pow_add_r by lia. f_equal. lia. }
      change 4096 with (2 ^ 12). nia.
    - assert (Hp : 2 ^ 52 = 2 ^ (ex + 1074) * 2 ^ 12 * 2 ^ (-1074 - (ex + -40))).
      { rewrite <- !Z.pow_add_r by lia. f_equal. lia. }
      change 4096 with (2 ^ 12). nia. }
  destruct (binary_round_aux prec emax sx n (ex + -40) loc_Exact)
    as [s0|s0| |s0 m0 e0]; cbn [neg_of on_grid is_number mag_of].
  - destruct HR as [-> HR]. split; [discriminate|]. split; [reflexivity|].
    split; [exact I|]. intros _.
    exists (fst (units n 1 (ex + -40))), (snd (units n 1 (ex + -40))).
    split; [exact Ha|]. split; [exact Hb|]. split; [exact Hcross|].
    symmetry. exact HR.
  - split; [discriminate|]. split; [exact HR|]. split; [exact I|]. discriminate.
  - contradiction.
  - destruct HR as (-> & He0 & HR). split; [discriminate|]. split; [reflexivity|].
    split; [exact He0|]. intros _.
    exists (fst (units n 1 (ex + -40))), (snd (units n 1 (ex + -40))).
    split; [exact Ha|]. split; [exact Hb|]. split; [exact Hcross|]. exact HR.
Qed.

(** A number divided by a positive finite value, when the result is a
    number. *)
Lemma div_stage (x : spec_float) (mp : positive) (ep : Z) :
  valid_binary x = true -> -1074 <= ep ->
  is_number (SF64div x (S754_finite false mp ep)) = true ->
  is_number x = true /\
  on_grid (SF64div x (S754_finite false mp ep)) /\
  rounds_to (2 ^ 1074) (mag_of (S754_finite false mp ep)) x
    (SF64div x (S754_finite false mp ep)).
Proof.
  intros Hv Hep Hnum. destruct x as [s|s| |s m e]; try discriminate.
  - split; [reflexivity|]. split; [exact I|]. split; [cbn; apply xorb_false_r|].
    exists 0, 1. cbn [mag_of SF64div SFdiv]. rewrite RN_0 by lia. lia.
  - destruct (valid_finite s m e Hv) as (He & Hd & _).
    destruct (SF64div_finite s false m mp e ep Hd He Hep) as (_ & Hneg & Hgrid & Hrn).
    cbv zeta in *. split; [reflexivity|]. split; [exact Hgrid|]. split.
    + rewrite Hneg. apply xorb_false_r.
    + exact (Hrn Hnum).
Qed.

Lemma mul_stage (q : spec_float) :
  on_grid q ->
  is_number (SF64mul q (S754_finite false 4503599627370496 (-40))) = true ->
  is_number q = true /\
  on_grid (SF64mul q (S754_finite false 4503599627370496 (-40))) /\
  rounds_to 4096 1 q (SF64mul q (S754_finite false 4503599627370496 (-40))).
Proof.
  intros Hg Hnum. destruct q as [s|s| |s m e]; try discriminate.
  - split; [reflexivity|]. split; [exact I|]. split; [cbn; apply xorb_false_r|].
    exists 0, 1. cbn [mag_of SF64mul SFmul]. rewrite RN_0 by lia. lia.
  - destruct (SF64mul_4096 s m e Hg) as (_ & Hneg & Hgrid & Hrn).
    cbv zeta in *. split; [reflexivity|]. split; [exact Hgrid|]. split.
    + exact Hneg.
    + exact (Hrn Hnum).
Qed.

Lemma cross_le (c d a1 b1 a2 b2 m1 m2 : Z) :
  0 < c -> 0 < d -> 0 < b1 -> 0 < b2 ->
  a1 * d = m1 * c * b1 -> a2 * d = m2 * c * b2 ->
  m1 <= m2 -> a1 * b2 <= a2 * b1.
Proof.
  intros Hc Hd Hb1 Hb2 H1 H2 Hle.
  assert (E1 : a1 * b2 * d = m1 * (c * b1 * b2)) by (replace (a1 * b2 * d) with (a1 * d * b2) by ring; rewrite H1; ring).
  assert (E2 : a2 * b1 * d = m2 * (c * b1 * b2)) by (replace (a2 * b1 * d) with (a2 * d * b1) by ring; rewrite H2; ring).
  assert (Hk : 0 < c * b1 * b2) by nia.
  assert (a1 * b2 * d <= a2 * b1 * d) by (rewrite E1, E2; apply Z.mul_le_mono_nonneg_r; lia).
  nia.
Qed.

(** An operation that rounds [x * c / d] keeps the order of its
    arguments. *)
Lemma rounds_to_mono (c d : Z) (x1 x2 r1 r2 : spec_float) :
  0 < c -> 0 < d ->
  rounds_to c d x1 r1 -> rounds_to c d x2 r2 ->
  sv x1 <= sv x2 -> sv r1 <= sv r2.
Proof.
  intros Hc Hd (Hn1 & a1 & b1 & Ha1 & Hb1 & Hx1 & Hr1) (Hn2 & a2 & b2 & Ha2 & Hb2 & Hx2 & Hr2).
  unfold sv. rewrite Hn1, Hn2, Hr1, Hr2.
  pose proof (mag_of_nonneg x1) as Hm1. pose proof (mag_of_nonneg x2) as Hm2.
  pose proof (RN_nonneg a1 b1 Ha1 Hb1) as HR1.
  pose proof (RN_nonneg a2 b2 Ha2 Hb2) as HR2.
  destruct (neg_of x1), (neg_of x2); intros Hle.
  - assert (RN a2 b2 <= RN a1 b1); [|lia].
    apply RN_mono; try assumption.
    apply (cross_le c d a2 b2 a1 b1 (mag_of x2) (mag_of x1)); try assumption. lia.
  - lia.
  - assert (E1 : mag_of x1 = 0) by lia. assert (E2 : mag_of x2 = 0) by lia.
    rewrite E1 in Hx1. rewrite E2 in Hx2.
    assert (a1 = 0) by nia. assert (a2 = 0) by nia. subst a1 a2.
    rewrite !RN_0 by assumption. lia.
  - apply RN_mono; try assumption.
    apply (cross_le c d a1 b1 a2 b2 (mag_of x1) (mag_of x2)); assumption.
Qed.

(** *** The order of binary64 values and of their magnitudes *)

Lemma valid_lt_exponent (s1 s2 : bool) (m1 m2 : positive) (e1 e2 : Z) :
  valid_binary (S754_finite s1 m1 e1) = true ->
  valid_binary (S754_finite s2 m2 e2) = true ->
  e1 < e2 ->
  Zpos m1 * 2 ^ (e1 + 1074) <= Zpos m2 * 2 ^ (e2 + 1074).
Proof.
  intros H1 H2 Hlt.
  destruct (valid_finite _ _ _ H1) as (He1 & Hd1 & _).
  destruct (valid_finite _ _ _ H2) as (He2 & _ & Hd2).
  specialize (Hd2 ltac:(lia)).
  pose proof (Zdigits2_bounds m1) as [_ Hhi1].
  pose proof (Zdigits2_bounds m2) as [Hlo2 _].
  rewrite Hd2 in Hlo2. change (2 ^ (53 - 1)) with (2 ^ 52) in Hlo2.
  assert (Hm1 : Zpos m1 < 2 ^ 53).
  { eapply Z.lt_le_trans; [exact Hhi1|]. apply Z.pow_le_mono_r; lia. }
  pose proof (pow2_pos (e1 + 1074) ltac:(lia)) as Hp1.
  assert (Hstep : 2 ^ 53 * 2 ^ (e1 + 1074) <= 2 ^ 52 * 2 ^ (e2 + 1074)).
  { rewrite <- !Z.pow_add_r by lia. apply Z.pow_le_mono_r; lia. }
  pose proof (pow2_pos (e2 + 1074) ltac:(lia)) as Hp2.
  nia.
Qed.

(** On the values of floats, [<=] is the order of the signed magnitudes. *)
Lemma SFleb_sv (x y : spec_float) :
  valid_binary x = true -> valid_binary y = true ->
  is_number x = true -> is_number y = true ->
  SFleb x y = true -> sv x <= sv y.
Proof.
  intros Hvx Hvy Hnx Hny. unfold SFleb, sv.
  destruct x as [sx|sx| |sx mx ex], y as [sy|sy| |sy my ey]; try discriminate;
    cbn [SFcompare neg_of mag_of].
  - intros _. destruct sx, sy; lia.
  - destruct sx, sy; try discriminate; intros _; lia.
  - destruct sx, sy; try discriminate; intros _; lia.
  - destruct (valid_finite _ _ _ Hvx) as (Hex & _).
    destruct (valid_finite _ _ _ Hvy) as (Hey & _).
    destruct sx, sy; try discriminate; try (intros _; lia).
    + (* both negative *)
      destruct (Z.compare_spec ex ey) as [E|E|E]; try discriminate.
      * subst ey. rewrite compare_cont_Eq.
        destruct (Pos.compare_spec mx my) as [Em|Em|Em]; try discriminate; intros _.
        -- subst. lia.
        -- apply Pos2Z.pos_lt_pos in Em.
           pose proof (pow2_pos (ex + 1074) ltac:(lia)). nia.
      * intros _. pose proof (valid_lt_exponent _ _ _ _ _ _ Hvy Hvx E). lia.
    + (* both positive *)
      destruct (Z.compare_spec ex ey) as [E|E|E]; try discriminate.
      * subst ey. rewrite compare_cont_Eq.
        destruct (Pos.compare_spec mx my) as [Em|Em|Em]; try discriminate; intros _.
        -- subst. lia.
        -- apply Pos2Z.pos_lt_pos in Em.
           pose proof (pow2_pos (ex + 1074) ltac:(lia)). nia.
      * intros _. exact (valid_lt_exponent _ _ _ _ _ _ Hvx Hvy E).
Qed.

(** *** [int(round(x))] is monotone *)

(** [round_mag] is [nearest] on a fraction equal to the magnitude. *)
Lemma round_mag_units (t : tie_rule) (m : positive) (e : Z) :
  -1074 <= e ->
  exists n d, 0 <= n /\ 0 < d /\
    round_mag t m e = nearest t n d /\
    n * 2 ^ 1074 = Zpos m * 2 ^ (e + 1074) * 1 * d.
Proof.
  intros He. destruct e as [|p|k].
  - exists (Zpos m), 1. split; [lia|]. split; [lia|]. split.
    + unfold round_mag, nearest. rewrite Z.mod_1_r, Z.div_1_r. cbn. lia.
    + change (0 + 1074) with 1074. ring.
  - exists (Zpos m * 2 ^ Zpos p), 1. split; [lia|]. split; [lia|]. split.
    + unfold round_mag, nearest. rewrite Z.mod_1_r, Z.div_1_r. reflexivity.
    + rewrite (Z.pow_add_r 2 (Zpos p) 1074) by lia. ring.
  - exists (Zpos m), (2 ^ Zpos k). split; [lia|]. split; [apply pow2_pos; lia|].
    split; [reflexivity|].
    assert (Hp : 2 ^ 1074 = 2 ^ (Zneg k + 1074) * 2 ^ Zpos k).
    { rewrite <- Z.pow_add_r by lia. f_equal. lia. }
    rewrite Hp. ring.
Qed.

Lemma int_round_Ok (t : tie_rule) (x : float) (v : Z) :
  int_round t x = Ok v ->
  is_number (Prim2SF x) = true /\
  v = if neg_of (Prim2SF x) then - rmag t (Prim2SF x) else rmag t (Prim2SF x).
Proof.
  unfold int_round. destruct (Prim2SF x) as [s|s| |s m e]; try discriminate;
    intros H; injection H as <-; cbn [is_number neg_of rmag].
  - split; [reflexivity|]. destruct s; reflexivity.
  - split; [reflexivity|]. reflexivity.
Qed.

Lemma rmag_nonneg (t : tie_rule) (r : spec_float) : on_grid r -> 0 <= rmag t r.
Proof.
  destruct r as [s|s| |s m e]; cbn [rmag on_grid]; try lia.
  intros He. destruct (round_mag_units t m e He) as (n & d & Hn & Hd & -> & _).
  apply nearest_nonneg; assumption.
Qed.

Lemma rmag_mono (t : tie_rule) (r1 r2 : spec_float) :
  on_grid r1 -> on_grid r2 ->
  is_number r1 = true -> is_number r2 = true ->
  mag_of r1 <= mag_of r2 -> rmag t r1 <= rmag t r2.
Proof.
  intros Hg1 Hg2 Hn1 Hn2 Hle.
  pose proof (rmag_nonneg t r2 Hg2) as H2.
  destruct r1 as [s1|s1| |s1 m1 e1]; try discriminate; [exact H2|].
  destruct r2 as [s2|s2| |s2 m2 e2]; try discriminate.
  - cbn [mag_of on_grid] in *. pose proof (pow2_pos (e1 + 1074) ltac:(lia)). nia.
  - cbn [mag_of on_grid rmag] in *.
    destruct (round_mag_units t m1 e1 Hg1) as (n1 & d1 & Hn1' & Hd1 & -> & Hc1).
    destruct (round_mag_units t m2 e2 Hg2) as (n2 & d2 & Hn2' & Hd2 & -> & Hc2).
    apply nearest_mono; try assumption.
    apply (cross_le 1 (2 ^ 1074) n1 d1 n2 d2
             (Zpos m1 * 2 ^ (e1 + 1074)) (Zpos m2 * 2 ^ (e2 + 1074)));
      try assumption; lia.
Qed.

Lemma ticks_mono (t : tie_rule) (r1 r2 : spec_float) :
  on_grid r1 -> on_grid r2 ->
  is_number r1 = true -> is_number r2 = true ->
  sv r1 <= sv r2 ->
  (if neg_of r1 then - rmag t r1 else rmag t r1) <=
  (if neg_of r2 then - rmag t r2 else rmag t r2).
Proof.
  intros Hg1 Hg2 Hn1 Hn2. unfold sv.
  pose proof (rmag_nonneg t r1 Hg1). pose proof (rmag_nonneg t r2 Hg2).
  pose proof (mag_of_nonneg r1). pose proof (mag_of_nonneg r2).
  destruct (neg_of r1), (neg_of r2); intros Hle.
  - pose proof (rmag_mono t r2 r1 Hg2 Hg1 Hn2 Hn1 ltac:(lia)). lia.
  - lia.
  - pose proof (rmag_mono t r1 (S754_zero false) Hg1 I Hn1 eq_refl) as Hz1.
    pose proof (rmag_mono t r2 (S754_zero false) Hg2 I Hn2 eq_refl) as Hz2.
    cbn [mag_of rmag] in Hz1, Hz2. lia.
  - apply rmag_mono; assumption.
Qed.

(** The two steps of [to_ticks] on the specification side. *)
Lemma to_ticks_Ok (t : tie_rule) (p w : float) (v : Z) :
  to_ticks t p w = Ok v ->
  let r := SF64mul (SF64div (Prim2SF w) (Prim2SF p))
             (S754_finite false 4503599627370496 (-40)) in
  is_number r = true /\
  v = if neg_of r then - rmag t r else rmag t r.
Proof.
  unfold to_ticks, truediv.
  destruct (PrimFloat.eqb p 0); [discriminate|]. cbn [bind_result].
  rewrite float_of_int_TICKS. cbn [bind_result].
  intros H. apply int_round_Ok in H.
  rewrite mul_spec, div_spec, Prim2SF_4096 in H. exact H.
Qed.

Lemma number_mul_4096 (q : spec_float) :
  is_number (SF64mul q (S754_finite false 4503599627370496 (-40))) = true ->
  q <> S754_nan /\ (forall s, q <> S754_infinity s).
Proof.
  destruct q; cbn; intros H; try discriminate; split; try discriminate;
    intros s'; discriminate.
Qed.

(** C6: for a period above zero, the tick value is monotone in the width:
    from [w1 <= w2], whenever both conversions return, the first returns
    no more than the second.  This is the code on binary64, with the
    roundings of the division, of the multiplication and of [round]. *)
Theorem to_ticks_monotone (t : tie_rule) (period w1 w2 : float) (t1 t2 : Z) :
  PrimFloat.ltb 0 period = true ->
  PrimFloat.leb w1 w2 = true ->
  to_ticks t period w1 = Ok t1 ->
  to_ticks t period w2 = Ok t2 ->
  t1 <= t2.
Proof.
  intros Hp Hw H1 H2.
  apply to_ticks_Ok in H1. apply to_ticks_Ok in H2. cbv zeta in H1, H2.
  destruct H1 as [Hn1 ->]. destruct H2 as [Hn2 ->].
  rewrite ltb_spec in Hp. rewrite leb_spec in Hw.
  pose proof (Prim2SF_valid period) as Hvp.
  pose proof (Prim2SF_valid w1) as Hv1.
  pose proof (Prim2SF_valid w2) as Hv2.
  change (Prim2SF 0) with (S754_zero false) in Hp.
  set (c := S754_finite false 4503599627370496 (-40)) in *.
  destruct (Prim2SF period) as [sp|sp| |sp mp ep] eqn:Ep; try discriminate.
  - (* an infinite period: every quotient is a zero *)
    assert (Hz : forall x, is_number (SF64mul (SF64div x (S754_infinity sp)) c) = true ->
                 rmag t (SF64mul (SF64div x (S754_infinity sp)) c) = 0).
    { intros [s|s| |s m e]; cbn; intros H; try discriminate; reflexivity. }
    rewrite (Hz _ Hn1), (Hz _ Hn2).
    destruct (neg_of _), (neg_of _); lia.
  - (* a finite period *)
    assert (sp = false) by (destruct sp; [discriminate|reflexivity]). subst sp.
    destruct (valid_finite _ _ _ Hvp) as (Hep & _).
    set (q1 := SF64div (Prim2SF w1) (S754_finite false mp ep)) in *.
    set (q2 := SF64div (Prim2SF w2) (S754_finite false mp ep)) in *.
    assert (Hq1 : is_number q1 = true).
    { destruct (number_mul_4096 q1 Hn1) as [Hnan Hinf].
      destruct q1; try reflexivity; [destruct (Hinf s); reflexivity|congruence]. }
    assert (Hq2 : is_number q2 = true).
    { destruct (number_mul_4096 q2 Hn2) as [Hnan Hinf].
      destruct q2; try reflexivity; [destruct (Hinf s); reflexivity|congruence]. }
    destruct (div_stage (Prim2SF w1) mp ep Hv1 Hep Hq1) as (Hx1 & Hg1 & Hr1).
    destruct (div_stage (Prim2SF w2) mp ep Hv2 Hep Hq2) as (Hx2 & Hg2 & Hr2).
    fold q1 in Hg1, Hr1. fold q2 in Hg2, Hr2.
    destruct (mul_stage q1 Hg1 Hn1) as (_ & Hgr1 & Hrr1).
    destruct (mul_stage q2 Hg2 Hn2) as (_ & Hgr2 & Hrr2).
    fold c in Hgr1, Hrr1, Hgr2, Hrr2.
    apply ticks_mono; try assumption.
    apply (rounds_to_mono 4096 1 q1 q2); try assumption; try lia.
    apply (rounds_to_mono (2 ^ 1074) (mag_of (S754_finite false mp ep))
             (Prim2SF w1) (Prim2SF w2)); try assumption.
    + apply pow2_pos. lia.
    + cbn [mag_of]. pose proof (pow2_pos (ep + 1074) ltac:(lia)). nia.
    + apply SFleb_sv; assumption.
Qed.

Lemma to_ticks_monotone_witness :
  PrimFloat.ltb 0 0.022 = true /\
  PrimFloat.leb 0.0015 0.0019 = true /\
  to_ticks HalfAwayFromZero 0.022 0.0015 = Ok 279 /\
  to_ticks HalfAwayFromZero 0.022 0.0019 = Ok 354 /\
  279 <= 354.
Proof.
  assert (Hp : PrimFloat.ltb 0 0.022 = true) by (vm_compute; reflexivity).
  assert (Hw : PrimFloat.leb 0.0015 0.0019 = true) by (vm_compute; reflexivity).
  assert (H1 : to_ticks HalfAwayFromZero 0.022 0.0015 = Ok 279)
    by (vm_compute; reflexivity).
  assert (H2 : to_ticks HalfAwayFromZero 0.022 0.0019 = Ok 354)
    by (vm_compute; reflexivity).
  repeat (split; [assumption|]).
  exact (to_ticks_monotone HalfAwayFromZero 0.022 0.0015 0.0019 279 354 Hp Hw H1 H2).
Defined.

(** ** The command path *)

Section Commands.

Context {P : Platform}.

(** *** Unfolding the methods *)

Lemma set_pwidth_eq (self : DroneComm) (channel : Z) (width : float) (w : World) :
  set_pwidth self channel width w =
    match to_ticks tie (period self) width with
    | Ok pulse => (Ok tt, {| trace := trace w ++ [set_pwm channel width 0 pulse];
                             links := links w |})
    | Raise e => (Raise e, w)
    end.
Proof.
  unfold set_pwidth, bind, lift, emit.
  destruct (to_ticks tie (period self) width); reflexivity.
Qed.

(** C5: the conversion inside [set_pwidth] is
    [round(width / period * TICKS)]; [set_pwidth] hands its result to the
    driver as the off tick, with no clamping on the way (0.005 s, far
    above [MAX_WIDTH], goes out as 931 ticks); and a width of 0.0015 s in
    a period of 0.022 s is 279 ticks, under either rounding rule. *)
Theorem to_ticks_rounds :
  (forall (t : tie_rule) (period width : float),
     to_ticks t period width =
       if PrimFloat.eqb period 0 then Raise ZeroDivisionError
       else int_round t (width / period * 4096)%float) /\
  (forall (self : DroneComm) (channel : Z) (width : float) (w : World),
     set_pwidth self channel width w =
       match to_ticks tie (period self) width with
       | Ok pulse => (Ok tt, {| trace := trace w ++ [set_pwm channel width 0 pulse];
                                links := links w |})
       | Raise e => (Raise e, w)
       end) /\
  (forall t : tie_rule, to_ticks t 0.022 0.0015 = Ok 279) /\
  (forall t : tie_rule, to_ticks t 0.022 0.005 = Ok 931).
Proof.
  split; [|split; [|split]].
  - intros t period width. unfold to_ticks, truediv.
    destruct (PrimFloat.eqb period 0); [reflexivity|].
    cbn [bind_result]. rewrite float_of_int_TICKS. reflexivity.
  - exact set_pwidth_eq.
  - intros []; vm_compute; reflexivity.
  - intros []; vm_compute; reflexivity.
Qed.

Lemma set_roll_pwidth_eq (self : DroneComm) (width : float) (w : World) :
  set_roll_pwidth self width w =
    let v := validate_pwidth (width + roll_pwm_trim self) in
    match to_ticks tie (period self) (fst v) with
    | Ok pulse =>
        (Ok tt,
         {| trace := trace w ++ set_pwm ROLL_CHANNEL (fst v) 0 pulse ::
                       (if snd v then [] else [print "WARNING: Roll out of range!"]);
            links := links w |})
    | Raise e => (Raise e, w)
    end.
Proof.
  unfold set_roll_pwidth.
  destruct (validate_pwidth (width + roll_pwm_trim self)) as [v valid].
  unfold bind. rewrite set_pwidth_eq. cbn [fst snd].
  destruct (to_ticks tie (period self) v); [|reflexivity].
  destruct valid; cbn [negb]; unfold ret, emit; cbn [trace links];
    [|rewrite <- app_assoc]; reflexivity.
Qed.

Lemma set_pitch_pwidth_eq (self : DroneComm) (width : float) (w : World) :
  set_pitch_pwidth self width w =
    let v := validate_pwidth (width + pitch_pwm_trim self) in
    match to_ticks tie (period self) (fst v) with
    | Ok pulse =>
        (Ok tt,
         {| trace := trace w ++ set_pwm PITCH_CHANNEL (fst v) 0 pulse ::
                       (if snd v then [] else [print "WARNING: Pitch out of range!"]);
            links := links w |})
    | Raise e => (Raise e, w)
    end.
Proof.
  unfold set_pitch_pwidth.
  destruct (validate_pwidth (width + pitch_pwm_trim self)) as [v valid].
  unfold bind. rewrite set_pwidth_eq. cbn [fst snd].
  destruct (to_ticks tie (period self) v); [|reflexivity].
  destruct valid; cbn [negb]; unfold ret, emit; cbn [trace links];
    [|rewrite <- app_assoc]; reflexivity.
Qed.

Lemma set_yaw_pwidth_eq (self : DroneComm) (width : float) (w : World) :
  set_yaw_pwidth self width w =
    let v := validate_pwidth (width + yaw_pwm_trim self) in
    match to_ticks tie (period self) (fst v) with
    | Ok pulse =>
        (Ok tt,
         {| trace := trace w ++ set_pwm YAW_CHANNEL (fst v) 0 pulse ::
                       (if snd v then [] else [print "WARNING: Yaw out of range!"]);
            links := links w |})
    | Raise e => (Raise e, w)
    end.
Proof.
  unfold set_yaw_pwidth.
  destruct (validate_pwidth (width + yaw_pwm_trim self)) as [v valid].
  unfold bind. rewrite set_pwidth_eq. cbn [fst snd].
  destruct (to_ticks tie (period self) v); [|reflexivity].
  destruct valid; cbn [negb]; unfold ret, emit; cbn [trace links];
    [|rewrite <- app_assoc]; reflexivity.
Qed.

(** C7: when the trimmed request exceeds [MAX_WIDTH], [set_roll_pwidth]
    programs the roll channel with [MAX_WIDTH] converted to ticks, then
    prints the warning that names Roll, and returns normally. *)
Theorem set_roll_pwidth_clips (self : DroneComm) (width : float) (pulse : Z) (w : World) :
  PrimFloat.ltb MAX_WIDTH (width + roll_pwm_trim self) = true ->
  to_ticks tie (period self) MAX_WIDTH = Ok pulse ->
  set_roll_pwidth self width w =
    (Ok tt,
     {| trace := trace w ++ [set_pwm ROLL_CHANNEL MAX_WIDTH 0 pulse;
                             print "WARNING: Roll out of range!"];
        links := links w |}).
Proof.
  intros Hmax Hticks. rewrite set_roll_pwidth_eq.
  rewrite (validate_pwidth_above _ Hmax). cbn [fst snd].
  rewrite Hticks. reflexivity.
Qed.

Lemma reset_channels_eq (self : DroneComm) (w : World) :
  reset_channels self w =
    match to_ticks tie (period self) MID_WIDTH with
    | Raise e => (Raise e, w)
    | Ok pm =>
      match to_ticks tie (period self) (MID_WIDTH + roll_pwm_trim self) with
      | Raise e => (Raise e, {| trace := trace w ++ firstn 6 (reset_writes self pm 0 0 0);
                                links := links w |})
      | Ok pr =>
        match to_ticks tie (period self) (MID_WIDTH + pitch_pwm_trim self) with
        | Raise e => (Raise e, {| trace := trace w ++ firstn 7 (reset_writes self pm pr 0 0);
                                  links := links w |})
        | Ok pp =>
          match to_ticks tie (period self) (MID_WIDTH + yaw_pwm_trim self) with
          | Raise e => (Raise e, {| trace := trace w ++ firstn 8 (reset_writes self pm pr pp 0);
                                    links := links w |})
          | Ok py => (Ok tt, {| trace := trace w ++ reset_writes self pm pr pp py;
                                links := links w |})
          end
        end
      end
    end.
Proof.
  unfold reset_channels.
  cbn [range seq map for_each Z.of_nat Pos.of_succ_nat Pos.succ].
  unfold set_pwidth, bind, lift, emit, ret.
  destruct (to_ticks tie (period self) MID_WIDTH) as [pm|e]; [|reflexivity].
  cbn [trace links].
  destruct (to_ticks tie (period self) (MID_WIDTH + roll_pwm_trim self)) as [pr|e];
    cbn [trace links];
    [|rewrite <- !app_assoc; reflexivity].
  destruct (to_ticks tie (period self) (MID_WIDTH + pitch_pwm_trim self)) as [pp|e];
    cbn [trace links];
    [|rewrite <- !app_assoc; reflexivity].
  destruct (to_ticks tie (period self) (MID_WIDTH + yaw_pwm_trim self)) as [py|e];
    cbn [trace links];
    rewrite <- !app_assoc; reflexivity.
Qed.

Lemma programmed_app (channel : Z) (tr l : list event) :
  programmed channel (tr ++ l) = fold_left (note_write channel) l (programmed channel tr).
Proof. unfold programmed. apply fold_left_app. Qed.

(** [reset_channels] returns exactly when the four conversions do. *)
Lemma reset_channels_returns (self : DroneComm) (w w' : World) :
  reset_channels self w = (Ok tt, w') <->
  exists pm pr pp py,
    to_ticks tie (period self) MID_WIDTH = Ok pm /\
    to_ticks tie (period self) (MID_WIDTH + roll_pwm_trim self) = Ok pr /\
    to_ticks tie (period self) (MID_WIDTH + pitch_pwm_trim self) = Ok pp /\
    to_ticks tie (period self) (MID_WIDTH + yaw_pwm_trim self) = Ok py /\
    w' = {| trace := trace w ++ reset_writes self pm pr pp py; links := links w |}.
Proof.
  rewrite reset_channels_eq. split.
  - destruct (to_ticks tie (period self) MID_WIDTH) as [pm|]; [|discriminate].
    destruct (to_ticks tie (period self) (MID_WIDTH + roll_pwm_trim self)) as [pr|];
      [|discriminate].
    destruct (to_ticks tie (period self) (MID_WIDTH + pitch_pwm_trim self)) as [pp|];
      [|discriminate].
    destruct (to_ticks tie (period self) (MID_WIDTH + yaw_pwm_trim self)) as [py|];
      [|discriminate].
    intros H. injection H as <-. exists pm, pr, pp, py. repeat split; reflexivity.
  - intros (pm & pr & pp & py & -> & -> & -> & -> & ->). reflexivity.
Qed.

(** C3: after [reset_channels] has run to its end, the width last
    programmed on the roll, pitch and yaw channels is [MID_WIDTH] plus the
    trim of that axis (sent as its tick value), and on every other channel
    of 0..5 it is [MID_WIDTH] itself. *)
Theorem reset_channels_programs (self : DroneComm) (w w' : World) :
  reset_channels self w = (Ok tt, w') ->
  (exists pulse,
     to_ticks tie (period self) (MID_WIDTH + roll_pwm_trim self) = Ok pulse /\
     programmed ROLL_CHANNEL (trace w') =
       Some ((MID_WIDTH + roll_pwm_trim self)%float, pulse)) /\
  (exists pulse,
     to_ticks tie (period self) (MID_WIDTH + pitch_pwm_trim self) = Ok pulse /\
     programmed PITCH_CHANNEL (trace w') =
       Some ((MID_WIDTH + pitch_pwm_trim self)%float, pulse)) /\
  (exists pulse,
     to_ticks tie (period self) (MID_WIDTH + yaw_pwm_trim self) = Ok pulse /\
     programmed YAW_CHANNEL (trace w') =
       Some ((MID_WIDTH + yaw_pwm_trim self)%float, pulse)) /\
  (forall channel : Z,
     0 <= channel < 6 ->
     channel <> ROLL_CHANNEL -> channel <> PITCH_CHANNEL -> channel <> YAW_CHANNEL ->
     exists pulse,
       to_ticks tie (period self) MID_WIDTH = Ok pulse /\
       programmed channel (trace w') = Some (MID_WIDTH, pulse)).
Proof.
  intros H. apply reset_channels_returns in H.
  destruct H as (pm & pr & pp & py & Hm & Hr & Hp & Hy & ->).
  cbn [trace]. repeat split.
  - exists pr. split; [exact Hr|]. rewrite programmed_app. reflexivity.
  - exists pp. split; [exact Hp|]. rewrite programmed_app. reflexivity.
  - exists py. split; [exact Hy|]. rewrite programmed_app. reflexivity.
  - intros channel Hc H3 H2 H1. exists pm. split; [exact Hm|].
    rewrite programmed_app.
    unfold ROLL_CHANNEL, PITCH_CHANNEL, YAW_CHANNEL in *.
    assert (Hcase : channel = 0 \/ channel = 4 \/ channel = 5) by lia.
    destruct Hcase as [-> | [-> | ->]]; reflexivity.
Qed.

End Commands.

(** ** The range invariant of the command path *)

Section Range.

Context {P : Platform}.

Lemma widths_in_range_app (a b : list event) :
  widths_in_range (a ++ b) = widths_in_range a && widths_in_range b.
Proof. apply forallb_app. Qed.

(** A width that [to_ticks] converts is a number; a validated number is in
    range. *)
Lemma validated_in_range (t : tie_rule) (p x : float) (pulse : Z) :
  to_ticks t p (fst (validate_pwidth x)) = Ok pulse ->
  in_range (fst (validate_pwidth x)) = true.
Proof.
  intros Hticks.
  destruct (Prim2SF x) eqn:Hx;
    try (apply validate_pwidth_in_range; rewrite Hx; discriminate).
  rewrite (validate_pwidth_nan x Hx) in Hticks. cbn [fst] in Hticks.
  destruct (to_ticks_nan t p x Hx) as [e He]. congruence.
Qed.

Lemma set_pwidth_range (self : DroneComm) (channel : Z) (width : float) (w : World) :
  (forall pulse, to_ticks tie (period self) width = Ok pulse -> in_range width = true) ->
  widths_in_range (trace w) = true ->
  widths_in_range (trace (snd (set_pwidth self channel width w))) = true.
Proof.
  intros Hwidth Hw. rewrite set_pwidth_eq.
  destruct (to_ticks tie (period self) width) as [pulse|e]; [|exact Hw].
  cbn [snd trace]. rewrite widths_in_range_app, Hw. cbn.
  rewrite (Hwidth pulse eq_refl). reflexivity.
Qed.

Lemma set_roll_pwidth_range (self : DroneComm) (width : float) (w : World) :
  widths_in_range (trace w) = true ->
  widths_in_range (trace (snd (set_roll_pwidth self width w))) = true.
Proof.
  intros Hw. rewrite set_roll_pwidth_eq. cbv zeta.
  destruct (to_ticks tie (period self) _) as [pulse|e] eqn:Hticks; [|exact Hw].
  cbn [snd trace]. rewrite widths_in_range_app, Hw. cbn [widths_in_range forallb andb].
  rewrite (validated_in_range _ _ _ _ Hticks).
  destruct (snd (validate_pwidth _)); reflexivity.
Qed.

Lemma set_pitch_pwidth_range (self : DroneComm) (width : float) (w : World) :
  widths_in_range (trace w) = true ->
  widths_in_range (trace (snd (set_pitch_pwidth self width w))) = true.
Proof.
  intros Hw. rewrite set_pitch_pwidth_eq. cbv zeta.
  destruct (to_ticks tie (period self) _) as [pulse|e] eqn:Hticks; [|exact Hw].
  cbn [snd trace]. rewrite widths_in_range_app, Hw. cbn [widths_in_range forallb andb].
  rewrite (validated_in_range _ _ _ _ Hticks).
  destruct (snd (validate_pwidth _)); reflexivity.
Qed.

Lemma set_yaw_pwidth_range (self : DroneComm) (width : float) (w : World) :
  widths_in_range (trace w) = true ->
  widths_in_range (trace (snd (set_yaw_pwidth self width w))) = true.
Proof.
  intros Hw. rewrite set_yaw_pwidth_eq. cbv zeta.
  destruct (to_ticks tie (period self) _) as [pulse|e] eqn:Hticks; [|exact Hw].
  cbn [snd trace]. rewrite widths_in_range_app, Hw. cbn [widths_in_range forallb andb].
  rewrite (validated_in_range _ _ _ _ Hticks).
  destruct (snd (validate_pwidth _)); reflexivity.
Qed.

Lemma in_range_MID_WIDTH : in_range MID_WIDTH = true.
Proof. vm_compute. reflexivity. Qed.

Lemma reset_channels_range (self : DroneComm) (w : World) :
  trims_in_range self = true ->
  widths_in_range (trace w) = true ->
  widths_in_range (trace (snd (reset_channels self w))) = true.
Proof.
  unfold trims_in_range. rewrite !andb_true_iff. intros [[Hr Hp] Hy] Hw.
  rewrite reset_channels_eq.
  destruct (to_ticks tie (period self) MID_WIDTH); [|exact Hw].
  destruct (to_ticks tie (period self) (MID_WIDTH + roll_pwm_trim self));
  [destruct (to_ticks tie (period self) (MID_WIDTH + pitch_pwm_trim self));
   [destruct (to_ticks tie (period self) (MID_WIDTH + yaw_pwm_trim self))|]|];
  cbn [snd trace]; rewrite widths_in_range_app, Hw;
  cbn [reset_writes firstn widths_in_range forallb andb];
  rewrite ?in_range_MID_WIDTH, ?Hr, ?Hp, ?Hy; reflexivity.
Qed.


Lemma keeps_bind {A B} (I : World -> Prop) (m : M A) (k : A -> M B) :
  keeps I m -> (forall a, keeps I (k a)) -> keeps I (bind m k).
Proof.
  intros Hm Hk w Hw. unfold bind.
  specialize (Hm w Hw). destruct (m w) as [[a|e] w1]; cbn [snd] in *.
  - apply Hk, Hm.
  - exact Hm.
Qed.

Lemma keeps_ret {A} (I : World -> Prop) (a : A) : keeps I (ret a).
Proof. intros w Hw. exact Hw. Qed.

Lemma keeps_lift {A} (I : World -> Prop) (r : result A) : keeps I (lift r).
Proof. intros w Hw. exact Hw. Qed.

Lemma ranged_emit (ev : event) : silent ev = true -> keeps ranged (emit ev).
Proof.
  intros Hev w Hw. unfold ranged, emit in *. cbn [snd trace].
  rewrite widths_in_range_app, Hw. destruct ev; try discriminate; reflexivity.
Qed.

Lemma ranged_new_MultiWii (port : string) : keeps ranged (new_MultiWii port).
Proof.
  intros w Hw. unfold ranged, new_MultiWii in *.
  destruct (MultiWii_init port); cbn [snd trace]; [|exact Hw].
  rewrite widths_in_range_app, Hw. reflexivity.
Qed.

Lemma ranged_the_board (self : DroneComm) : keeps ranged (the_board self).
Proof.
  intros w Hw. unfold the_board.
  destruct (board self) as [h|]; [destruct (nth_error (links w) h)|]; exact Hw.
Qed.

Lemma ranged_board_getData (self : DroneComm) : keeps ranged (board_getData self).
Proof.
  apply keeps_bind; [apply ranged_the_board|].
  intros [h l] w Hw. unfold ranged in *.
  destruct (MultiWii_getData (snd (h, l))); cbn [snd trace];
    rewrite widths_in_range_app, Hw; reflexivity.
Qed.

Lemma ranged_board_attitude (self : DroneComm) (key : string) :
  keeps ranged (board_attitude self key).
Proof.
  apply keeps_bind; [apply ranged_the_board|].
  intros [h l]. destruct (MultiWii_attitude (snd (h, l)) key);
    [apply keeps_ret | apply keeps_lift].
Qed.

Lemma ranged_board_closeSerial (self : DroneComm) : keeps ranged (board_closeSerial self).
Proof.
  apply keeps_bind; [apply ranged_the_board|].
  intros [h l] w Hw. unfold ranged in *. cbn [snd trace].
  rewrite widths_in_range_app, Hw. reflexivity.
Qed.

Lemma ranged_get_data (self : DroneComm) (arg : string) : keeps ranged (get_data self arg).
Proof.
  apply keeps_bind; [apply ranged_board_getData|]. intros _.
  destruct (_ || _).
  - apply keeps_bind; [apply ranged_board_attitude|]. intros v. apply keeps_ret.
  - apply keeps_bind; [apply ranged_emit; reflexivity|]. intros _.
    apply keeps_bind; [apply ranged_board_closeSerial|]. intros _. apply keeps_ret.
Qed.

Lemma ranged_get_roll (self : DroneComm) : keeps ranged (get_roll self).
Proof.
  apply keeps_bind; [apply ranged_board_getData|]. intros _.
  apply ranged_board_attitude.
Qed.

Lemma ranged_get_pitch (self : DroneComm) : keeps ranged (get_pitch self).
Proof.
  apply keeps_bind; [apply ranged_board_getData|]. intros _.
  apply ranged_board_attitude.
Qed.

Lemma ranged_get_yaw (self : DroneComm) : keeps ranged (get_yaw self).
Proof.
  apply keeps_bind; [apply ranged_board_getData|]. intros _.
  apply ranged_board_attitude.
Qed.

Lemma ranged_exit (self : DroneComm) :
  trims_in_range self = true -> keeps ranged (exit self).
Proof.
  intros Htrims.
  apply keeps_bind; [intros w; apply reset_channels_range, Htrims|]. intros _.
  apply keeps_bind; [apply ranged_new_MultiWii|]. intros h.
  apply keeps_bind; [apply ranged_board_closeSerial|]. intros _. apply keeps_ret.
Qed.

Lemma exit_trims (self self' : DroneComm) (w w' : World) :
  exit self w = (Ok self', w') ->
  period self' = period self /\
  roll_pwm_trim self' = roll_pwm_trim self /\
  pitch_pwm_trim self' = pitch_pwm_trim self /\
  yaw_pwm_trim self' = yaw_pwm_trim self.
Proof.
  unfold exit, bind.
  destruct (reset_channels self w) as [[[]|] w1]; [|discriminate].
  destruct (new_MultiWii "/dev/ttyUSB0" w1) as [[h|] w2]; [|discriminate].
  destruct (board_closeSerial _ w2) as [[[]|] w3]; [|discriminate].
  unfold ret. intros H. injection H as <- _. repeat split.
Qed.

Lemma do_call_range (self : DroneComm) (c : call) (w : World) :
  trims_in_range self = true ->
  clamped_call c = true ->
  ranged w ->
  trims_in_range (fst (do_call self c w)) = true /\ ranged (snd (do_call self c w)).
Proof.
  intros Htrims Hc Hw.
  destruct c; cbn [do_call fst snd]; try (split; [exact Htrims|]).
  - apply set_pwidth_range; [intros _ _; exact Hc | exact Hw].
  - apply set_roll_pwidth_range, Hw.
  - apply set_pitch_pwidth_range, Hw.
  - apply set_yaw_pwidth_range, Hw.
  - apply reset_channels_range; assumption.
  - apply ranged_get_data, Hw.
  - apply ranged_get_roll, Hw.
  - apply ranged_get_pitch, Hw.
  - apply ranged_get_yaw, Hw.
  - pose proof (ranged_exit self Htrims w Hw) as Hexit.
    destruct (exit self w) as [[self'|e] w'] eqn:He; cbn [fst snd] in *.
    + split; [|exact Hexit].
      destruct (exit_trims _ _ _ _ He) as (_ & Hr & Hp & Hy).
      unfold trims_in_range in *. rewrite Hr, Hp, Hy. exact Htrims.
    + split; assumption.
Qed.

Lemma do_calls_range (cs : list call) (self : DroneComm) (w : World) :
  trims_in_range self = true ->
  forallb clamped_call cs = true ->
  ranged w ->
  ranged (snd (do_calls self cs w)).
Proof.
  revert self w. induction cs as [|c cs IH]; intros self w Htrims Hcs Hw.
  - exact Hw.
  - cbn [forallb] in Hcs. apply andb_true_iff in Hcs as [Hc Hcs].
    cbn [do_calls].
    destruct (do_call_range self c w Htrims Hc Hw) as [Htrims' Hw'].
    destruct (do_call self c w) as [self' w']. cbn [fst snd] in *.
    apply IH; assumption.
Qed.


Lemma bind_lift_Ok {A B} (a : A) (k : A -> M B) : bind (lift (Ok a)) k = k a.
Proof. reflexivity. Qed.

Lemma bind_Ok_inv {A B} (m : M A) (k : A -> M B) (w w' : World) (b : B) :
  bind m k w = (Ok b, w') ->
  exists a w1, m w = (Ok a, w1) /\ k a w1 = (Ok b, w').
Proof.
  unfold bind. destruct (m w) as [[a|e] w1]; [|discriminate].
  intros H. exists a, w1. split; [reflexivity | exact H].
Qed.

Lemma init_range (period : float) (k_period : option float)
    (roll pitch yaw : number) (port : option string) (w : World) :
  trim_ok roll = true -> trim_ok pitch = true -> trim_ok yaw = true ->
  ranged w ->
  ranged (snd (__init__ period k_period roll pitch yaw port w)) /\
  forall self w',
    __init__ period k_period roll pitch yaw port w = (Ok self, w') ->
    trims_in_range self = true.
Proof.
  unfold trim_ok, __init__. intros Hr Hp Hy Hw.
  destruct (trim_seconds roll) as [r|e]; [rewrite bind_lift_Ok|split; [exact Hw|discriminate]].
  destruct (trim_seconds pitch) as [p|e]; [rewrite bind_lift_Ok|split; [exact Hw|discriminate]].
  destruct (trim_seconds yaw) as [y|e]; [rewrite bind_lift_Ok|split; [exact Hw|discriminate]].
  set (k := match k_period with None => DEFAULT_K_PERIOD | Some k => k end).
  assert (Htrims : forall b,
            trims_in_range {| period := period; roll_pwm_trim := r; pitch_pwm_trim := p;
                              yaw_pwm_trim := y; board := b |} = true).
  { intros b. unfold trims_in_range.
    cbn [roll_pwm_trim pitch_pwm_trim yaw_pwm_trim]. rewrite Hr, Hp, Hy. reflexivity. }
  split.
  - revert w Hw. change (keeps ranged
      (bind (emit PCA9685) (fun _ =>
       bind (lift (truediv 1 (k * period))) (fun hz =>
       bind (emit (set_pwm_freq hz)) (fun _ =>
       bind match port with
            | None => ret None
            | Some p0 => bind (new_MultiWii p0) (fun h => ret (Some h))
            end (fun board =>
       bind (reset_channels {| period := period; roll_pwm_trim := r; pitch_pwm_trim := p;
                               yaw_pwm_trim := y; board := board |}) (fun _ =>
       ret {| period := period; roll_pwm_trim := r; pitch_pwm_trim := p;
              yaw_pwm_trim := y; board := board |}))))))).
    apply keeps_bind; [apply ranged_emit; reflexivity|]. intros _.
    apply keeps_bind; [apply keeps_lift|]. intros hz.
    apply keeps_bind; [apply ranged_emit; reflexivity|]. intros _.
    apply keeps_bind.
    { destruct port; [|apply keeps_ret].
      apply keeps_bind; [apply ranged_new_MultiWii|]. intros h. apply keeps_ret. }
    intros b.
    apply keeps_bind; [intros w; apply reset_channels_range, Htrims|]. intros _.
    apply keeps_ret.
  - intros self w' H.
    apply bind_Ok_inv in H as (_ & w1 & _ & H).
    apply bind_Ok_inv in H as (hz & w2 & _ & H).
    apply bind_Ok_inv in H as (_ & w3 & _ & H).
    apply bind_Ok_inv in H as (b & w4 & _ & H).
    apply bind_Ok_inv in H as (_ & w5 & _ & H).
    injection H as <- _. apply Htrims.
Qed.

(** C1 (amended): in every session of calls in which direct [set_pwidth]
    calls are given widths in range, under trims that keep the neutral
    width in range, every width that reaches the driver lies in
    [MIN_WIDTH, MAX_WIDTH]: the three [set_*_pwidth] methods clamp before
    they write. *)
Theorem session_widths_in_range (period : float) (k_period : option float)
    (roll pitch yaw : number) (port : option string) (cs : list call) (w : World) :
  trim_ok roll = true -> trim_ok pitch = true -> trim_ok yaw = true ->
  forallb clamped_call cs = true ->
  widths_in_range (trace w) = true ->
  widths_in_range (trace (session period k_period roll pitch yaw port cs w)) = true.
Proof.
  intros Hr Hp Hy Hcs Hw. unfold session.
  destruct (init_range period k_period roll pitch yaw port w Hr Hp Hy Hw) as [Hinit Htrims].
  destruct (__init__ period k_period roll pitch yaw port w) as [[self|e] w'].
  - apply do_calls_range; [apply (Htrims self w' eq_refl) | exact Hcs | exact Hinit].
  - exact Hinit.
Qed.

End Range.

Lemma set_roll_pwidth_clips_witness :
  set_roll_pwidth (P := Sim.py2)
    {| period := 0.022; roll_pwm_trim := 0.0001; pitch_pwm_trim := 0;
       yaw_pwm_trim := 0; board := None |} 0.0019 Sim.boot =
    (Ok tt,
     {| trace := [set_pwm ROLL_CHANNEL MAX_WIDTH 0 354;
                  print "WARNING: Roll out of range!"];
        links := [] |}).
Proof.
  refine (set_roll_pwidth_clips (P := Sim.py2) _ 0.0019 354 Sim.boot _ _);
    vm_compute; reflexivity.
Defined.

Lemma reset_channels_programs_witness :
  exists pulse,
    to_ticks HalfAwayFromZero 0.022 (MID_WIDTH + 0.00015) = Ok pulse /\
    programmed ROLL_CHANNEL
      (trace (snd (reset_channels (P := Sim.py2) Sim.demo Sim.boot))) =
      Some ((MID_WIDTH + 0.00015)%float, pulse).
Proof.
  refine (proj1 (reset_channels_programs (P := Sim.py2) Sim.demo Sim.boot _ _)).
  vm_compute. reflexivity.
Defined.

Lemma session_widths_in_range_witness :
  widths_in_range
    (trace (session (P := Sim.py2) 0.022 None (PyInt 150) (PyInt (-50)) (PyInt 0)
              (Some "/dev/ttyUSB0"%string)
              [call_set_roll_pwidth 0.003; call_set_pitch_pwidth 0.0001;
               call_reset_channels; call_set_pwidth 4 0.0012; call_get_roll;
               call_exit; call_set_yaw_pwidth 0.0015]
              Sim.boot)) = true.
Proof.
  apply (session_widths_in_range (P := Sim.py2)); vm_compute; reflexivity.
Defined.

(** C1 as stated fails: a trim of 1000 us makes the constructor's
    [reset_channels] send 0.0025 s to the roll channel, and a direct
    [set_pwidth] sends whatever it is given; neither is clamped. *)
Lemma widths_in_range_counterexample :
  (trace (session (P := Sim.py2) 0.022 None (PyInt 1000) (PyInt 0) (PyInt 0) None []
            Sim.boot) =
     [PCA9685; set_pwm_freq (1 / (DEFAULT_K_PERIOD * 0.022));
      set_pwm 0 MID_WIDTH 0 279; set_pwm 1 MID_WIDTH 0 279; set_pwm 2 MID_WIDTH 0 279;
      set_pwm 3 MID_WIDTH 0 279; set_pwm 4 MID_WIDTH 0 279; set_pwm 5 MID_WIDTH 0 279;
      set_pwm ROLL_CHANNEL (MID_WIDTH + 1000 * 1E-6) 0 465;
      set_pwm PITCH_CHANNEL (MID_WIDTH + 0 * 1E-6) 0 279;
      set_pwm YAW_CHANNEL (MID_WIDTH + 0 * 1E-6) 0 279] /\
   in_range (MID_WIDTH + 1000 * 1E-6) = false /\
   PrimFloat.ltb MAX_WIDTH (MID_WIDTH + 1000 * 1E-6) = true) /\
  (trace (snd (set_pwidth (P := Sim.py2) Sim.demo 0 0.005 Sim.boot)) =
     [set_pwm 0 0.005 0 931] /\
   in_range 0.005 = false).
Proof. vm_compute. repeat split. Qed.

Section Telemetry.

Context {P : Platform}.

Lemma nth_error_update (A : Type) (l : list A) (h : nat) (x a : A) :
  nth_error l h = Some x -> nth_error (update l h a) h = Some a.
Proof.
  revert h. induction l as [|y l IH]; intros [|h]; cbn; try discriminate; auto.
Qed.

Lemma update_update (A : Type) (l : list A) (h : nat) (a b : A) :
  update (update l h a) h b = update l h b.
Proof.
  revert h. induction l as [|y l IH]; intros [|h]; cbn; try reflexivity.
  rewrite IH. reflexivity.
Qed.

Lemma update_last (A : Type) (l : list A) (x a : A) :
  update (l ++ [x]) (List.length l) a = l ++ [a].
Proof. induction l as [|y l IH]; cbn; [|rewrite IH]; reflexivity. Qed.

Lemma nth_error_last (A : Type) (l : list A) (x : A) :
  nth_error (l ++ [x]) (List.length l) = Some x.
Proof. induction l as [|y l IH]; cbn; auto. Qed.


Lemma the_board_Some (self : DroneComm) (w : World) (h : nat) (l : MultiWii) :
  board self = Some h -> nth_error (links w) h = Some l ->
  the_board self w = (Ok (h, l), w).
Proof. unfold the_board. intros -> ->. reflexivity. Qed.







(** C10: on an argument outside angx, angy, heading, [get_data] does not
    raise: it fetches the attitude, prints, closes the serial link and
    returns [None]; the link the instance refers to is then closed, so the
    next telemetry call fetches on a closed link. *)
Theorem get_data_invalid_argument (self : DroneComm) (arg : string)
    (h : nat) (l l' : MultiWii) (w : World) :
  board self = Some h ->
  nth_error (links w) h = Some l ->
  MultiWii_getData l = Ok l' ->
  (arg =? "angx")%string || (arg =? "angy")%string || (arg =? "heading")%string = false ->
  let w' := {| trace := trace w ++ [getData h;
                                    print ("Invalid argument" ++ newline);
                                    closeSerial h];
               links := update (links w) h (MultiWii_closeSerial l') |} in
  get_data self arg w = (Ok None, w') /\
  the_board self w' = (Ok (h, MultiWii_closeSerial l'), w').
Proof.
  intros Hb Hl Hfetch Harg w'. split.
  - unfold get_data, board_getData, board_closeSerial, bind.
    rewrite (the_board_Some _ _ _ _ Hb Hl). cbn [fst snd]. rewrite Hfetch, Harg.
    unfold emit at 1. cbn [trace links].
    erewrite the_board_Some;
      [|exact Hb|cbn [links]; apply (nth_error_update _ _ _ _ _ Hl)].
    cbn [fst snd trace links ret]. unfold ret, w'.
    rewrite update_update, <- !app_assoc. reflexivity.
  - apply the_board_Some; [exact Hb|].
    cbn [links]. apply (nth_error_update _ _ _ _ _ Hl).
Qed.

End Telemetry.

Section Shutdown.

Context {P : Platform}.

Lemma reset_channels_links (self : DroneComm) (w : World) :
  links (snd (reset_channels self w)) = links w.
Proof.
  rewrite reset_channels_eq.
  destruct (to_ticks tie (period self) MID_WIDTH); [|reflexivity].
  destruct (to_ticks tie (period self) (MID_WIDTH + roll_pwm_trim self)); [|reflexivity].
  destruct (to_ticks tie (period self) (MID_WIDTH + pitch_pwm_trim self)); [|reflexivity].
  destruct (to_ticks tie (period self) (MID_WIDTH + yaw_pwm_trim self)); reflexivity.
Qed.

(** [exit] returns exactly when [reset_channels] and the constructor of
    the new link do; the instance then refers to the new link, closed. *)
Lemma exit_returns (self self' : DroneComm) (w w' : World) :
  exit self w = (Ok self', w') <->
  exists w1 l,
    reset_channels self w = (Ok tt, w1) /\
    MultiWii_init "/dev/ttyUSB0" = Ok l /\
    self' = {| period := period self;
               roll_pwm_trim := roll_pwm_trim self;
               pitch_pwm_trim := pitch_pwm_trim self;
               yaw_pwm_trim := yaw_pwm_trim self;
               board := Some (List.length (links w1)) |} /\
    w' = {| trace := trace w1 ++ [MultiWii_new "/dev/ttyUSB0" (List.length (links w1));
                                  closeSerial (List.length (links w1))];
            links := links w1 ++ [MultiWii_closeSerial l] |}.
Proof.
  unfold exit, board_closeSerial, bind, new_MultiWii.
  destruct (reset_channels self w) as [[[]|e] w1].
  - destruct (MultiWii_init "/dev/ttyUSB0") as [l|e].
    + erewrite the_board_Some; [|reflexivity|cbn [links]; apply nth_error_last].
      cbn [fst snd trace links]. unfold ret.
      rewrite update_last, <- app_assoc. cbn [app]. split.
      * intros H. injection H as <- <-. exists w1, l. repeat split.
      * intros (w1' & l' & Hr & Hl & -> & ->).
        injection Hr as <-. injection Hl as <-. reflexivity.
    + split; [discriminate|]. intros (w1' & l' & _ & Hl & _). discriminate.
  - split; [discriminate|]. intros (w1' & l' & Hr & _). discriminate.
Qed.

(** C2 (amended): after [exit] has returned the instance is not closed to
    commands.  [set_pitch_pwidth] does what it did before [exit]: it
    raises no state error, and whenever the conversion to ticks succeeds it
    returns normally with the pitch channel programmed at the clamped,
    trimmed width.  Telemetry calls after [exit] reach the link that
    [exit] created and closed. *)
Theorem set_pitch_pwidth_after_exit (self self' : DroneComm) (w w' : World)
    (width : float) :
  exit self w = (Ok self', w') ->
  set_pitch_pwidth self' width w' = set_pitch_pwidth self width w' /\
  (forall pulse,
     to_ticks tie (period self)
       (fst (validate_pwidth (width + pitch_pwm_trim self))) = Ok pulse ->
     exists w'',
       set_pitch_pwidth self' width w' = (Ok tt, w'') /\
       programmed PITCH_CHANNEL (trace w'') =
         Some (fst (validate_pwidth (width + pitch_pwm_trim self)), pulse) /\
       links w'' = links w') /\
  (exists h l,
     MultiWii_init "/dev/ttyUSB0" = Ok l /\
     the_board self' w' = (Ok (h, MultiWii_closeSerial l), w')).
Proof.
  intros Hexit. apply exit_returns in Hexit.
  destruct Hexit as (w1 & l & Hreset & Hinit & -> & ->).
  split; [|split].
  - rewrite !set_pitch_pwidth_eq. reflexivity.
  - intros pulse Hticks. rewrite set_pitch_pwidth_eq.
    cbv zeta. cbn [period pitch_pwm_trim]. rewrite Hticks.
    eexists. split; [reflexivity|]. cbn [trace links]. split; [|reflexivity].
    rewrite programmed_app.
    destruct (snd (validate_pwidth (width + pitch_pwm_trim self))); reflexivity.
  - exists (List.length (links w1)), l. split; [exact Hinit|].
    apply the_board_Some; [reflexivity|]. cbn [links]. apply nth_error_last.
Qed.

Lemma closed_app (h : nat) (a b : list event) :
  closed h (a ++ b) = closed h a || closed h b.
Proof. apply existsb_app. Qed.

Lemma reset_channels_closed (self : DroneComm) (w : World) (h : nat) :
  closed h (trace (snd (reset_channels self w))) = closed h (trace w).
Proof.
  rewrite reset_channels_eq.
  destruct (to_ticks tie (period self) MID_WIDTH); [|reflexivity].
  destruct (to_ticks tie (period self) (MID_WIDTH + roll_pwm_trim self));
  [destruct (to_ticks tie (period self) (MID_WIDTH + pitch_pwm_trim self));
   [destruct (to_ticks tie (period self) (MID_WIDTH + yaw_pwm_trim self))|]|];
  cbn [snd trace]; rewrite closed_app; cbn; apply orb_false_r.
Qed.

(** [exit] does nothing to the link the instance held when it was called:
    the object stays as it was and no [closeSerial] is sent to it. *)
Lemma exit_keeps_own_link (self : DroneComm) (w : World) (h : nat) (l : MultiWii) :
  board self = Some h ->
  nth_error (links w) h = Some l ->
  nth_error (links (snd (exit self w))) h = Some l /\
  closed h (trace (snd (exit self w))) = closed h (trace w).
Proof.
  intros Hb Hl.
  pose proof (reset_channels_links self w) as Hlinks.
  pose proof (reset_channels_closed self w h) as Hclosed.
  assert (Hlt : (h < List.length (links w))%nat)
    by (apply nth_error_Some; congruence).
  unfold exit, board_closeSerial, bind, new_MultiWii.
  destruct (reset_channels self w) as [[[]|e] w1]; cbn [snd] in *;
    [|rewrite Hlinks; split; assumption].
  destruct (MultiWii_init "/dev/ttyUSB0") as [l0|e];
    [|cbn [snd]; rewrite Hlinks; split; assumption].
  erewrite the_board_Some; [|reflexivity|cbn [links]; apply nth_error_last].
  cbn [fst snd trace links ret]. unfold ret. cbn [snd trace links].
  rewrite update_last, Hlinks. split.
  - rewrite nth_error_app1 by exact Hlt. exact Hl.
  - rewrite !closed_app, Hclosed. cbn.
    replace (Nat.eqb (List.length (links w)) h) with false
      by (symmetry; apply Nat.eqb_neq; lia).
    rewrite !orb_false_r. reflexivity.
Qed.

End Shutdown.

Lemma set_pitch_pwidth_after_exit_witness :
  exists w'',
    set_pitch_pwidth (P := Sim.py2)
      (fst (do_call Sim.demo call_exit Sim.boot)) 0.0015
      (snd (do_call Sim.demo call_exit Sim.boot)) = (Ok tt, w'') /\
    programmed PITCH_CHANNEL (trace w'') =
      Some (fst (validate_pwidth (0.0015 + pitch_pwm_trim Sim.demo)), 270) /\
    links w'' = links (snd (do_call (P := Sim.py2) Sim.demo call_exit Sim.boot)).
Proof.
  refine (proj1 (proj2 (set_pitch_pwidth_after_exit (P := Sim.py2)
                          Sim.demo _ Sim.boot _ 0.0015 _)) 270 _);
    vm_compute; reflexivity.
Defined.

(** C2 as stated fails: after [exit] has returned, [set_pitch_pwidth]
    returns normally and the driver receives a write on the pitch
    channel. *)
Lemma invalid_state_counterexample :
  match __init__ (P := Sim.py2) 0.022 None (PyInt 0) (PyInt 0) (PyInt 0)
          (Some "/dev/ttyUSB0"%string) Sim.boot with
  | (Ok self, w) =>
      match exit self w with
      | (Ok self', w') =>
          set_pitch_pwidth self' 0.0015 w' =
            (Ok tt, {| trace := trace w' ++ [set_pwm PITCH_CHANNEL 0.0015 0 279];
                       links := links w' |})
      | (Raise _, _) => False
      end
  | (Raise _, _) => False
  end.
Proof. vm_compute. reflexivity. Qed.

(** C8 on a port other than the fixed one: the link opened by the
    constructor on /dev/ttyUSB1 (object 0) is still open after [exit] and
    was never sent [closeSerial]; [exit] reset the channels, then opened a
    second link on /dev/ttyUSB0 (object 1), rebound [self.board] to it and
    closed that one. *)
Theorem exit_closes_fresh_link :
  match __init__ (P := Sim.py2) 0.022 None (PyInt 0) (PyInt 0) (PyInt 0)
          (Some "/dev/ttyUSB1"%string) Sim.boot with
  | (Ok self, w) =>
      board self = Some 0%nat /\
      match exit self w with
      | (Ok self', w') =>
          board self' = Some 1%nat /\
          trace w' = trace w ++ reset_writes self 279 279 279 279 ++
                       [MultiWii_new "/dev/ttyUSB0" 1; closeSerial 1] /\
          map (fun l => (Sim.port l, Sim.is_open l)) (links w') =
            [("/dev/ttyUSB1"%string, true); ("/dev/ttyUSB0"%string, false)] /\
          closed 0 (trace w') = false /\
          closed 1 (trace w') = true
      | (Raise _, _) => False
      end
  | (Raise _, _) => False
  end.
Proof. vm_compute. repeat split. Qed.



Lemma get_data_invalid_argument_witness :
  get_data (P := Sim.py2) Sim.demo "altitude" Sim.flying =
    (Ok None,
     @Build_World Sim.py2
       (trace Sim.flying ++
          [getData 0; print ("Invalid argument" ++ newline); closeSerial 0])
       [ {| Sim.port := "/dev/ttyUSB0"; Sim.is_open := false;
            Sim.angx := 1.5; Sim.angy := (-2); Sim.heading := 90 |} ]).
Proof.
  refine (proj1 (get_data_invalid_argument (P := Sim.py2) Sim.demo "altitude" 0
                   {| Sim.port := "/dev/ttyUSB0"; Sim.is_open := true;
                      Sim.angx := 0; Sim.angy := 0; Sim.heading := 0 |}
                   {| Sim.port := "/dev/ttyUSB0"; Sim.is_open := true;
                      Sim.angx := 1.5; Sim.angy := (-2); Sim.heading := 90 |}
                   Sim.flying _ _ _ _));
    vm_compute; reflexivity.
Defined.

(** * Further properties of the code

    The rest of the file goes beyond the gateway's specification: edge
    cases of the command path, the range of the tick conversion, what the
    commands and the telemetry calls leave alone, and the constructor. *)

(** ** More on [validate_pwidth] *)

(** X1: clamping twice is clamping once.  Whatever [validate_pwidth]
    returns, NaN included, it accepts unchanged and flags as valid. *)
Theorem validate_pwidth_idempotent (width : float) :
  validate_pwidth (fst (validate_pwidth width)) = (fst (validate_pwidth width), true).
Proof.
  unfold validate_pwidth.
  destruct (PrimFloat.ltb MAX_WIDTH width) eqn:Hmax; [vm_compute; reflexivity|].
  destruct (PrimFloat.ltb width MIN_WIDTH) eqn:Hmin; [vm_compute; reflexivity|].
  cbn [fst]. rewrite Hmax, Hmin. reflexivity.
Qed.

Lemma ltb_leb_false (a b : float) :
  PrimFloat.ltb a b = true -> PrimFloat.leb b a = false.
Proof.
  rewrite leb_spec, ltb_spec. unfold SFleb, SFltb.
  rewrite (SFcompare_swap (Prim2SF a) (Prim2SF b)).
  destruct (SFcompare (Prim2SF a) (Prim2SF b)) as [[ | | ]|]; simpl; congruence.
Qed.

(** On a number, [validate_pwidth] flags exactly the widths out of range
    and changes no other. *)
Lemma validate_pwidth_flag (x : float) :
  Prim2SF x <> S754_nan ->
  snd (validate_pwidth x) = in_range x /\
  (in_range x = true -> fst (validate_pwidth x) = x).
Proof.
  intros Hx. unfold validate_pwidth, in_range.
  destruct (PrimFloat.ltb MAX_WIDTH x) eqn:Hmax.
  - rewrite (ltb_leb_false _ _ Hmax), andb_false_r. split; [reflexivity|discriminate].
  - destruct (PrimFloat.ltb x MIN_WIDTH) eqn:Hmin.
    + rewrite (ltb_leb_false _ _ Hmin). split; [reflexivity|discriminate].
    + assert (Hmin' : Prim2SF MIN_WIDTH <> S754_nan) by (vm_compute; discriminate).
      assert (Hmax' : Prim2SF MAX_WIDTH <> S754_nan) by (vm_compute; discriminate).
      rewrite (not_ltb_leb x MIN_WIDTH Hx Hmin' Hmin).
      rewrite (not_ltb_leb MAX_WIDTH x Hmax' Hx Hmax).
      split; reflexivity.
Qed.

(** NaN goes through the division and the product; [int(round(.))]
    refuses it. *)
Lemma to_ticks_nan_eq (t : tie_rule) (p w : float) :
  Prim2SF w = S754_nan ->
  to_ticks t p w =
    Raise (if PrimFloat.eqb p 0 then ZeroDivisionError else ValueError).
Proof.
  intros Hw. unfold to_ticks, truediv.
  destruct (PrimFloat.eqb p 0); [reflexivity|].
  cbn [bind_result]. rewrite float_of_int_TICKS. cbn [bind_result].
  unfold int_round. rewrite mul_spec, div_spec, Hw. reflexivity.
Qed.

Lemma add_nan (w x : float) : Prim2SF w = S754_nan -> Prim2SF (w + x) = S754_nan.
Proof. intros Hw. rewrite add_spec, Hw. reflexivity. Qed.

Lemma to_ticks_not_nan (t : tie_rule) (p w : float) (v : Z) :
  to_ticks t p w = Ok v -> Prim2SF w <> S754_nan.
Proof.
  intros H Hw. destruct (to_ticks_nan t p w Hw) as [e He]. congruence.
Qed.

Lemma validated_not_nan (t : tie_rule) (p x : float) (v : Z) :
  to_ticks t p (fst (validate_pwidth x)) = Ok v -> Prim2SF x <> S754_nan.
Proof.
  intros H Hx. rewrite (validate_pwidth_nan x Hx) in H.
  exact (to_ticks_not_nan _ _ _ _ H Hx).
Qed.

(** ** Overflow, and the range of the tick conversion *)

(** The largest finite magnitude is below 2^2098 units.  A rounding that
    overflows has rounded a value that reaches 2^2098. *)
Lemma binary_round_aux_overflow (sx : bool) (n d e : Z) :
  0 <= n -> 0 < d ->
  e <= fexp64 (Zdigits2 (n / d) + e) ->
  match binary_round_aux prec emax sx (n / d) e (loc_of n d) with
  | S754_infinity _ => 2 ^ 2098 <= RN (fst (units n d e)) (snd (units n d e))
  | _ => True
  end.
Proof.
  intros Hn Hd Hk.
  assert (HRN : RN (fst (units n d e)) (snd (units n d e)) =
                rne n (d * 2 ^ (fexp64 (Zdigits2 (n / d) + e) - e)) *
                2 ^ (fexp64 (Zdigits2 (n / d) + e) + 1074)).
  { unfold RN. rewrite (units_grid n d e Hn Hd Hk).
    rewrite (units_rne n d e _ Hn Hd Hk) by (rewrite fexp64_eq; lia).
    reflexivity. }
  rewrite HRN. clear HRN.
  unfold binary_round_aux.
  pose proof (shr_fexp_spec n d e Hn Hd Hk) as Hshr. cbv zeta in Hshr.
  rewrite Hshr. clear Hshr.
  rewrite shr_m_of_loc, loc_of_shr_record_of_loc.
  destruct (floor_digits_bounds n d Hn Hd) as [Hhi Hlo].
  pose proof (Zdigits2_nonneg (n / d)) as Hdig.
  pose proof (Z.div_pos n d Hn Hd) as Hm.
  assert (HE : e + (fexp64 (Zdigits2 (n / d) + e) - e) = fexp64 (Zdigits2 (n / d) + e))
    by lia.
  rewrite HE. clear HE.
  set (dm := Zdigits2 (n / d)) in *.
  set (E := fexp64 (dm + e)) in *.
  assert (HEmin : -1074 <= E) by (unfold E; rewrite fexp64_eq; lia).
  assert (Hpk : 0 < 2 ^ (E - e)) by (apply pow2_pos; lia).
  assert (Hdk : 0 < d * 2 ^ (E - e)) by nia.
  rewrite (rne_round_nearest_even n _ Hdk).
  set (N := rne n (d * 2 ^ (E - e))) in *.
  assert (HN0 : 0 <= N) by (apply rne_ge; lia).
  assert (HN53 : N <= 2 ^ 53).
  { apply rne_le; [assumption|].
    assert (2 ^ dm <= 2 ^ 53 * 2 ^ (E - e)).
    { rewrite <- Z.pow_add_r by lia. apply Z.pow_le_mono_r; [lia|].
      unfold E. rewrite fexp64_eq. lia. }
    nia. }
  assert (HNsub : N < 2 ^ 52 -> E = -1074).
  { intros Hlt. destruct (Z.eq_dec E (-1074)) as [|Hne]; [assumption|exfalso].
    assert (HEn : E = dm + e - 53) by (unfold E in *; rewrite fexp64_eq in *; lia).
    assert (Hdm : 0 < dm) by lia.
    assert (Hpos : 0 < n / d).
    { destruct (n / d) eqn:Em; try lia. unfold dm in Hdm. cbn in Hdm. lia. }
    specialize (Hlo Hpos).
    assert (2 ^ 52 <= N); [|lia].
    apply rne_ge; [assumption|].
    replace (dm - 1) with (52 + (E - e)) in Hlo by lia.
    rewrite (Z.pow_add_r 2 52 (E - e)) in Hlo by lia. nia. }
  destruct (renormalise N E (conj HN0 HN53) HEmin HNsub) as (k2 & Hk2 & Hfk & Hval).
  pose proof (shr_fexp_spec N 1 E HN0 ltac:(lia)) as Hshr. cbv zeta in Hshr.
  rewrite Z.div_1_r, loc_of_1, Hfk in Hshr.
  rewrite Hshr by lia. clear Hshr.
  rewrite shr_m_of_loc.
  destruct (N / (1 * 2 ^ k2)) as [|m'|m'] eqn:Em'; try exact I.
  destruct (E + k2 <=? emax - prec) eqn:Hfit; [exact I|].
  apply Z.leb_gt in Hfit. change (emax - prec) with 971 in Hfit.
  assert (H52 : 2 ^ 52 <= N).
  { destruct (Z_lt_ge_dec N (2 ^ 52)) as [Hlt|]; [exfalso|lia].
    pose proof (HNsub Hlt) as HE1.
    pose proof (Zdigits2_le_53 N HN0 ltac:(lia)) as Hd53.
    rewrite fexp64_eq in Hfk. lia. }
  destruct (Z.eq_dec N (2 ^ 53)) as [Etop|Ntop].
  - rewrite Etop in *.
    replace (Zdigits2 (2 ^ 53)) with 54 in Hfk by reflexivity.
    rewrite fexp64_eq in Hfk.
    rewrite <- Z.pow_add_r by lia. apply Z.pow_le_mono_r; lia.
  - assert (Hdig53 : Zdigits2 N = 53) by (apply Zdigits2_unique; lia).
    rewrite Hdig53, fexp64_eq in Hfk.
    replace (2 ^ 2098) with (2 ^ 52 * 2 ^ 2046)
      by (rewrite <- Z.pow_add_r by lia; reflexivity).
    apply Z.mul_le_mono_nonneg; [lia|exact H52|lia|].
    apply Z.pow_le_mono_r; lia.
Qed.

(** A quotient of finite values that is an infinity: the exact quotient
    rounds to 2^2098 units or more. *)
Lemma SF64div_overflow (sx sy : bool) (mx my : positive) (ex ey : Z) (s0 : bool) :
  Zdigits2 (Zpos mx) <= 53 -> -1074 <= ex -> -1074 <= ey ->
  let x := S754_finite sx mx ex in
  let y := S754_finite sy my ey in
  SF64div x y = S754_infinity s0 ->
  exists a b, 0 <= a /\ 0 < b /\
    a * mag_of y = mag_of x * 2 ^ 1074 * b /\
    2 ^ 2098 <= RN a b.
Proof.
  intros Hdx Hex Hey x y. unfold x, y, SF64div, SFdiv, SFdiv_core_binary.
  destruct (div_core_precision mx my ex ey Hdx) as [Hs Hprec].
  cbv zeta in Hs, Hprec. change (fexp prec emax) with fexp64.
  set (e' := Z.min (fexp64 (Zdigits2 (Zpos mx) + ex - (Zdigits2 (Zpos my) + ey))) (ex - ey)) in *.
  set (s := ex - ey - e') in *.
  rewrite (shiftl_or_0 (Zpos mx) s Hs).
  set (n := Zpos mx * 2 ^ s) in *.
  assert (Hn : 0 <= n) by (pose proof (pow2_pos s Hs); unfold n; nia).
  rewrite div_eucl_div_mod.
  rewrite (new_location_spec (Zpos my) (n mod Zpos my))
    by (try lia; apply Z.mod_pos_bound; lia).
  change (if n mod Zpos my =? 0 then loc_Exact
          else loc_Inexact (2 * (n mod Zpos my) ?= Zpos my)) with (loc_of n (Zpos my)).
  pose proof (binary_round_aux_overflow (xorb sx sy) n (Zpos my) e' Hn ltac:(lia) Hprec) as HR.
  destruct (units_pos n (Zpos my) e' Hn ltac:(lia)) as [Ha Hb].
  assert (Hcross : fst (units n (Zpos my) e') * (Zpos my * 2 ^ (ey + 1074)) =
                   Zpos mx * 2 ^ (ex + 1074) * 2 ^ 1074 * snd (units n (Zpos my) e')).
  { unfold units, n. destruct (Z.leb_spec (-1074) e'); cbn [fst snd].
    - assert (Hp : 2 ^ s * 2 ^ (e' + 1074) * 2 ^ (ey + 1074) = 2 ^ (ex + 1074) * 2 ^ 1074).
      { rewrite <- !Z.pow_add_r by lia. f_equal. unfold s. lia. }
      nia.
    - assert (Hp : 2 ^ s * 2 ^ (ey + 1074) = 2 ^ (ex + 1074) * 2 ^ 1074 * 2 ^ (-1074 - e')).
      { rewrite <- !Z.pow_add_r by lia. f_equal. unfold s. lia. }
      nia. }
  intros Hinf. rewrite Hinf in HR.
  exists (fst (units n (Zpos my) e')), (snd (units n (Zpos my) e')).
  split; [exact Ha|]. split; [exact Hb|]. split; [exact Hcross|exact HR].
Qed.

Lemma SF64mul_4096_overflow (sx : bool) (mx : positive) (ex : Z) (s0 : bool) :
  -1074 <= ex ->
  let x := S754_finite sx mx ex in
  SF64mul x (S754_finite false 4503599627370496 (-40)) = S754_infinity s0 ->
  exists a b, 0 <= a /\ 0 < b /\
    a * 1 = mag_of x * 4096 * b /\
    2 ^ 2098 <= RN a b.
Proof.
  intros Hex x. unfold x, SF64mul, SFmul. clear x.
  rewrite xorb_false_r, Pos2Z.inj_mul, two_52.
  set (n := Zpos mx * 2 ^ 52).
  assert (Hn : 0 <= n) by (unfold n; lia).
  assert (Hn52 : 2 ^ 52 <= n) by (unfold n; lia).
  assert (Hprec : ex + -40 <= fexp64 (Zdigits2 (n / 1) + (ex + -40))).
  { rewrite Z.div_1_r, fexp64_eq.
    pose proof (Zdigits2_ge n 53 ltac:(lia) Hn52). lia. }
  pose proof (binary_round_aux_overflow sx n 1 (ex + -40) Hn ltac:(lia) Hprec) as HR.
  rewrite Z.div_1_r, loc_of_1 in HR.
  destruct (units_pos n 1 (ex + -40) Hn ltac:(lia)) as [Ha Hb].
  assert (Hcross : fst (units n 1 (ex + -40)) * 1 =
                   Zpos mx * 2 ^ (ex + 1074) * 4096 * snd (units n 1 (ex + -40))).
  { unfold units, n. destruct (Z.leb_spec (-1074) (ex + -40)); cbn [fst snd].
    - assert (Hp : 2 ^ 52 * 2 ^ (ex + -40 + 1074) = 2 ^ (ex + 1074) * 2 ^ 12).
      { rewrite <- !Z.pow_add_r by lia. f_equal. lia. }
      change 4096 with (2 ^ 12). nia.
    - assert (Hp : 2 ^ 52 = 2 ^ (ex + 1074) * 2 ^ 12 * 2 ^ (-1074 - (ex + -40))).
      { rewrite <- !Z.pow_add_r by lia. f_equal. lia. }
      change 4096 with (2 ^ 12). nia. }
  intros Hinf. rewrite Hinf in HR.
  exists (fst (units n 1 (ex + -40))), (snd (units n 1 (ex + -40))).
  split; [exact Ha|]. split; [exact Hb|]. split; [exact Hcross|exact HR].
Qed.

(** A valid value is below 2^2098 units. *)
Lemma valid_mag_top (x : spec_float) :
  valid_binary x = true -> mag_of x < 2 ^ 2098.
Proof.
  destruct x as [s|s| |s m e]; cbn [mag_of]; try (intros _; apply pow2_pos; lia).
  intros Hv. destruct (valid_finite _ _ _ Hv) as (He & Hd & _).
  cbn [valid_binary] in Hv. unfold bounded in Hv.
  apply andb_true_iff in Hv as [_ Htop]. apply Z.leb_le in Htop.
  change (emax - prec) with 971 in Htop.
  pose proof (Zdigits2_bounds m) as [_ Hhi].
  assert (Hm : Zpos m < 2 ^ 53).
  { eapply Z.lt_le_trans; [exact Hhi|]. apply Z.pow_le_mono_r; lia. }
  assert (Hp : 2 ^ (e + 1074) <= 2 ^ 2045) by (apply Z.pow_le_mono_r; lia).
  pose proof (pow2_pos (e + 1074) ltac:(lia)) as Hpos.
  replace (2 ^ 2098) with (2 ^ 53 * 2 ^ 2045)
    by (rewrite <- Z.pow_add_r by lia; reflexivity).
  apply Z.lt_le_trans with (2 ^ 53 * 2 ^ (e + 1074)).
  - apply Z.mul_lt_mono_pos_r; assumption.
  - apply Z.mul_le_mono_nonneg_l; [lia|exact Hp].
Qed.

Lemma rounds_to_mag_mono (c d : Z) (x1 x2 r1 r2 : spec_float) :
  0 < c -> 0 < d ->
  rounds_to c d x1 r1 -> rounds_to c d x2 r2 ->
  mag_of x1 <= mag_of x2 -> mag_of r1 <= mag_of r2.
Proof.
  intros Hc Hd (_ & a1 & b1 & Ha1 & Hb1 & Hx1 & Hr1) (_ & a2 & b2 & Ha2 & Hb2 & Hx2 & Hr2) Hle.
  rewrite Hr1, Hr2. apply RN_mono; try assumption.
  apply (cross_le c d a1 b1 a2 b2 (mag_of x1) (mag_of x2)); assumption.
Qed.

Lemma mag_P_pos (mp : positive) (ep : Z) :
  -1074 <= ep -> 0 < mag_of (S754_finite false mp ep).
Proof.
  intros Hep. cbn [mag_of]. pose proof (pow2_pos (ep + 1074) ltac:(lia)). nia.
Qed.

(** A quotient by a positive finite value does not overflow when the
    quotient of a larger magnitude does not. *)
Lemma div_defined (x x' : spec_float) (mp : positive) (ep : Z) :
  valid_binary x = true -> valid_binary x' = true -> -1074 <= ep ->
  is_number x = true ->
  mag_of x <= mag_of x' ->
  is_number (SF64div x' (S754_finite false mp ep)) = true ->
  valid_binary (SF64div x' (S754_finite false mp ep)) = true ->
  is_number (SF64div x (S754_finite false mp ep)) = true.
Proof.
  intros Hv Hv' Hep Hx Hle Hq' Hvq'.
  destruct x as [s|s| |s m e]; try discriminate; [reflexivity|].
  destruct (valid_finite s m e Hv) as (He & Hd & _).
  destruct (SF64div_finite s false m mp e ep Hd He Hep) as (Hnan & _).
  cbv zeta in Hnan.
  destruct (SF64div (S754_finite s m e) (S754_finite false mp ep)) as [s0|s0| |s0 m0 e0] eqn:Eq;
    try reflexivity; [exfalso|congruence].
  destruct (SF64div_overflow s false m mp e ep s0 Hd He Hep Eq) as (a & b & Ha & Hb & Hc & Htop).
  destruct (div_stage x' mp ep Hv' Hep Hq') as (_ & _ & _ & a' & b' & Ha' & Hb' & Hc' & Hr').
  pose proof (valid_mag_top _ Hvq') as Hlt. rewrite Hr' in Hlt.
  assert (RN a b <= RN a' b'); [|lia].
  apply RN_mono; try assumption.
  apply (cross_le (2 ^ 1074) (mag_of (S754_finite false mp ep)) a b a' b'
           (mag_of (S754_finite s m e)) (mag_of x')); try assumption.
  - apply pow2_pos. lia.
  - apply mag_P_pos, Hep.
Qed.

Lemma mul_defined (q q' : spec_float) :
  on_grid q -> on_grid q' ->
  is_number q = true ->
  mag_of q <= mag_of q' ->
  is_number (SF64mul q' (S754_finite false 4503599627370496 (-40))) = true ->
  valid_binary (SF64mul q' (S754_finite false 4503599627370496 (-40))) = true ->
  is_number (SF64mul q (S754_finite false 4503599627370496 (-40))) = true.
Proof.
  intros Hg Hg' Hq Hle Hr' Hvr'.
  destruct q as [s|s| |s m e]; try discriminate; [reflexivity|].
  cbn [on_grid] in Hg.
  destruct (SF64mul_4096 s m e Hg) as (Hnan & _). cbv zeta in Hnan.
  destruct (SF64mul (S754_finite s m e) (S754_finite false 4503599627370496 (-40)))
    as [s0|s0| |s0 m0 e0] eqn:Eq; try reflexivity; [exfalso|congruence].
  destruct (SF64mul_4096_overflow s m e s0 Hg Eq) as (a & b & Ha & Hb & Hc & Htop).
  destruct (mul_stage q' Hg' Hr') as (_ & _ & _ & a' & b' & Ha' & Hb' & Hc' & Hrn').
  pose proof (valid_mag_top _ Hvr') as Hlt. rewrite Hrn' in Hlt.
  assert (RN a b <= RN a' b'); [|lia].
  apply RN_mono; try assumption.
  apply (cross_le 4096 1 a b a' b' (mag_of (S754_finite s m e)) (mag_of q'));
    try assumption; lia.
Qed.

Lemma ltb_0_eqb (p : float) :
  PrimFloat.ltb 0 p = true -> PrimFloat.eqb p 0 = false.
Proof.
  rewrite ltb_spec, eqb_spec. unfold SFltb, SFeqb.
  rewrite (SFcompare_swap (Prim2SF 0) (Prim2SF p)).
  destruct (SFcompare (Prim2SF 0) (Prim2SF p)) as [[ | | ]|]; cbn; congruence.
Qed.

(** [to_ticks] returns as soon as the product is a number. *)
Lemma to_ticks_number (t : tie_rule) (p w : float) :
  PrimFloat.eqb p 0 = false ->
  let r := SF64mul (SF64div (Prim2SF w) (Prim2SF p))
             (S754_finite false 4503599627370496 (-40)) in
  is_number r = true ->
  to_ticks t p w = Ok (if neg_of r then - rmag t r else rmag t r).
Proof.
  intros Hp r Hr. unfold to_ticks, truediv. rewrite Hp. cbn [bind_result].
  rewrite float_of_int_TICKS. cbn [bind_result].
  unfold int_round. rewrite mul_spec, div_spec, Prim2SF_4096. fold r.
  destruct r as [s|s| |s m e]; try discriminate; cbn [neg_of rmag].
  - destruct s; reflexivity.
  - reflexivity.
Qed.

(** What lies between two numbers is a number. *)
Lemma between_number (x1 x x2 : spec_float) :
  is_number x1 = true -> is_number x2 = true ->
  SFleb x1 x = true -> SFleb x x2 = true -> is_number x = true.
Proof.
  unfold SFleb.
  destruct x1 as [s1|s1| |s1 m1 e1]; try discriminate;
  destruct x2 as [s2|s2| |s2 m2 e2]; try discriminate;
  destruct x as [s|s| |s m e]; try reflexivity; intros _ _ H1 H2;
  cbn [SFcompare] in H1, H2; try discriminate;
  destruct s; try discriminate; try destruct s1; try destruct s2; discriminate.
Qed.

Lemma sv_mag (x1 x x2 : spec_float) :
  sv x1 <= sv x -> sv x <= sv x2 -> mag_of x <= mag_of x1 \/ mag_of x <= mag_of x2.
Proof.
  unfold sv. pose proof (mag_of_nonneg x1). pose proof (mag_of_nonneg x2).
  pose proof (mag_of_nonneg x).
  destruct (neg_of x1), (neg_of x), (neg_of x2); lia.
Qed.

Lemma number_of_product (q : spec_float) :
  q <> S754_nan -> (forall s, q <> S754_infinity s) -> is_number q = true.
Proof.
  intros Hnan Hinf. destruct q; try reflexivity; [destruct (Hinf s); reflexivity|congruence].
Qed.

(** The order of the ticks on the specification side, for a finite
    period. *)
Lemma ticks_order (t : tie_rule) (x1 x2 : spec_float) (mp : positive) (ep : Z) :
  valid_binary x1 = true -> valid_binary x2 = true -> -1074 <= ep ->
  SFleb x1 x2 = true ->
  let c := S754_finite false 4503599627370496 (-40) in
  let r1 := SF64mul (SF64div x1 (S754_finite false mp ep)) c in
  let r2 := SF64mul (SF64div x2 (S754_finite false mp ep)) c in
  is_number r1 = true -> is_number r2 = true ->
  (if neg_of r1 then - rmag t r1 else rmag t r1) <=
  (if neg_of r2 then - rmag t r2 else rmag t r2).
Proof.
  intros Hv1 Hv2 Hep Hw c r1 r2 Hn1 Hn2. unfold r1, r2 in *.
  set (q1 := SF64div x1 (S754_finite false mp ep)) in *.
  set (q2 := SF64div x2 (S754_finite false mp ep)) in *.
  assert (Hq1 : is_number q1 = true).
  { destruct (number_mul_4096 q1 Hn1). apply number_of_product; assumption. }
  assert (Hq2 : is_number q2 = true).
  { destruct (number_mul_4096 q2 Hn2). apply number_of_product; assumption. }
  destruct (div_stage x1 mp ep Hv1 Hep Hq1) as (Hx1 & Hg1 & Hr1).
  destruct (div_stage x2 mp ep Hv2 Hep Hq2) as (Hx2 & Hg2 & Hr2).
  fold q1 in Hg1, Hr1. fold q2 in Hg2, Hr2.
  destruct (mul_stage q1 Hg1 Hn1) as (_ & Hgr1 & Hrr1).
  destruct (mul_stage q2 Hg2 Hn2) as (_ & Hgr2 & Hrr2).
  apply ticks_mono; try assumption.
  apply (rounds_to_mono 4096 1 q1 q2); try assumption; try lia.
  apply (rounds_to_mono (2 ^ 1074) (mag_of (S754_finite false mp ep)) x1 x2);
    try assumption.
  - apply pow2_pos. lia.
  - apply mag_P_pos, Hep.
  - apply SFleb_sv; assumption.
Qed.

(** The ticks of a magnitude below one that converts, for a finite
    period. *)
Lemma ticks_defined (x x' : spec_float) (mp : positive) (ep : Z) :
  valid_binary x = true -> valid_binary x' = true -> -1074 <= ep ->
  is_number x = true -> mag_of x <= mag_of x' ->
  let c := S754_finite false 4503599627370496 (-40) in
  let r := SF64mul (SF64div x (S754_finite false mp ep)) c in
  let r' := SF64mul (SF64div x' (S754_finite false mp ep)) c in
  valid_binary (SF64div x' (S754_finite false mp ep)) = true ->
  valid_binary r' = true ->
  is_number r' = true -> is_number r = true.
Proof.
  intros Hv Hv' Hep Hx Hle c r r' Hvq' Hvr' Hn'. unfold r, r' in *.
  set (q := SF64div x (S754_finite false mp ep)) in *.
  set (q' := SF64div x' (S754_finite false mp ep)) in *.
  assert (Hq' : is_number q' = true).
  { destruct (number_mul_4096 q' Hn'). apply number_of_product; assumption. }
  assert (Hq : is_number q = true) by (apply (div_defined x x' mp ep); assumption).
  destruct (div_stage x mp ep Hv Hep Hq) as (_ & Hg & Hr).
  destruct (div_stage x' mp ep Hv' Hep Hq') as (_ & Hg' & Hr').
  fold q in Hg, Hr. fold q' in Hg', Hr'.
  apply (mul_defined q q'); try assumption.
  apply (rounds_to_mag_mono (2 ^ 1074) (mag_of (S754_finite false mp ep)) x x');
    try assumption.
  - apply pow2_pos. lia.
  - apply mag_P_pos, Hep.
Qed.

Lemma product_valid (p w : float) :
  valid_binary (SF64div (Prim2SF w) (Prim2SF p)) = true /\
  valid_binary (SF64mul (SF64div (Prim2SF w) (Prim2SF p))
                  (S754_finite false 4503599627370496 (-40))) = true.
Proof.
  rewrite <- Prim2SF_4096, <- div_spec, <- mul_spec. split; apply Prim2SF_valid.
Qed.

(** Between two widths that convert, every width converts. *)
Lemma to_ticks_defined (t : tie_rule) (p w1 w w2 : float) (t1 t2 : Z) :
  PrimFloat.ltb 0 p = true ->
  PrimFloat.leb w1 w = true -> PrimFloat.leb w w2 = true ->
  to_ticks t p w1 = Ok t1 -> to_ticks t p w2 = Ok t2 ->
  exists v, to_ticks t p w = Ok v.
Proof.
  intros Hp Hlo Hhi H1 H2.
  pose proof (ltb_0_eqb p Hp) as Hp0.
  apply to_ticks_Ok in H1. apply to_ticks_Ok in H2. cbv zeta in H1, H2.
  destruct H1 as [Hn1 _]. destruct H2 as [Hn2 _].
  eexists. apply (to_ticks_number t p w Hp0).
  rewrite ltb_spec in Hp. rewrite leb_spec in Hlo, Hhi.
  pose proof (Prim2SF_valid p) as Hvp.
  pose proof (Prim2SF_valid w1) as Hv1.
  pose proof (Prim2SF_valid w2) as Hv2.
  pose proof (Prim2SF_valid w) as Hv.
  destruct (product_valid p w1) as [Hvq1 Hvr1].
  destruct (product_valid p w2) as [Hvq2 Hvr2].
  change (Prim2SF 0) with (S754_zero false) in Hp.
  set (c := S754_finite false 4503599627370496 (-40)) in *.
  assert (Hx1 : is_number (Prim2SF w1) = true).
  { destruct (Prim2SF w1), (Prim2SF p); try reflexivity; discriminate. }
  assert (Hx2 : is_number (Prim2SF w2) = true).
  { destruct (Prim2SF w2), (Prim2SF p); try reflexivity; discriminate. }
  pose proof (between_number _ _ _ Hx1 Hx2 Hlo Hhi) as Hx.
  destruct (Prim2SF p) as [sp|sp| |sp mp ep] eqn:Ep; try discriminate.
  - destruct (Prim2SF w); try discriminate; reflexivity.
  - assert (sp = false) by (destruct sp; [discriminate|reflexivity]). subst sp.
    destruct (valid_finite _ _ _ Hvp) as (Hep & _).
    pose proof (SFleb_sv _ _ Hv1 Hv Hx1 Hx Hlo) as Hs1.
    pose proof (SFleb_sv _ _ Hv Hv2 Hx Hx2 Hhi) as Hs2.
    destruct (sv_mag _ _ _ Hs1 Hs2) as [Hm|Hm].
    + apply (ticks_defined (Prim2SF w) (Prim2SF w1) mp ep); assumption.
    + apply (ticks_defined (Prim2SF w) (Prim2SF w2) mp ep); assumption.
Qed.

(** The order of the ticks is the order of the widths. *)
Lemma to_ticks_order (t : tie_rule) (p w1 w2 : float) (t1 t2 : Z) :
  PrimFloat.ltb 0 p = true ->
  PrimFloat.leb w1 w2 = true ->
  to_ticks t p w1 = Ok t1 -> to_ticks t p w2 = Ok t2 ->
  t1 <= t2.
Proof.
  intros Hp Hw H1 H2.
  apply to_ticks_Ok in H1. apply to_ticks_Ok in H2. cbv zeta in H1, H2.
  destruct H1 as [Hn1 ->]. destruct H2 as [Hn2 ->].
  rewrite ltb_spec in Hp. rewrite leb_spec in Hw.
  pose proof (Prim2SF_valid p) as Hvp.
  pose proof (Prim2SF_valid w1) as Hv1.
  pose proof (Prim2SF_valid w2) as Hv2.
  change (Prim2SF 0) with (S754_zero false) in Hp.
  destruct (Prim2SF p) as [sp|sp| |sp mp ep] eqn:Ep; try discriminate.
  - assert (Hz : forall x,
              is_number (SF64mul (SF64div x (S754_infinity sp))
                           (S754_finite false 4503599627370496 (-40))) = true ->
              rmag t (SF64mul (SF64div x (S754_infinity sp))
                        (S754_finite false 4503599627370496 (-40))) = 0).
    { intros [s|s| |s m e]; cbn; intros H; try discriminate; reflexivity. }
    rewrite (Hz _ Hn1), (Hz _ Hn2).
    destruct (neg_of _), (neg_of _); lia.
  - assert (sp = false) by (destruct sp; [discriminate|reflexivity]). subst sp.
    destruct (valid_finite _ _ _ Hvp) as (Hep & _).
    apply ticks_order; assumption.
Qed.

(** X2: the conversion has no gap.  For a period above zero, a width
    between two widths that convert converts as well, to a tick value
    between theirs: no overflow and no error in between. *)
Theorem to_ticks_between (t : tie_rule) (period w1 w w2 : float) (t1 t2 : Z) :
  PrimFloat.ltb 0 period = true ->
  PrimFloat.leb w1 w = true -> PrimFloat.leb w w2 = true ->
  to_ticks t period w1 = Ok t1 -> to_ticks t period w2 = Ok t2 ->
  exists v, to_ticks t period w = Ok v /\ t1 <= v <= t2.
Proof.
  intros Hp Hlo Hhi H1 H2.
  destruct (to_ticks_defined t period w1 w w2 t1 t2 Hp Hlo Hhi H1 H2) as [v Hv].
  exists v. split; [exact Hv|]. split.
  - exact (to_ticks_order t period w1 w t1 v Hp Hlo H1 Hv).
  - exact (to_ticks_order t period w w2 v t2 Hp Hhi Hv H2).
Qed.

Lemma to_ticks_zero (t : tie_rule) (p : float) :
  PrimFloat.ltb 0 p = true -> to_ticks t p 0 = Ok 0.
Proof.
  intros Hp. pose proof (ltb_0_eqb p Hp) as Hp0.
  rewrite ltb_spec in Hp. change (Prim2SF 0) with (S754_zero false) in Hp.
  assert (Hr : SF64mul (SF64div (Prim2SF 0) (Prim2SF p))
                 (S754_finite false 4503599627370496 (-40)) = S754_zero false).
  { change (Prim2SF 0) with (S754_zero false).
    destruct (Prim2SF p) as [sp|sp| |sp mp ep]; try discriminate;
      destruct sp; try discriminate; reflexivity. }
  rewrite (to_ticks_number t p 0 Hp0); rewrite Hr; reflexivity.
Qed.

Lemma in_range_bounds (v : float) :
  in_range v = true ->
  PrimFloat.leb MIN_WIDTH v = true /\ PrimFloat.leb v MAX_WIDTH = true.
Proof. unfold in_range. apply andb_true_iff. Qed.

(** The ticks of a clamped width, when [MAX_WIDTH] converts. *)
Lemma clamped_ticks (t : tie_rule) (p : float) (hi : Z) :
  PrimFloat.ltb 0 p = true ->
  to_ticks t p MAX_WIDTH = Ok hi ->
  exists lo,
    to_ticks t p MIN_WIDTH = Ok lo /\ 0 <= lo <= hi /\
    forall x, Prim2SF x <> S754_nan ->
      exists pulse,
        to_ticks t p (fst (validate_pwidth x)) = Ok pulse /\ lo <= pulse <= hi.
Proof.
  intros Hp Hhi.
  pose proof (to_ticks_zero t p Hp) as H0.
  assert (H0min : PrimFloat.leb 0 MIN_WIDTH = true) by (vm_compute; reflexivity).
  assert (Hminmax : PrimFloat.leb MIN_WIDTH MAX_WIDTH = true) by (vm_compute; reflexivity).
  destruct (to_ticks_defined t p 0 MIN_WIDTH MAX_WIDTH 0 hi Hp H0min Hminmax H0 Hhi)
    as [lo Hlo].
  exists lo. split; [exact Hlo|]. split.
  - split.
    + exact (to_ticks_order t p 0 MIN_WIDTH 0 lo Hp H0min H0 Hlo).
    + exact (to_ticks_order t p MIN_WIDTH MAX_WIDTH lo hi Hp Hminmax Hlo Hhi).
  - intros x Hx.
    destruct (in_range_bounds _ (validate_pwidth_in_range x Hx)) as [Hge Hle].
    destruct (to_ticks_defined t p MIN_WIDTH _ MAX_WIDTH lo hi Hp Hge Hle Hlo Hhi)
      as [pulse Hpulse].
    exists pulse. split; [exact Hpulse|]. split.
    + exact (to_ticks_order t p MIN_WIDTH _ lo pulse Hp Hge Hlo Hpulse).
    + exact (to_ticks_order t p _ MAX_WIDTH pulse hi Hp Hle Hpulse Hhi).
Qed.

Lemma rne_exact (K d : Z) : 0 < d -> rne (K * d) d = K.
Proof.
  intros Hd. apply Z.le_antisymm; [apply rne_le|apply rne_ge]; lia.
Qed.

(** A power of two is its own rounding. *)
Lemma RN_pow2 (k b : Z) : 0 <= k -> 0 < b -> RN (2 ^ k * b) b = 2 ^ k.
Proof.
  intros Hk Hb. unfold RN, grid.
  rewrite Z.div_mul by lia. rewrite Z.log2_pow2 by lia.
  set (g := Z.max 0 (k + 1 - 53)).
  assert (Hg : 0 <= g <= k) by (unfold g; lia).
  assert (Hpk : 2 ^ k = 2 ^ (k - g) * 2 ^ g).
  { rewrite <- Z.pow_add_r by lia. f_equal. lia. }
  rewrite Hpk at 1.
  replace (2 ^ (k - g) * 2 ^ g * b) with (2 ^ (k - g) * (b * 2 ^ g)) by ring.
  rewrite rne_exact by (pose proof (pow2_pos g ltac:(lia)); nia).
  symmetry. exact Hpk.
Qed.

Lemma nearest_exact (t : tie_rule) (K d : Z) : 0 < d -> nearest t (K * d) d = K.
Proof.
  intros Hd. apply Z.le_antisymm; [apply nearest_le|apply nearest_ge]; lia.
Qed.

(** A finite positive value divided by itself is one, and one times 4096
    rounds to 4096. *)
Lemma ticks_of_period (t : tie_rule) (mp : positive) (ep : Z) :
  valid_binary (S754_finite false mp ep) = true ->
  let r := SF64mul (SF64div (S754_finite false mp ep) (S754_finite false mp ep))
             (S754_finite false 4503599627370496 (-40)) in
  is_number r = true /\ neg_of r = false /\ rmag t r = 4096.
Proof.
  intros Hv r. unfold r. clear r.
  destruct (valid_finite _ _ _ Hv) as (Hep & Hd & _).
  pose proof (mag_P_pos mp ep Hep) as HM.
  pose proof (pow2_pos 1074 ltac:(lia)) as HA.
  assert (Hlt1 : 2 ^ 1074 < 2 ^ 2098) by (apply Z.pow_lt_mono_r; lia).
  assert (Hlt2 : 2 ^ 1086 < 2 ^ 2098) by (apply Z.pow_lt_mono_r; lia).
  assert (H1086 : 2 ^ 1086 = 4096 * 2 ^ 1074).
  { change 4096 with (2 ^ 12). rewrite <- Z.pow_add_r by lia. reflexivity. }
  destruct (SF64div_finite false false mp mp ep ep Hd Hep Hep) as (Hnan & Hneg & Hgrid & Hrn).
  cbv zeta in Hnan, Hneg, Hgrid, Hrn.
  pose proof (fun s0 => SF64div_overflow false false mp mp ep ep s0 Hd Hep Hep) as Hover.
  cbv zeta in Hover.
  set (M := mag_of (S754_finite false mp ep)) in *.
  set (q := SF64div (S754_finite false mp ep) (S754_finite false mp ep)) in *.
  assert (Hcancel : forall a b, a * M = M * 2 ^ 1074 * b -> a = 2 ^ 1074 * b).
  { intros a b H. apply (Z.mul_cancel_r _ _ M); [lia|]. rewrite H. ring. }
  assert (Hq : is_number q = true).
  { destruct q as [s0|s0| |s0 m0 e0] eqn:Eq; try reflexivity; [exfalso|congruence].
    destruct (Hover s0 eq_refl) as (a & b & Ha & Hb & Hc & Htop).
    rewrite (Hcancel a b Hc), RN_pow2 in Htop by lia. lia. }
  destruct (Hrn Hq) as (a & b & Ha & Hb & Hc & Hmag).
  rewrite (Hcancel a b Hc), RN_pow2 in Hmag by lia.
  clear Hrn Hover Hcancel Hc.
  destruct q as [s|s| |s m e]; try discriminate.
  cbn [neg_of xorb] in Hneg. subst s. cbn [on_grid] in Hgrid.
  destruct (SF64mul_4096 false m e Hgrid) as (Hnan' & Hneg' & Hgrid' & Hrn').
  cbv zeta in Hnan', Hneg', Hgrid', Hrn'.
  pose proof (fun s0 => SF64mul_4096_overflow false m e s0 Hgrid) as Hover'.
  cbv zeta in Hover'.
  set (r := SF64mul (S754_finite false m e) (S754_finite false 4503599627370496 (-40))) in *.
  assert (Hcancel' : forall a b,
            a * 1 = mag_of (S754_finite false m e) * 4096 * b -> a = 2 ^ 1086 * b).
  { intros a' b' H. rewrite Hmag in H. rewrite H1086. lia. }
  assert (Hr : is_number r = true).
  { destruct r as [s0|s0| |s0 m0 e0] eqn:Er; try reflexivity; [exfalso|congruence].
    destruct (Hover' s0 eq_refl) as (a' & b' & Ha' & Hb' & Hc' & Htop).
    rewrite (Hcancel' a' b' Hc'), RN_pow2 in Htop by lia. lia. }
  split; [exact Hr|]. split; [exact Hneg'|].
  destruct (Hrn' Hr) as (a' & b' & Ha' & Hb' & Hc' & Hmag').
  rewrite (Hcancel' a' b' Hc'), RN_pow2 in Hmag' by lia.
  destruct r as [s0|s0| |s0 m0 e0]; try discriminate.
  cbn [rmag]. cbn [on_grid] in Hgrid'. cbn [mag_of] in Hmag'.
  destruct (round_mag_units t m0 e0 Hgrid') as (n & d & Hn & Hd0 & -> & Hunits).
  rewrite Hmag', H1086 in Hunits.
  assert (En : n = 4096 * d).
  { apply (Z.mul_cancel_r _ _ (2 ^ 1074)); [lia|]. rewrite Hunits. ring. }
  rewrite En. apply nearest_exact, Hd0.
Qed.

(** A pulse as long as the period is [TICKS] ticks. *)
Lemma to_ticks_period (t : tie_rule) (p : float) :
  PrimFloat.ltb 0 p = true -> PrimFloat.ltb p infinity = true ->
  to_ticks t p p = Ok TICKS.
Proof.
  intros Hp Hfin. pose proof (ltb_0_eqb p Hp) as Hp0.
  pose proof (Prim2SF_valid p) as Hvp.
  rewrite ltb_spec in Hp, Hfin.
  change (Prim2SF 0) with (S754_zero false) in Hp.
  change (Prim2SF infinity) with (S754_infinity false) in Hfin.
  pose proof (to_ticks_number t p p Hp0) as Hnum. cbv zeta in Hnum.
  destruct (Prim2SF p) as [sp|sp| |sp mp ep]; try discriminate.
  - destruct sp; discriminate.
  - assert (sp = false) by (destruct sp; [discriminate|reflexivity]). subst sp.
    destruct (ticks_of_period t mp ep Hvp) as (Hr & Hneg & Hmag).
    cbv zeta in Hr, Hneg, Hmag.
    rewrite (Hnum Hr), Hneg, Hmag. reflexivity.
Qed.

(** X3: for a finite period above zero, a width equal to the period
    converts to [TICKS], and every width from zero up to the period
    converts, to a tick value from 0 to [TICKS]: a pulse that fits in the
    cycle never raises and never exceeds the cycle. *)
Theorem pulse_within_period (t : tie_rule) (period w : float) :
  PrimFloat.ltb 0 period = true -> PrimFloat.ltb period infinity = true ->
  PrimFloat.leb 0 w = true -> PrimFloat.leb w period = true ->
  to_ticks t period period = Ok TICKS /\
  exists v, to_ticks t period w = Ok v /\ 0 <= v <= TICKS.
Proof.
  intros Hp Hfin Hlo Hhi.
  pose proof (to_ticks_zero t period Hp) as H0.
  pose proof (to_ticks_period t period Hp Hfin) as H1.
  split; [exact H1|].
  destruct (to_ticks_defined t period 0 w period 0 TICKS Hp Hlo Hhi H0 H1) as [v Hv].
  exists v. split; [exact Hv|]. split.
  - exact (to_ticks_order t period 0 w 0 v Hp Hlo H0 Hv).
  - exact (to_ticks_order t period w period v TICKS Hp Hhi Hv H1).
Qed.

Lemma mul_le_cancel (k x y : Z) : 0 < k -> k * x <= k * y -> x <= y.
Proof. intros Hk H. apply (Z.mul_le_mono_pos_l _ _ k); assumption. Qed.

(** One half of the error bound: the rounding of the quotient and the
    final [round] put the ticks at most half a tick and a 2^41th of a tick
    above the exact value; [accuracy_lower] is the other half. *)
Lemma accuracy_upper (M W a b Q G n d A v : Z) :
  0 < M -> 0 < b -> 0 < d -> 0 < A -> 0 <= G ->
  a * M = W * A * b ->
  2 * Q * b <= 2 * a + G * b ->
  n * A = 4096 * Q * d ->
  2 * v * d <= 2 * n + d ->
  4096 * G * 2 ^ 40 <= A ->
  2 ^ 41 * (v * M - 4096 * W) <= (2 ^ 40 + 1) * M.
Proof.
  intros HM Hb Hd HA HG Ha HQ Hn Hv HGA.
  set (D := v * M - 4096 * W).
  (* 2 A b d D <= b d M (4096 G + A) *)
  assert (H1 : (A * b * M) * (2 * v * d) <= (A * b * M) * (2 * n + d)).
  { apply Z.mul_le_mono_nonneg_l; [|exact Hv].
    apply Z.mul_nonneg_nonneg; [apply Z.mul_nonneg_nonneg|]; lia. }
  assert (H2 : (4096 * d * M) * (2 * Q * b) <= (4096 * d * M) * (2 * a + G * b)).
  { apply Z.mul_le_mono_nonneg_l; [|exact HQ].
    apply Z.mul_nonneg_nonneg; [apply Z.mul_nonneg_nonneg|]; lia. }
  assert (E1 : A * b * M * (2 * n) = 4096 * d * M * (2 * Q * b)).
  { replace (A * b * M * (2 * n)) with (2 * b * M * (n * A)) by ring.
    rewrite Hn. ring. }
  assert (E2 : 4096 * d * M * (2 * a) = 2 * 4096 * d * A * b * W).
  { replace (4096 * d * M * (2 * a)) with (2 * 4096 * d * (a * M)) by ring.
    rewrite Ha. ring. }
  assert (H3 : (b * d) * (2 * A * D) <= (b * d) * (M * (4096 * G + A))).
  { unfold D.
    replace (b * d * (2 * A * (v * M - 4096 * W)))
      with (A * b * M * (2 * v * d) - 2 * 4096 * d * A * b * W) by ring.
    rewrite <- E2.
    replace (b * d * (M * (4096 * G + A)))
      with (4096 * d * M * (2 * a + G * b) + A * b * M * d - 4096 * d * M * (2 * a)) by ring.
    replace (A * b * M * (2 * n + d)) with (A * b * M * (2 * n) + A * b * M * d) in H1 by ring.
    rewrite E1 in H1. lia. }
  apply mul_le_cancel in H3; [|nia].
  assert (H4 : 2 ^ 40 * (M * (4096 * G)) <= M * A).
  { replace (2 ^ 40 * (M * (4096 * G))) with (M * (4096 * G * 2 ^ 40)) by ring.
    apply Z.mul_le_mono_nonneg_l; lia. }
  apply (mul_le_cancel A); [exact HA|].
  replace (A * (2 ^ 41 * D)) with (2 ^ 40 * (2 * A * D)) by (change (2 ^ 41) with (2 * 2 ^ 40); ring).
  apply Z.le_trans with (2 ^ 40 * (M * (4096 * G + A))).
  - apply Z.mul_le_mono_nonneg_l; [lia|exact H3].
  - replace (2 ^ 40 * (M * (4096 * G + A))) with (2 ^ 40 * (M * (4096 * G)) + 2 ^ 40 * (M * A)) by ring.
    replace (A * ((2 ^ 40 + 1) * M)) with (M * A + 2 ^ 40 * (M * A)) by ring.
    lia.
Qed.

Lemma accuracy_lower (M W a b Q G n d A v : Z) :
  0 < M -> 0 < b -> 0 < d -> 0 < A -> 0 <= G ->
  a * M = W * A * b ->
  2 * a <= 2 * Q * b + G * b ->
  n * A = 4096 * Q * d ->
  2 * n <= 2 * v * d + d ->
  4096 * G * 2 ^ 40 <= A ->
  2 ^ 41 * (4096 * W - v * M) <= (2 ^ 40 + 1) * M.
Proof.
  intros HM Hb Hd HA HG Ha HQ Hn Hv HGA.
  set (D := 4096 * W - v * M).
  assert (H1 : (A * b * M) * (2 * n) <= (A * b * M) * (2 * v * d + d)).
  { apply Z.mul_le_mono_nonneg_l; [|exact Hv].
    apply Z.mul_nonneg_nonneg; [apply Z.mul_nonneg_nonneg|]; lia. }
  assert (H2 : (4096 * d * M) * (2 * a) <= (4096 * d * M) * (2 * Q * b + G * b)).
  { apply Z.mul_le_mono_nonneg_l; [|exact HQ].
    apply Z.mul_nonneg_nonneg; [apply Z.mul_nonneg_nonneg|]; lia. }
  assert (E1 : A * b * M * (2 * n) = 4096 * d * M * (2 * Q * b)).
  { replace (A * b * M * (2 * n)) with (2 * b * M * (n * A)) by ring.
    rewrite Hn. ring. }
  assert (E2 : 4096 * d * M * (2 * a) = 2 * 4096 * d * A * b * W).
  { replace (4096 * d * M * (2 * a)) with (2 * 4096 * d * (a * M)) by ring.
    rewrite Ha. ring. }
  assert (H3 : (b * d) * (2 * A * D) <= (b * d) * (M * (4096 * G + A))).
  { unfold D.
    replace (b * d * (2 * A * (4096 * W - v * M)))
      with (2 * 4096 * d * A * b * W - A * b * M * (2 * v * d)) by ring.
    rewrite <- E2.
    replace (b * d * (M * (4096 * G + A)))
      with (4096 * d * M * (G * b) + A * b * M * d) by ring.
    replace (4096 * d * M * (2 * Q * b + G * b))
      with (4096 * d * M * (2 * Q * b) + 4096 * d * M * (G * b)) in H2 by ring.
    rewrite <- E1 in H2.
    replace (A * b * M * (2 * v * d + d)) with (A * b * M * (2 * v * d) + A * b * M * d) in H1 by ring.
    lia. }
  apply mul_le_cancel in H3; [|nia].
  assert (H4 : 2 ^ 40 * (M * (4096 * G)) <= M * A).
  { replace (2 ^ 40 * (M * (4096 * G))) with (M * (4096 * G * 2 ^ 40)) by ring.
    apply Z.mul_le_mono_nonneg_l; lia. }
  apply (mul_le_cancel A); [exact HA|].
  replace (A * (2 ^ 41 * D)) with (2 ^ 40 * (2 * A * D)) by (change (2 ^ 41) with (2 * 2 ^ 40); ring).
  apply Z.le_trans with (2 ^ 40 * (M * (4096 * G + A))).
  - apply Z.mul_le_mono_nonneg_l; [lia|exact H3].
  - replace (2 ^ 40 * (M * (4096 * G + A))) with (2 ^ 40 * (M * (4096 * G)) + 2 ^ 40 * (M * A)) by ring.
    replace (A * ((2 ^ 40 + 1) * M)) with (M * A + 2 ^ 40 * (M * A)) by ring.
    lia.
Qed.

(** [RN a b] is within half a step of its grid of [a / b]. *)
Lemma RN_error (a b : Z) :
  0 <= a -> 0 < b ->
  (2 * RN a b - 2 ^ grid a b) * b <= 2 * a <= (2 * RN a b + 2 ^ grid a b) * b.
Proof.
  intros Ha Hb. unfold RN.
  pose proof (grid_nonneg a b) as Hg.
  pose proof (pow2_pos (grid a b) Hg) as Hp.
  set (G := 2 ^ grid a b) in *.
  destruct (nearest_spec HalfToEven a (b * G) ltac:(nia)) as ((Hlo & Hhi) & _).
  fold (rne a (b * G)) in Hlo, Hhi.
  set (r := rne a (b * G)) in *.
  split.
  - replace ((2 * (r * G) - G) * b) with ((2 * r - 1) * (b * G)) by ring. exact Hlo.
  - replace ((2 * (r * G) + G) * b) with ((2 * r + 1) * (b * G)) by ring. exact Hhi.
Qed.

(** The grid of a fraction of at most 2^k. *)
Lemma grid_le (a b k : Z) :
  0 <= a -> 0 < b -> 52 <= k -> a <= 2 ^ k * b -> grid a b <= k - 52.
Proof.
  intros Ha Hb Hk Hle. unfold grid.
  assert (Hq : a / b <= 2 ^ k).
  { apply Z.div_le_upper_bound; [assumption|]. lia. }
  pose proof (Z.log2_le_mono _ _ Hq) as Hl.
  rewrite Z.log2_pow2 in Hl by lia. lia.
Qed.

(** [RN a b] is a mantissa of at most 53 bits on its grid. *)
Lemma RN_form (a b : Z) :
  0 <= a -> 0 < b ->
  exists m, RN a b = m * 2 ^ grid a b /\ 0 <= m <= 2 ^ 53.
Proof.
  intros Ha Hb. unfold RN. exists (rne a (b * 2 ^ grid a b)).
  pose proof (grid_nonneg a b) as Hg.
  pose proof (pow2_pos (grid a b) Hg) as Hp.
  split; [reflexivity|]. split.
  - apply rne_ge; nia.
  - apply rne_le; [nia|].
    pose proof (grid_upper a b Ha Hb) as H.
    rewrite Z.pow_add_r in H by lia. nia.
Qed.

(** A mantissa of at most 53 bits, scaled by a power of two, is its own
    rounding: the product with 4096 is exact. *)
Lemma RN_exact (m j b : Z) :
  0 <= m <= 2 ^ 53 -> 0 <= j -> 0 < b -> RN (m * 2 ^ j * b) b = m * 2 ^ j.
Proof.
  intros [Hm0 Hm53] Hj Hb.
  destruct (Z.eq_dec m 0) as [E0|N0].
  { subst m. rewrite !Z.mul_0_l. apply RN_0, Hb. }
  destruct (Z.eq_dec m (2 ^ 53)) as [Etop|Ntop].
  { subst m. rewrite <- Z.pow_add_r by lia. apply RN_pow2; lia. }
  pose proof (pow2_pos j Hj) as Hpj.
  unfold RN, grid. rewrite Z.div_mul by lia.
  rewrite Z.log2_mul_pow2 by lia.
  assert (Hl : Z.log2 m <= 52).
  { assert (Z.log2 m < 53); [|lia]. apply Z.log2_lt_pow2; lia. }
  pose proof (Z.log2_nonneg m) as Hl0.
  set (g := Z.max 0 (j + Z.log2 m + 1 - 53)).
  assert (Hg : 0 <= g <= j) by (unfold g; lia).
  assert (Hpk : 2 ^ j = 2 ^ (j - g) * 2 ^ g).
  { rewrite <- Z.pow_add_r by lia. f_equal. lia. }
  rewrite Hpk at 1.
  replace (m * (2 ^ (j - g) * 2 ^ g) * b) with (m * 2 ^ (j - g) * (b * 2 ^ g)) by ring.
  rewrite rne_exact by (pose proof (pow2_pos g ltac:(lia)); nia).
  rewrite Hpk. ring.
Qed.

(** [int(round(.))] of a number is [nearest] on a fraction equal to its
    magnitude. *)
Lemma rmag_units (t : tie_rule) (r : spec_float) :
  on_grid r -> is_number r = true ->
  exists n d, 0 < d /\ rmag t r = nearest t n d /\ n * 2 ^ 1074 = mag_of r * d.
Proof.
  intros Hg Hr. destruct r as [s|s| |s m e]; try discriminate.
  - exists 0, 1. split; [lia|]. split; [|reflexivity].
    cbn [rmag]. symmetry. apply (nearest_exact t 0 1). lia.
  - cbn [on_grid] in Hg.
    destruct (round_mag_units t m e Hg) as (n & d & _ & Hd & Hn & Hu).
    exists n, d. split; [exact Hd|]. split; [exact Hn|].
    cbn [mag_of]. rewrite Hu. ring.
Qed.

(** The error of the ticks on the specification side, for a width of at
    most the period. *)
Lemma ticks_accurate (t : tie_rule) (x : spec_float) (mp : positive) (ep : Z) :
  valid_binary x = true -> -1074 <= ep ->
  mag_of x <= mag_of (S754_finite false mp ep) ->
  let r := SF64mul (SF64div x (S754_finite false mp ep))
             (S754_finite false 4503599627370496 (-40)) in
  is_number r = true ->
  2 ^ 41 * Z.abs (rmag t r * mag_of (S754_finite false mp ep) - 4096 * mag_of x) <=
    (2 ^ 40 + 1) * mag_of (S754_finite false mp ep).
Proof.
  intros Hv Hep Hle r Hr. unfold r in *. clear r.
  pose proof (mag_P_pos mp ep Hep) as HM.
  set (M := mag_of (S754_finite false mp ep)) in *.
  set (q := SF64div x (S754_finite false mp ep)) in *.
  assert (Hq : is_number q = true).
  { destruct (number_mul_4096 q Hr). apply number_of_product; assumption. }
  destruct (div_stage x mp ep Hv Hep Hq) as (_ & Hgq & _ & a & b & Ha & Hb & Hc & Hmq).
  fold q in Hgq, Hmq. fold M in Hc.
  destruct (mul_stage q Hgq Hr) as (_ & Hgr & _ & a' & b' & Ha' & Hb' & Hc' & Hmr).
  set (r := SF64mul q (S754_finite false 4503599627370496 (-40))) in *.
  pose proof (pow2_pos 1074 ltac:(lia)) as HA.
  pose proof (mag_of_nonneg x) as HW.
  (* the quotient, rounded *)
  destruct (RN_form a b Ha Hb) as (m0 & Hform & Hm0).
  pose proof (RN_error a b Ha Hb) as [Helo Hehi].
  pose proof (grid_nonneg a b) as Hg0.
  assert (Hab : a <= 2 ^ 1074 * b).
  { apply (mul_le_cancel M); [exact HM|].
    replace (M * a) with (a * M) by ring. rewrite Hc.
    replace (M * (2 ^ 1074 * b)) with (M * 2 ^ 1074 * b) by ring.
    apply Z.mul_le_mono_nonneg_r; [lia|].
    apply Z.mul_le_mono_nonneg_r; lia. }
  pose proof (grid_le a b 1074 Ha Hb ltac:(lia) Hab) as Hg.
  replace (1074 - 52) with 1022 in Hg by lia.
  (* the product is exact *)
  assert (Hexact : mag_of r = 4096 * mag_of q).
  { rewrite Hmr.
    assert (Ea' : a' = m0 * 2 ^ (grid a b + 12) * b').
    { rewrite Z.mul_1_r in Hc'. rewrite Hc', Hmq, Hform.
      rewrite Z.pow_add_r by lia. change (2 ^ 12) with 4096. ring. }
    rewrite Ea', RN_exact by lia.
    rewrite Hmq, Hform, Z.pow_add_r by lia. change (2 ^ 12) with 4096. ring. }
  destruct (rmag_units t r Hgr Hr) as (n & d & Hd & -> & Hn).
  rewrite Hexact in Hn.
  destruct (nearest_spec t n d Hd) as ((Hvlo & Hvhi) & _).
  set (v := nearest t n d) in *.
  set (Q := mag_of q) in *. rewrite <- Hmq in Helo, Hehi.
  set (G := 2 ^ grid a b) in *.
  assert (HG0 : 0 <= G) by (unfold G; pose proof (pow2_pos (grid a b) Hg0); lia).
  assert (HGA : 4096 * G * 2 ^ 40 <= 2 ^ 1074).
  { unfold G. change 4096 with (2 ^ 12). rewrite <- !Z.pow_add_r by lia.
    apply Z.pow_le_mono_r; lia. }
  assert (Hn' : n * 2 ^ 1074 = 4096 * Q * d) by (rewrite Hn; ring).
  destruct (Z.abs_spec (v * M - 4096 * mag_of x)) as [[_ E]|[_ E]]; rewrite E.
  - apply (accuracy_upper M (mag_of x) a b Q G n d (2 ^ 1074) v); try assumption; lia.
  - replace (- (v * M - 4096 * mag_of x)) with (4096 * mag_of x - v * M) by ring.
    apply (accuracy_lower M (mag_of x) a b Q G n d (2 ^ 1074) v); try assumption; lia.
Qed.

(** X4: the tick value is accurate.  With [W] and [T] the width and the
    period in units of 2^-1074 (so [W / T] is the exact ratio of the two
    floats), for a width from zero up to a finite period the ticks differ
    from the exact [TICKS * W / T] by at most half a tick and a 2^41th of
    a tick, so by less than one tick: the division is the only operation
    that rounds, and it is followed by [round]. *)
Theorem to_ticks_accurate (t : tie_rule) (period w : float) (v : Z) :
  PrimFloat.ltb 0 period = true -> PrimFloat.ltb period infinity = true ->
  PrimFloat.leb 0 w = true -> PrimFloat.leb w period = true ->
  to_ticks t period w = Ok v ->
  let W := mag_of (Prim2SF w) in
  let T := mag_of (Prim2SF period) in
  0 < T /\ 0 <= W <= T /\
  2 ^ 41 * Z.abs (v * T - TICKS * W) <= (2 ^ 40 + 1) * T /\
  (v - 1) * T < TICKS * W < (v + 1) * T.
Proof.
  intros Hp Hfin Hlo Hhi Hv W T.
  assert (Hmain : 0 < T /\ 0 <= W <= T /\
                  2 ^ 41 * Z.abs (v * T - TICKS * W) <= (2 ^ 40 + 1) * T).
  { unfold W, T. clear W T.
    apply to_ticks_Ok in Hv. cbv zeta in Hv. destruct Hv as [Hr ->].
    rewrite ltb_spec in Hp, Hfin. rewrite leb_spec in Hlo, Hhi.
    change (Prim2SF 0) with (S754_zero false) in Hp, Hlo.
    change (Prim2SF infinity) with (S754_infinity false) in Hfin.
    pose proof (Prim2SF_valid period) as Hvp.
    pose proof (Prim2SF_valid w) as Hvw.
    destruct (Prim2SF period) as [sp|sp| |sp mp ep] eqn:Ep; try discriminate.
    { destruct sp; discriminate. }
    assert (sp = false) by (destruct sp; [discriminate|reflexivity]). subst sp.
    destruct (valid_finite _ _ _ Hvp) as (Hep & _).
    pose proof (mag_P_pos mp ep Hep) as HT.
    assert (Hx : is_number (Prim2SF w) = true).
    { apply (between_number (S754_zero false) _ (S754_finite false mp ep));
        try assumption; reflexivity. }
    pose proof (SFleb_sv _ _ Hvw Hvp Hx eq_refl Hhi) as Hs.
    pose proof (SFleb_sv (S754_zero false) (Prim2SF w) eq_refl Hvw eq_refl Hx Hlo) as Hs0.
    pose proof (mag_of_nonneg (Prim2SF w)) as HW.
    assert (Hle : mag_of (Prim2SF w) <= mag_of (S754_finite false mp ep)).
    { unfold sv in Hs, Hs0. cbn [neg_of mag_of] in Hs, Hs0 |- *.
      destruct (neg_of (Prim2SF w)); cbn [mag_of] in Hs; lia. }
    split; [exact HT|]. split; [lia|].
    pose proof (ticks_accurate t (Prim2SF w) mp ep Hvw Hep Hle Hr) as Hacc.
    cbv zeta in Hacc.
    set (r := SF64mul (SF64div (Prim2SF w) (S754_finite false mp ep))
                (S754_finite false 4503599627370496 (-40))) in *.
    assert (Hneg : neg_of r = true -> rmag t r = 0).
    { unfold r. destruct (Prim2SF w) as [s|s| |s m e]; try discriminate.
      - intros _. reflexivity.
      - destruct s; [discriminate|].
        destruct (valid_finite _ _ _ Hvw) as (He & Hd & _).
        destruct (SF64div_finite false false m mp e ep Hd He Hep) as (_ & Hnq & Hgq & _).
        cbv zeta in Hnq, Hgq.
        destruct (SF64div (S754_finite false m e) (S754_finite false mp ep))
          as [s0|s0| |s0 m0 e0]; cbn [neg_of xorb] in Hnq; subst; try discriminate.
        cbn [on_grid] in Hgq.
        destruct (SF64mul_4096 false m0 e0 Hgq) as (_ & Hnr & _). cbv zeta in Hnr.
        rewrite Hnr. discriminate. }
    unfold TICKS. destruct (neg_of r) eqn:En.
    - rewrite (Hneg eq_refl) in Hacc |- *. exact Hacc.
    - exact Hacc. }
  destruct Hmain as (HT & HW & Hacc). split; [exact HT|]. split; [exact HW|].
  split; [exact Hacc|].
  assert (Hlt : 2 ^ 41 * Z.abs (v * T - TICKS * W) < 2 ^ 41 * T) by lia.
  apply Z.mul_lt_mono_pos_l in Hlt; lia.
Qed.

(** ** More on the commands *)

Section Setters.

Context {P : Platform}.

(** X5: a NaN width is not caught by [validate_pwidth].  Each of
    [set_roll_pwidth], [set_pitch_pwidth], [set_yaw_pwidth] and
    [set_pwidth] raises on it ([ValueError] from [int(round(.))], or
    [ZeroDivisionError] when the period is zero) and leaves the world as it
    was: nothing is written and no warning is printed. *)
Theorem nan_width_raises (self : DroneComm) (width : float) (w : World) :
  Prim2SF width = S754_nan ->
  let e := if PrimFloat.eqb (period self) 0 then ZeroDivisionError else ValueError in
  set_roll_pwidth self width w = (Raise e, w) /\
  set_pitch_pwidth self width w = (Raise e, w) /\
  set_yaw_pwidth self width w = (Raise e, w) /\
  forall channel, set_pwidth self channel width w = (Raise e, w).
Proof.
  intros Hw e.
  rewrite set_roll_pwidth_eq, set_pitch_pwidth_eq, set_yaw_pwidth_eq. cbv zeta.
  rewrite !(validate_pwidth_nan _ (add_nan width _ Hw)). cbn [fst].
  rewrite !(to_ticks_nan_eq _ _ _ (add_nan width _ Hw)).
  repeat split. intros channel. rewrite set_pwidth_eq, (to_ticks_nan_eq _ _ _ Hw).
  reflexivity.
Qed.

Lemma programmed_other (c channel : Z) (width : float) (on off : Z) (acc : option (float * Z)) :
  c <> channel -> note_write c acc (set_pwm channel width on off) = acc.
Proof.
  intros Hc. cbn [note_write]. destruct (Z.eqb_spec channel c); [congruence|reflexivity].
Qed.

(** X6: [set_pwidth] programs the channel it is given and no other.  When
    it returns, the width and tick value last programmed on that channel
    are the ones of this call, every other channel and the links are as
    before; when it raises, the world is unchanged. *)
Theorem set_pwidth_programs (self : DroneComm) (channel : Z) (width : float) (w : World) :
  match set_pwidth self channel width w with
  | (Ok _, w') =>
      exists pulse,
        to_ticks tie (period self) width = Ok pulse /\
        programmed channel (trace w') = Some (width, pulse) /\
        (forall c, c <> channel -> programmed c (trace w') = programmed c (trace w)) /\
        links w' = links w
  | (Raise e, w') => to_ticks tie (period self) width = Raise e /\ w' = w
  end.
Proof.
  rewrite set_pwidth_eq.
  destruct (to_ticks tie (period self) width) as [pulse|e]; [|split; reflexivity].
  exists pulse. split; [reflexivity|]. cbn [trace links]. split; [|split; [|reflexivity]].
  - rewrite programmed_app. cbn [fold_left note_write]. rewrite Z.eqb_refl. reflexivity.
  - intros c Hc. rewrite programmed_app. cbn [fold_left].
    apply programmed_other, Hc.
Qed.

Lemma reset_writes_twice (self : DroneComm) (pm pr pp py c : Z) (acc : option (float * Z)) :
  fold_left (note_write c) (reset_writes self pm pr pp py)
    (fold_left (note_write c) (reset_writes self pm pr pp py) acc) =
  fold_left (note_write c) (reset_writes self pm pr pp py) acc.
Proof.
  unfold reset_writes, ROLL_CHANNEL, PITCH_CHANNEL, YAW_CHANNEL.
  cbn [fold_left note_write].
  destruct (0 =? c), (1 =? c), (2 =? c), (3 =? c), (4 =? c), (5 =? c); reflexivity.
Qed.

(** X7: [reset_channels] is idempotent.  After one that returned, a
    second one returns too and leaves on every channel what was programmed
    already. *)
Theorem reset_channels_idempotent (self : DroneComm) (w w1 : World) :
  reset_channels self w = (Ok tt, w1) ->
  exists w2,
    reset_channels self w1 = (Ok tt, w2) /\
    forall c, programmed c (trace w2) = programmed c (trace w1).
Proof.
  intros H. apply reset_channels_returns in H.
  destruct H as (pm & pr & pp & py & Hm & Hr & Hp & Hy & ->).
  eexists. split.
  - apply reset_channels_returns. exists pm, pr, pp, py. repeat (split; [eassumption|]).
    reflexivity.
  - intros c. cbn [trace]. rewrite !programmed_app. apply reset_writes_twice.
Qed.

(** X8: on an instance with a period above zero for which [MAX_WIDTH]
    converts, [set_roll_pwidth], [set_pitch_pwidth] and [set_yaw_pwidth]
    return normally for every request whose trimmed width is not NaN, and
    the tick value they program lies between the ticks of [MIN_WIDTH] and
    of [MAX_WIDTH]. *)
Theorem clamped_commands_return (self : DroneComm) (w : World) (hi : Z) :
  PrimFloat.ltb 0 (period self) = true ->
  to_ticks tie (period self) MAX_WIDTH = Ok hi ->
  exists lo,
    to_ticks tie (period self) MIN_WIDTH = Ok lo /\ 0 <= lo <= hi /\
    (forall width, Prim2SF (width + roll_pwm_trim self) <> S754_nan ->
       exists pulse w',
         set_roll_pwidth self width w = (Ok tt, w') /\
         programmed ROLL_CHANNEL (trace w') =
           Some (fst (validate_pwidth (width + roll_pwm_trim self)), pulse) /\
         lo <= pulse <= hi) /\
    (forall width, Prim2SF (width + pitch_pwm_trim self) <> S754_nan ->
       exists pulse w',
         set_pitch_pwidth self width w = (Ok tt, w') /\
         programmed PITCH_CHANNEL (trace w') =
           Some (fst (validate_pwidth (width + pitch_pwm_trim self)), pulse) /\
         lo <= pulse <= hi) /\
    (forall width, Prim2SF (width + yaw_pwm_trim self) <> S754_nan ->
       exists pulse w',
         set_yaw_pwidth self width w = (Ok tt, w') /\
         programmed YAW_CHANNEL (trace w') =
           Some (fst (validate_pwidth (width + yaw_pwm_trim self)), pulse) /\
         lo <= pulse <= hi).
Proof.
  intros Hp Hhi.
  destruct (clamped_ticks tie (period self) hi Hp Hhi) as (lo & Hlo & Hb & Hall).
  exists lo. split; [exact Hlo|]. split; [exact Hb|].
  split; [|split]; intros width Hx; destruct (Hall _ Hx) as (pulse & Hpulse & Hpb);
    exists pulse.
  - rewrite set_roll_pwidth_eq. cbv zeta. rewrite Hpulse.
    eexists. split; [reflexivity|]. split; [|exact Hpb].
    cbn [trace]. rewrite programmed_app.
    destruct (snd (validate_pwidth _)); reflexivity.
  - rewrite set_pitch_pwidth_eq. cbv zeta. rewrite Hpulse.
    eexists. split; [reflexivity|]. split; [|exact Hpb].
    cbn [trace]. rewrite programmed_app.
    destruct (snd (validate_pwidth _)); reflexivity.
  - rewrite set_yaw_pwidth_eq. cbv zeta. rewrite Hpulse.
    eexists. split; [reflexivity|]. split; [|exact Hpb].
    cbn [trace]. rewrite programmed_app.
    destruct (snd (validate_pwidth _)); reflexivity.
Qed.

(** X9: the warning tells the clamping.  A [set_*_pwidth] call that
    returns has written once, to its own channel; when the trimmed width is
    in range it wrote that width and printed nothing, otherwise it wrote the
    clamped width and then printed the warning of its axis. *)
Theorem warnings_tell_clamping (self : DroneComm) (width : float) (w w' : World) :
  (set_roll_pwidth self width w = (Ok tt, w') ->
   let x := (width + roll_pwm_trim self)%float in
   exists pulse,
     trace w' = trace w ++
       (if in_range x then [set_pwm ROLL_CHANNEL x 0 pulse]
        else [set_pwm ROLL_CHANNEL (fst (validate_pwidth x)) 0 pulse;
              print "WARNING: Roll out of range!"])) /\
  (set_pitch_pwidth self width w = (Ok tt, w') ->
   let x := (width + pitch_pwm_trim self)%float in
   exists pulse,
     trace w' = trace w ++
       (if in_range x then [set_pwm PITCH_CHANNEL x 0 pulse]
        else [set_pwm PITCH_CHANNEL (fst (validate_pwidth x)) 0 pulse;
              print "WARNING: Pitch out of range!"])) /\
  (set_yaw_pwidth self width w = (Ok tt, w') ->
   let x := (width + yaw_pwm_trim self)%float in
   exists pulse,
     trace w' = trace w ++
       (if in_range x then [set_pwm YAW_CHANNEL x 0 pulse]
        else [set_pwm YAW_CHANNEL (fst (validate_pwidth x)) 0 pulse;
              print "WARNING: Yaw out of range!"])).
Proof.
  split; [|split].
  - rewrite set_roll_pwidth_eq. cbv zeta.
    destruct (to_ticks _ _ _) as [pulse|e] eqn:Hticks; [|discriminate].
    intros H. injection H as <-. exists pulse. cbn [trace].
    destruct (validate_pwidth_flag _ (validated_not_nan _ _ _ _ Hticks)) as [-> Hfst].
    destruct (in_range _); [rewrite (Hfst eq_refl)|]; reflexivity.
  - rewrite set_pitch_pwidth_eq. cbv zeta.
    destruct (to_ticks _ _ _) as [pulse|e] eqn:Hticks; [|discriminate].
    intros H. injection H as <-. exists pulse. cbn [trace].
    destruct (validate_pwidth_flag _ (validated_not_nan _ _ _ _ Hticks)) as [-> Hfst].
    destruct (in_range _); [rewrite (Hfst eq_refl)|]; reflexivity.
  - rewrite set_yaw_pwidth_eq. cbv zeta.
    destruct (to_ticks _ _ _) as [pulse|e] eqn:Hticks; [|discriminate].
    intros H. injection H as <-. exists pulse. cbn [trace].
    destruct (validate_pwidth_flag _ (validated_not_nan _ _ _ _ Hticks)) as [-> Hfst].
    destruct (in_range _); [rewrite (Hfst eq_refl)|]; reflexivity.
Qed.

(** X10: [control_example] never returns normally.  It resets the
    channels once and then raises [AttributeError] at [self.set_yaw] (or
    earlier, with the exception of [reset_channels]); neither [MAX_WIDTH]
    nor [MIN_WIDTH] is programmed, nor is there a second reset. *)
Theorem control_example_raises (self : DroneComm) (w : World) :
  snd (control_example self w) = snd (reset_channels self w) /\
  fst (control_example self w) =
    match fst (reset_channels self w) with
    | Ok _ => Raise AttributeError
    | Raise e => Raise e
    end.
Proof.
  unfold control_example, bind.
  destruct (reset_channels self w) as [[[]|e] w1]; split; reflexivity.
Qed.

End Setters.

(** ** More on telemetry *)

Section Accessors.

Context {P : Platform}.

Lemma bind_assoc {A B C} (m : M A) (k : A -> M B) (k' : B -> M C) (w : World) :
  bind (bind m k) k' w = bind m (fun a => bind (k a) k') w.
Proof. unfold bind. destruct (m w) as [[a|e] w1]; reflexivity. Qed.

(** X11: [get_roll], [get_pitch] and [get_yaw] are [get_data] at angx,
    angy and heading: same effects, same exception, same value. *)
Theorem get_data_is_accessor (self : DroneComm) (w : World) :
  get_data self "angx" w = bind (get_roll self) (fun v => ret (Some v)) w /\
  get_data self "angy" w = bind (get_pitch self) (fun v => ret (Some v)) w /\
  get_data self "heading" w = bind (get_yaw self) (fun v => ret (Some v)) w.
Proof.
  unfold get_data, get_roll, get_pitch, get_yaw.
  rewrite !bind_assoc. repeat split.
Qed.

(** X12: on one of the three keys [get_data] fetches once and returns the
    value of the attitude just fetched ([KeyError] when the dictionary
    lacks the key); it prints nothing and does not close the link.  When
    the fetch raises, the exception is that of the fetch and the links are
    as before. *)
Theorem get_data_valid_argument (self : DroneComm) (arg : string)
    (h : nat) (l : MultiWii) (w : World) :
  board self = Some h ->
  nth_error (links w) h = Some l ->
  (arg =? "angx")%string || (arg =? "angy")%string || (arg =? "heading")%string = true ->
  (forall l',
     MultiWii_getData l = Ok l' ->
     get_data self arg w =
       (match MultiWii_attitude l' arg with
        | Some v => Ok (Some v)
        | None => Raise (KeyError arg)
        end,
        {| trace := trace w ++ [getData h]; links := update (links w) h l' |})) /\
  (forall e,
     MultiWii_getData l = Raise e ->
     get_data self arg w =
       (Raise e, {| trace := trace w ++ [getData h]; links := links w |})).
Proof.
  intros Hb Hl Harg. split.
  - intros l' Hfetch.
    unfold get_data, board_getData, board_attitude, bind.
    rewrite (the_board_Some _ _ _ _ Hb Hl). cbn [fst snd]. rewrite Hfetch, Harg.
    erewrite the_board_Some;
      [|exact Hb|cbn [links]; apply (nth_error_update _ _ _ _ _ Hl)].
    cbn [snd]. destruct (MultiWii_attitude l' arg); reflexivity.
  - intros e Hfetch.
    unfold get_data, board_getData, bind.
    rewrite (the_board_Some _ _ _ _ Hb Hl). cbn [fst snd]. rewrite Hfetch. reflexivity.
Qed.

Lemma writes_app (a b : list event) : writes (a ++ b) = writes a ++ writes b.
Proof. apply filter_app. Qed.

Lemma unwritten_emit (W : list event) (ev : event) :
  silent ev = true -> keeps (unwritten W) (emit ev).
Proof.
  intros Hev w Hw. unfold unwritten, emit in *. cbn [snd trace].
  rewrite writes_app, Hw. unfold writes. cbn [filter]. rewrite Hev. apply app_nil_r.
Qed.

Lemma unwritten_the_board (W : list event) (self : DroneComm) :
  keeps (unwritten W) (the_board self).
Proof.
  intros w Hw. unfold the_board.
  destruct (board self) as [h|]; [destruct (nth_error (links w) h)|]; exact Hw.
Qed.

Lemma unwritten_board_getData (W : list event) (self : DroneComm) :
  keeps (unwritten W) (board_getData self).
Proof.
  apply keeps_bind; [apply unwritten_the_board|].
  intros [h l] w Hw. unfold unwritten in *.
  destruct (MultiWii_getData (snd (h, l))); cbn [snd trace];
    rewrite writes_app, Hw; apply app_nil_r.
Qed.

Lemma unwritten_board_attitude (W : list event) (self : DroneComm) (key : string) :
  keeps (unwritten W) (board_attitude self key).
Proof.
  apply keeps_bind; [apply unwritten_the_board|].
  intros [h l]. destruct (MultiWii_attitude (snd (h, l)) key);
    [apply keeps_ret | apply keeps_lift].
Qed.

Lemma unwritten_board_closeSerial (W : list event) (self : DroneComm) :
  keeps (unwritten W) (board_closeSerial self).
Proof.
  apply keeps_bind; [apply unwritten_the_board|].
  intros [h l] w Hw. unfold unwritten in *. cbn [snd trace].
  rewrite writes_app, Hw. apply app_nil_r.
Qed.

(** X13: no telemetry call reaches the PWM driver: the driver writes of
    the trace are the same before and after, whatever the call returns or
    raises. *)
Theorem telemetry_never_writes (self : DroneComm) (w : World) :
  (forall arg, writes (trace (snd (get_data self arg w))) = writes (trace w)) /\
  writes (trace (snd (get_roll self w))) = writes (trace w) /\
  writes (trace (snd (get_pitch self w))) = writes (trace w) /\
  writes (trace (snd (get_yaw self w))) = writes (trace w).
Proof.
  assert (Hacc : forall key,
            keeps (unwritten (writes (trace w)))
              (bind (board_getData self) (fun _ => board_attitude self key))).
  { intros key. apply keeps_bind; [apply unwritten_board_getData|]. intros _.
    apply unwritten_board_attitude. }
  split; [|split; [|split]]; try (apply Hacc; reflexivity).
  intros arg.
  assert (Hget : keeps (unwritten (writes (trace w))) (get_data self arg)).
  { apply keeps_bind; [apply unwritten_board_getData|]. intros _.
    destruct (_ || _).
    - apply keeps_bind; [apply unwritten_board_attitude|]. intros v. apply keeps_ret.
    - apply keeps_bind; [apply unwritten_emit; reflexivity|]. intros _.
      apply keeps_bind; [apply unwritten_board_closeSerial|]. intros _. apply keeps_ret. }
  apply Hget. reflexivity.
Qed.

End Accessors.

(** ** Commands and links *)

Section Links.

Context {P : Platform}.

Lemma link_events_app (a b : list event) :
  link_events (a ++ b) = link_events a ++ link_events b.
Proof. apply filter_app. Qed.

Lemma length_update (A : Type) (l : list A) (h : nat) (a : A) :
  List.length (update l h a) = List.length l.
Proof.
  revert h. induction l as [|y l IH]; intros [|h]; cbn; try reflexivity.
  rewrite IH. reflexivity.
Qed.

Lemma set_pwidth_untouched (self : DroneComm) (channel : Z) (width : float) (w : World) :
  untouched w (snd (set_pwidth self channel width w)).
Proof.
  rewrite set_pwidth_eq.
  destruct (to_ticks _ _ _); cbn [snd]; split; cbn [trace links]; try reflexivity.
  rewrite link_events_app. apply app_nil_r.
Qed.

Lemma set_roll_pwidth_untouched (self : DroneComm) (width : float) (w : World) :
  untouched w (snd (set_roll_pwidth self width w)).
Proof.
  rewrite set_roll_pwidth_eq. cbv zeta.
  destruct (to_ticks _ _ _); cbn [snd]; split; cbn [trace links]; try reflexivity.
  rewrite link_events_app. destruct (snd (validate_pwidth _)); apply app_nil_r.
Qed.

Lemma set_pitch_pwidth_untouched (self : DroneComm) (width : float) (w : World) :
  untouched w (snd (set_pitch_pwidth self width w)).
Proof.
  rewrite set_pitch_pwidth_eq. cbv zeta.
  destruct (to_ticks _ _ _); cbn [snd]; split; cbn [trace links]; try reflexivity.
  rewrite link_events_app. destruct (snd (validate_pwidth _)); apply app_nil_r.
Qed.

Lemma set_yaw_pwidth_untouched (self : DroneComm) (width : float) (w : World) :
  untouched w (snd (set_yaw_pwidth self width w)).
Proof.
  rewrite set_yaw_pwidth_eq. cbv zeta.
  destruct (to_ticks _ _ _); cbn [snd]; split; cbn [trace links]; try reflexivity.
  rewrite link_events_app. destruct (snd (validate_pwidth _)); apply app_nil_r.
Qed.

Lemma reset_channels_untouched (self : DroneComm) (w : World) :
  untouched w (snd (reset_channels self w)).
Proof.
  rewrite reset_channels_eq.
  destruct (to_ticks tie (period self) MID_WIDTH); [|split; reflexivity].
  destruct (to_ticks tie (period self) (MID_WIDTH + roll_pwm_trim self));
  [destruct (to_ticks tie (period self) (MID_WIDTH + pitch_pwm_trim self));
   [destruct (to_ticks tie (period self) (MID_WIDTH + yaw_pwm_trim self))|]|];
  cbn [snd]; (split; cbn [trace links]; [reflexivity|]);
  rewrite link_events_app; apply app_nil_r.
Qed.

(** X14: no command reaches a telemetry link: [set_pwidth], the three
    [set_*_pwidth] and [reset_channels] leave the link objects and the
    events on links as they were, whether they return or raise. *)
Theorem commands_leave_links (self : DroneComm) (w : World) :
  (forall channel width, untouched w (snd (set_pwidth self channel width w))) /\
  (forall width, untouched w (snd (set_roll_pwidth self width w))) /\
  (forall width, untouched w (snd (set_pitch_pwidth self width w))) /\
  (forall width, untouched w (snd (set_yaw_pwidth self width w))) /\
  untouched w (snd (reset_channels self w)).
Proof.
  split; [|split; [|split; [|split]]].
  - intros channel width. apply set_pwidth_untouched.
  - intros width. apply set_roll_pwidth_untouched.
  - intros width. apply set_pitch_pwidth_untouched.
  - intros width. apply set_yaw_pwidth_untouched.
  - apply reset_channels_untouched.
Qed.

Lemma closed_link_events (h : nat) (tr : list event) :
  closed h (link_events tr) = closed h tr.
Proof.
  unfold closed, link_events.
  induction tr as [|ev tr IH]; [reflexivity|].
  cbn [filter existsb]. destruct ev; cbn [on_link existsb]; rewrite IH; reflexivity.
Qed.

Lemma kept_open_untouched (h : nat) (c : bool) (w w' : World) :
  untouched w w' -> kept_open h c w -> kept_open h c w'.
Proof.
  intros [Hl Ht] [Hc Hh]. split.
  - rewrite <- closed_link_events, Ht, closed_link_events. exact Hc.
  - rewrite Hl. exact Hh.
Qed.

Lemma kept_open_the_board (h : nat) (c : bool) (self : DroneComm) :
  keeps (kept_open h c) (the_board self).
Proof.
  intros w Hw. unfold the_board.
  destruct (board self) as [h'|]; [destruct (nth_error (links w) h')|]; exact Hw.
Qed.

Lemma kept_open_board_getData (h : nat) (c : bool) (self : DroneComm) :
  keeps (kept_open h c) (board_getData self).
Proof.
  apply keeps_bind; [apply kept_open_the_board|].
  intros [h' l] w [Hc Hh]. unfold kept_open.
  destruct (MultiWii_getData (snd (h', l))); cbn [snd trace links];
    rewrite closed_app, Hc, ?length_update; (split; [apply orb_false_r|exact Hh]).
Qed.

Lemma kept_open_board_attitude (h : nat) (c : bool) (self : DroneComm) (key : string) :
  keeps (kept_open h c) (board_attitude self key).
Proof.
  apply keeps_bind; [apply kept_open_the_board|].
  intros [h' l]. destruct (MultiWii_attitude (snd (h', l)) key);
    [apply keeps_ret | apply keeps_lift].
Qed.

Lemma kept_open_accessor (h : nat) (c : bool) (self : DroneComm) (key : string) :
  keeps (kept_open h c) (bind (board_getData self) (fun _ => board_attitude self key)).
Proof.
  apply keeps_bind; [apply kept_open_board_getData|]. intros _.
  apply kept_open_board_attitude.
Qed.

Lemma kept_open_get_data (h : nat) (c : bool) (self : DroneComm) (arg : string) :
  (arg =? "angx")%string || (arg =? "angy")%string || (arg =? "heading")%string = true ->
  keeps (kept_open h c) (get_data self arg).
Proof.
  intros Harg. unfold get_data. rewrite Harg.
  apply keeps_bind; [apply kept_open_board_getData|]. intros _.
  apply keeps_bind; [apply kept_open_board_attitude|]. intros v. apply keeps_ret.
Qed.

(** [exit] closes the link it has just opened, whose reference is new. *)
Lemma kept_open_exit (h : nat) (c : bool) (self : DroneComm) :
  keeps (kept_open h c) (exit self).
Proof.
  intros w Hw.
  pose proof (kept_open_untouched h c _ _ (reset_channels_untouched self w) Hw) as Hw1.
  unfold exit, board_closeSerial, bind, new_MultiWii.
  destruct (reset_channels self w) as [[[]|e] w1]; cbn [snd] in *; [|exact Hw1].
  destruct (MultiWii_init "/dev/ttyUSB0") as [l0|e]; [|exact Hw1].
  erewrite the_board_Some; [|reflexivity|cbn [links]; apply nth_error_last].
  cbn [fst snd trace links ret]. unfold ret. cbn [snd].
  destruct Hw1 as [Hc Hh]. split; cbn [trace links].
  - rewrite !closed_app, Hc. cbn.
    replace (Nat.eqb (List.length (links w1)) h) with false
      by (symmetry; apply Nat.eqb_neq; lia).
    rewrite !orb_false_r. reflexivity.
  - rewrite update_last, length_app. cbn. lia.
Qed.

Lemma kept_open_do_call (h : nat) (c0 : bool) (self : DroneComm) (c : call) (w : World) :
  well_asked c = true -> kept_open h c0 w -> kept_open h c0 (snd (do_call self c w)).
Proof.
  intros Hc Hw. destruct c; cbn [do_call snd].
  - exact (kept_open_untouched _ _ _ _ (set_pwidth_untouched _ _ _ _) Hw).
  - exact (kept_open_untouched _ _ _ _ (set_roll_pwidth_untouched _ _ _) Hw).
  - exact (kept_open_untouched _ _ _ _ (set_pitch_pwidth_untouched _ _ _) Hw).
  - exact (kept_open_untouched _ _ _ _ (set_yaw_pwidth_untouched _ _ _) Hw).
  - exact (kept_open_untouched _ _ _ _ (reset_channels_untouched _ _) Hw).
  - apply kept_open_get_data; assumption.
  - apply kept_open_accessor, Hw.
  - apply kept_open_accessor, Hw.
  - apply kept_open_accessor, Hw.
  - pose proof (kept_open_exit h c0 self w Hw) as He.
    destruct (exit self w) as [[self'|e] w']; exact He.
Qed.

(** X15: [exit] closes nothing that was open.  In a sequence of calls,
    [exit] included and as often as one likes, no [closeSerial] reaches a
    link that existed before the sequence, as long as [get_data] is given
    valid keys: the link of the constructor stays open. *)
Theorem old_links_never_closed (cs : list call) (self : DroneComm) (w : World) (h : nat) :
  forallb well_asked cs = true ->
  (h < List.length (links w))%nat ->
  closed h (trace (snd (do_calls self cs w))) = closed h (trace w).
Proof.
  intros Hcs Hh.
  assert (H : kept_open h (closed h (trace w)) (snd (do_calls self cs w))); [|apply H].
  assert (Hw : kept_open h (closed h (trace w)) w) by (split; [reflexivity|exact Hh]).
  revert Hw. generalize (closed h (trace w)) as c0. clear Hh.
  revert self w. induction cs as [|c cs IH]; intros self w c0 Hw; [exact Hw|].
  cbn [forallb] in Hcs. apply andb_true_iff in Hcs as [Hc Hcs].
  cbn [do_calls].
  pose proof (kept_open_do_call h c0 self c w Hc Hw) as Hw'.
  destruct (do_call self c w) as [self' w']. apply IH; assumption.
Qed.

End Links.

(** ** The constructor *)

Section Construction.

Context {P : Platform}.

(** What a constructor call that returns has done, step by step. *)
Lemma init_returns (period_s : float) (k_period : option float)
    (roll pitch yaw : number) (port : option string) (w w' : World) (self : DroneComm) :
  __init__ period_s k_period roll pitch yaw port w = (Ok self, w') ->
  let k := match k_period with None => DEFAULT_K_PERIOD | Some k => k end in
  exists r p y b w1,
    trim_seconds roll = Ok r /\ trim_seconds pitch = Ok p /\ trim_seconds yaw = Ok y /\
    PrimFloat.eqb (k * period_s) 0 = false /\
    self = {| period := period_s; roll_pwm_trim := r; pitch_pwm_trim := p;
              yaw_pwm_trim := y; board := b |} /\
    match port with
    | None => b = None /\ links w1 = links w
    | Some s => b = Some (List.length (links w)) /\
                exists l, MultiWii_init s = Ok l /\ links w1 = links w ++ [l]
    end /\
    trace w1 = trace w ++ [PCA9685; set_pwm_freq (1 / (k * period_s))] ++
                 match port with
                 | None => []
                 | Some s => [MultiWii_new s (List.length (links w))]
                 end /\
    reset_channels self w1 = (Ok tt, w').
Proof.
  intros H k. unfold __init__ in H. fold k in H.
  destruct (trim_seconds roll) as [r|e]; [rewrite bind_lift_Ok in H|discriminate].
  destruct (trim_seconds pitch) as [p|e]; [rewrite bind_lift_Ok in H|discriminate].
  destruct (trim_seconds yaw) as [y|e]; [rewrite bind_lift_Ok in H|discriminate].
  unfold bind at 1 in H. unfold emit at 1 in H.
  unfold bind at 1 in H. unfold lift at 1, truediv in H.
  destruct (PrimFloat.eqb (k * period_s) 0) eqn:Hk; [discriminate|].
  unfold bind at 1 in H. unfold emit at 1 in H. cbn [trace links] in H.
  rewrite <- app_assoc in H. cbn [app] in H.
  destruct port as [s|].
  - unfold bind at 1 2 in H. unfold new_MultiWii in H. cbn [trace links] in H.
    destruct (MultiWii_init s) as [l|e] eqn:Hl; [|discriminate].
    unfold ret at 1 in H.
    apply bind_Ok_inv in H as ([] & w2 & Hreset & H). injection H as <- <-.
    match type of Hreset with
    | reset_channels _ ?W = _ => exists r, p, y, (Some (List.length (links w))), W
    end.
    do 5 (split; [reflexivity|]).
    split; [split; [reflexivity|]; exists l; split; reflexivity|].
    split; [|exact Hreset]. cbn [trace]. rewrite <- app_assoc. reflexivity.
  - unfold bind at 1 in H. unfold ret at 1 in H.
    apply bind_Ok_inv in H as ([] & w2 & Hreset & H). injection H as <- <-.
    match type of Hreset with
    | reset_channels _ ?W = _ => exists r, p, y, None, W
    end.
    do 5 (split; [reflexivity|]).
    split; [split; reflexivity|].
    split; [|exact Hreset]. cbn [trace]. reflexivity.
Qed.

(** X16: a constructor call that returns has created the driver, set the
    frequency to [1 / (k_period * period)], opened the link when a port was
    given, and then programmed every channel: the instance holds the
    period and the trims in seconds, channels 0, 4 and 5 are at
    [MID_WIDTH], roll, pitch and yaw at [MID_WIDTH] plus their trim. *)
Theorem init_programs (period_s : float) (k_period : option float)
    (roll pitch yaw : number) (port : option string) (w w' : World) (self : DroneComm) :
  __init__ period_s k_period roll pitch yaw port w = (Ok self, w') ->
  let k := match k_period with None => DEFAULT_K_PERIOD | Some k => k end in
  period self = period_s /\
  trim_seconds roll = Ok (roll_pwm_trim self) /\
  trim_seconds pitch = Ok (pitch_pwm_trim self) /\
  trim_seconds yaw = Ok (yaw_pwm_trim self) /\
  board self = match port with
               | None => None
               | Some _ => Some (List.length (links w))
               end /\
  exists pm pr pp py,
    trace w' = trace w ++ [PCA9685; set_pwm_freq (1 / (k * period_s))] ++
                 match port with
                 | None => []
                 | Some s => [MultiWii_new s (List.length (links w))]
                 end ++ reset_writes self pm pr pp py /\
    programmed ROLL_CHANNEL (trace w') = Some ((MID_WIDTH + roll_pwm_trim self)%float, pr) /\
    programmed PITCH_CHANNEL (trace w') = Some ((MID_WIDTH + pitch_pwm_trim self)%float, pp) /\
    programmed YAW_CHANNEL (trace w') = Some ((MID_WIDTH + yaw_pwm_trim self)%float, py) /\
    programmed 0 (trace w') = Some (MID_WIDTH, pm) /\
    programmed 4 (trace w') = Some (MID_WIDTH, pm) /\
    programmed 5 (trace w') = Some (MID_WIDTH, pm).
Proof.
  intros H k. apply init_returns in H. fold k in H.
  destruct H as (r & p & y & b & w1 & Hr & Hp & Hy & _ & -> & Hb & Htr & Hreset).
  cbn [period roll_pwm_trim pitch_pwm_trim yaw_pwm_trim board].
  split; [reflexivity|]. split; [exact Hr|]. split; [exact Hp|]. split; [exact Hy|].
  split; [destruct port; apply Hb|].
  apply reset_channels_returns in Hreset.
  destruct Hreset as (pm & pr & pp & py & _ & _ & _ & _ & ->).
  exists pm, pr, pp, py. cbn [trace]. split.
  - rewrite Htr, <- !app_assoc. reflexivity.
  - rewrite !programmed_app. repeat split.
Qed.

Lemma to_ticks_period_nonzero (t : tie_rule) (p w : float) (v : Z) :
  to_ticks t p w = Ok v -> PrimFloat.eqb p 0 = false.
Proof.
  unfold to_ticks, truediv. destruct (PrimFloat.eqb p 0); [discriminate|reflexivity].
Qed.

Lemma do_call_attributes (self : DroneComm) (c : call) (w : World) :
  let self' := fst (do_call self c w) in
  period self' = period self /\
  roll_pwm_trim self' = roll_pwm_trim self /\
  pitch_pwm_trim self' = pitch_pwm_trim self /\
  yaw_pwm_trim self' = yaw_pwm_trim self.
Proof.
  destruct c; cbn [do_call fst]; try (repeat split; reflexivity).
  destruct (exit self w) as [[self'|e] w'] eqn:He; cbn [fst].
  - exact (exit_trims _ _ _ _ He).
  - repeat split; reflexivity.
Qed.

Lemma do_calls_attributes (cs : list call) (self : DroneComm) (w : World) :
  let self' := fst (do_calls self cs w) in
  period self' = period self /\
  roll_pwm_trim self' = roll_pwm_trim self /\
  pitch_pwm_trim self' = pitch_pwm_trim self /\
  yaw_pwm_trim self' = yaw_pwm_trim self.
Proof.
  revert self w. induction cs as [|c cs IH]; intros self w; [repeat split; reflexivity|].
  cbn [do_calls]. pose proof (do_call_attributes self c w) as Hc.
  destruct (do_call self c w) as [self1 w1]. cbn [fst] in Hc.
  specialize (IH self1 w1). cbv zeta in *.
  destruct IH as (E1 & E2 & E3 & E4). destruct Hc as (F1 & F2 & F3 & F4).
  repeat split; congruence.
Qed.

(** X17: on an instance that the constructor returned, whatever calls
    have been made since, the period is not zero, [reset_channels] returns
    normally in every world, and [exit] returns whenever the link on
    /dev/ttyUSB0 can be opened. *)
Theorem reset_channels_after_init (period_s : float) (k_period : option float)
    (roll pitch yaw : number) (port : option string) (w w' : World) (self : DroneComm)
    (cs : list call) (w1 w2 : World) :
  __init__ period_s k_period roll pitch yaw port w = (Ok self, w') ->
  let self' := fst (do_calls self cs w1) in
  PrimFloat.eqb (period self') 0 = false /\
  (exists w3, reset_channels self' w2 = (Ok tt, w3)) /\
  (forall l, MultiWii_init "/dev/ttyUSB0" = Ok l ->
             exists self'' w3, exit self' w2 = (Ok self'', w3)).
Proof.
  intros H self'. apply init_returns in H.
  destruct H as (r & p & y & b & w0 & _ & _ & _ & _ & Hself & _ & _ & Hreset).
  apply reset_channels_returns in Hreset.
  destruct Hreset as (pm & pr & pp & py & Hm & Hr & Hp & Hy & _).
  destruct (do_calls_attributes cs self w1) as (Ep & Er & Epi & Ey).
  fold self' in Ep, Er, Epi, Ey.
  assert (Hret : exists w3, reset_channels self' w2 = (Ok tt, w3)).
  { eexists. apply reset_channels_returns. exists pm, pr, pp, py.
    rewrite Ep, Er, Epi, Ey. repeat (split; [assumption|]). reflexivity. }
  split; [rewrite Ep; exact (to_ticks_period_nonzero _ _ _ _ Hm)|].
  split; [exact Hret|].
  intros l Hl. destruct Hret as [w3 Hret].
  eexists. eexists. apply exit_returns. exists w3, l.
  split; [exact Hret|]. split; [exact Hl|]. split; reflexivity.
Qed.

End Construction.

(** ** The further properties on the simulated controller *)

Lemma to_ticks_between_witness :
  exists v, to_ticks HalfToEven 0.022 0.0015 = Ok v /\ 205 <= v <= 354.
Proof.
  refine (to_ticks_between HalfToEven 0.022 MIN_WIDTH 0.0015 MAX_WIDTH 205 354 _ _ _ _ _);
    vm_compute; reflexivity.
Defined.

Lemma pulse_within_period_witness :
  exists v, to_ticks HalfAwayFromZero 0.022 0.0215 = Ok v /\ 0 <= v <= TICKS.
Proof.
  refine (proj2 (pulse_within_period HalfAwayFromZero 0.022 0.0215 _ _ _ _));
    vm_compute; reflexivity.
Defined.

Lemma to_ticks_accurate_witness :
  let W := mag_of (Prim2SF 0.0015) in
  let T := mag_of (Prim2SF 0.022) in
  (279 - 1) * T < TICKS * W < (279 + 1) * T.
Proof.
  intros W T.
  refine (proj2 (proj2 (proj2
            (to_ticks_accurate HalfAwayFromZero 0.022 0.0015 279 _ _ _ _ _))));
    vm_compute; reflexivity.
Defined.

Lemma nan_width_raises_witness :
  Prim2SF nan = S754_nan /\
  set_roll_pwidth (P := Sim.py2) Sim.demo nan Sim.boot = (Raise ValueError, Sim.boot).
Proof.
  assert (Hnan : Prim2SF nan = S754_nan) by (vm_compute; reflexivity).
  split; [exact Hnan|].
  exact (proj1 (nan_width_raises (P := Sim.py2) Sim.demo nan Sim.boot Hnan)).
Defined.

Lemma reset_channels_idempotent_witness :
  exists w2,
    reset_channels (P := Sim.py2) Sim.demo (snd (reset_channels Sim.demo Sim.boot)) =
      (Ok tt, w2) /\
    forall c, programmed c (trace w2) =
              programmed c (trace (snd (reset_channels (P := Sim.py2) Sim.demo Sim.boot))).
Proof.
  refine (reset_channels_idempotent (P := Sim.py2) Sim.demo Sim.boot _ _).
  vm_compute. reflexivity.
Defined.

Lemma clamped_commands_return_witness :
  exists pulse w',
    set_roll_pwidth (P := Sim.py2) Sim.demo 0.01 Sim.boot = (Ok tt, w') /\
    programmed ROLL_CHANNEL (trace w') =
      Some (fst (validate_pwidth (0.01 + roll_pwm_trim Sim.demo)), pulse) /\
    205 <= pulse <= 354.
Proof.
  destruct (clamped_commands_return (P := Sim.py2) Sim.demo Sim.boot 354)
    as (lo & Hlo & _ & Hroll & _).
  - vm_compute. reflexivity.
  - vm_compute. reflexivity.
  - assert (E : lo = 205) by (vm_compute in Hlo; congruence). subst lo.
    apply Hroll. vm_compute. discriminate.
Defined.

Lemma warnings_tell_clamping_witness :
  exists pulse,
    trace (snd (set_roll_pwidth (P := Sim.py2) Sim.demo 0.01 Sim.boot)) =
      trace Sim.boot ++
        [set_pwm ROLL_CHANNEL (fst (validate_pwidth (0.01 + roll_pwm_trim Sim.demo))) 0 pulse;
         print "WARNING: Roll out of range!"].
Proof.
  refine (proj1 (warnings_tell_clamping (P := Sim.py2) Sim.demo 0.01 Sim.boot _) _).
  vm_compute. reflexivity.
Defined.

Lemma get_data_valid_argument_witness :
  get_data (P := Sim.py2) Sim.demo "angy" Sim.flying =
    (Ok (Some (-2)%float),
     @Build_World Sim.py2
       (trace Sim.flying ++ [getData 0])
       [ {| Sim.port := "/dev/ttyUSB0"; Sim.is_open := true;
            Sim.angx := 1.5; Sim.angy := (-2); Sim.heading := 90 |} ]).
Proof.
  refine (proj1 (get_data_valid_argument (P := Sim.py2) Sim.demo "angy" 0
                   {| Sim.port := "/dev/ttyUSB0"; Sim.is_open := true;
                      Sim.angx := 0; Sim.angy := 0; Sim.heading := 0 |}
                   Sim.flying _ _ _)
                {| Sim.port := "/dev/ttyUSB0"; Sim.is_open := true;
                   Sim.angx := 1.5; Sim.angy := (-2); Sim.heading := 90 |} _);
    vm_compute; reflexivity.
Defined.

Lemma old_links_never_closed_witness :
  let cs := [call_exit; call_get_roll; call_set_roll_pwidth 0.002; call_exit;
             call_get_data "heading"; call_reset_channels] in
  (0 < List.length (links Sim.flying))%nat /\
  closed 0 (trace (snd (do_calls (P := Sim.py2) Sim.demo cs Sim.flying))) = false.
Proof.
  intros cs. split; [vm_compute; lia|].
  refine (eq_trans (old_links_never_closed (P := Sim.py2) cs Sim.demo Sim.flying 0 _ _) _).
  - vm_compute. reflexivity.
  - vm_compute. lia.
  - vm_compute. reflexivity.
Defined.

Lemma init_programs_witness :
  exists self w',
    __init__ (P := Sim.py2) 0.022 None (PyInt 150) (PyInt (-50)) (PyInt 0)
      (Some "/dev/ttyUSB0"%string) Sim.boot = (Ok self, w') /\
    period self = 0.022%float /\
    trim_seconds (PyInt 150) = Ok (roll_pwm_trim self) /\
    board self = Some 0%nat.
Proof.
  assert (Hr : exists self w',
            __init__ (P := Sim.py2) 0.022 None (PyInt 150) (PyInt (-50)) (PyInt 0)
              (Some "/dev/ttyUSB0"%string) Sim.boot = (Ok self, w')).
  { vm_compute. eexists. eexists. reflexivity. }
  destruct Hr as (self & w' & Hr). exists self, w'. split; [exact Hr|].
  pose proof (init_programs (P := Sim.py2) _ _ _ _ _ _ _ _ _ Hr) as H. cbv zeta in H.
  split; [exact (proj1 H)|]. split; [exact (proj1 (proj2 H))|].
  exact (proj1 (proj2 (proj2 (proj2 (proj2 H))))).
Defined.

Lemma reset_channels_after_init_witness :
  exists self w',
    __init__ (P := Sim.py2) 0.022 None (PyInt 150) (PyInt (-50)) (PyInt 0)
      (Some "/dev/ttyUSB0"%string) Sim.boot = (Ok self, w') /\
    exists w3,
      reset_channels
        (fst (do_calls self [call_set_roll_pwidth 0.01; call_exit; call_get_data "x"] w'))
        Sim.boot = (Ok tt, w3).
Proof.
  assert (Hr : exists self w',
            __init__ (P := Sim.py2) 0.022 None (PyInt 150) (PyInt (-50)) (PyInt 0)
              (Some "/dev/ttyUSB0"%string) Sim.boot = (Ok self, w')).
  { vm_compute. eexists. eexists. reflexivity. }
  destruct Hr as (self & w' & Hr). exists self, w'. split; [exact Hr|].
  exact (proj1 (proj2 (reset_channels_after_init (P := Sim.py2) _ _ _ _ _ _ _ _ _
                         [call_set_roll_pwidth 0.01; call_exit; call_get_data "x"]
                         w' Sim.boot Hr))).
Defined.
